(** * kagglebirds2020: the random-access dataset pipeline

    A shallow embedding of [definitions/datasets/kagglebirds2020/__init__.py]:
    the crop/loop helpers, the dataset wrappers ([FixedSizeExcerpts],
    [Floatify], [MixBackgroundNoise], [DownmixChannels], [Mixup]) and the
    bird-free segment detector [read_noise_csv].

    Conventions of the embedding.
    - A numpy array is a record of element type, shape and row-major data.
      Samples are exact rationals ([Qc]); the rounding of floating point
      arithmetic is not modelled.
    - Python exceptions are values of [exn]; a computation that may raise
      returns a [result].
    - The global generator [np.random] is a tape of draws that is threaded
      through every access ([py]); each primitive checks that the draw it
      pops lies in the range the numpy function can return.
    - A Python [dict] with string keys is a [gmap string _]; a Python [set]
      of strings is a [gset string]. *)

From stdpp Require Import base numbers list gmap strings sorting.
From Stdlib Require Import QArith Qcanon Qround.
From Stdlib Require Qcabs.

Close Scope Q_scope.
Close Scope Qc_scope.

(** ** Exceptions and results *)

Inductive exn : Set :=
  | KeyError | IndexError | TypeError | ValueError | AttributeError.

Global Instance exn_eq_dec : EqDecision exn.
Proof. solve_decision. Defined.

Inductive result (A : Type) : Type :=
  | Ok (a : A)
  | Err (e : exn).
Arguments Ok {A} a.
Arguments Err {A} e.

Global Instance result_eq_dec `{EqDecision A} : EqDecision (result A).
Proof. solve_decision. Defined.

Global Instance result_ret : MRet result := λ A a, Ok a.
Global Instance result_bind : MBind result := λ A B f r,
  match r with Ok a => f a | Err e => Err e end.

Global Instance result_fmap : FMap result := λ A B f r,
  match r with Ok a => Ok (f a) | Err e => Err e end.

Definition of_option {A} (e : exn) (o : option A) : result A :=
  match o with Some a => Ok a | None => Err e end.

(** ** Random draws

    One constructor per [np.random] function the module calls. *)

Inductive draw : Type :=
  | randint_draw (n : nat)            (* np.random.randint(high) *)
  | rand_draw (u : Qc)                (* np.random.rand() *)
  | beta_draw (w : Qc)                (* np.random.beta(a, b) *)
  | dirichlet_draw (ws : list Qc).    (* np.random.dirichlet(alpha) *)

Global Instance draw_eq_dec : EqDecision draw.
Proof. solve_decision. Defined.

Definition tape := list draw.

Inductive outcome (A : Type) : Type :=
  | Done (a : A) (rest : tape)   (* normal return, with the unread draws *)
  | Raised (e : exn)             (* a Python exception *)
  | NoDraw.                      (* the tape is not a run of the generator *)
Arguments Done {A} a rest.
Arguments Raised {A} e.
Arguments NoDraw {A}.

Global Instance outcome_eq_dec `{EqDecision A} : EqDecision (outcome A).
Proof. solve_decision. Defined.

Definition py (A : Type) : Type := tape → outcome A.

Global Instance py_ret : MRet py := λ A a t, Done a t.
Global Instance py_bind : MBind py := λ A B f m t,
  match m t with
  | Done a t' => f a t'
  | Raised e => Raised e
  | NoDraw => NoDraw
  end.

Definition lift {A} (r : result A) : py A := λ t,
  match r with Ok a => Done a t | Err e => Raised e end.

Definition unit_interval (u : Qc) : bool :=
  bool_decide (0 ≤ u)%Qc && bool_decide (u < 1)%Qc.

(** [np.random.randint(high)]: an integer of [[0, high)]; [ValueError] when
    [high <= 0]. *)
Definition randint (high : nat) : py nat := λ t,
  if decide (high = 0) then Raised ValueError
  else match t with
       | randint_draw n :: t' => if decide (n < high) then Done n t' else NoDraw
       | _ => NoDraw
       end.

(** [np.random.rand()]: a float of [[0, 1)]. *)
Definition rand : py Qc := λ t,
  match t with
  | rand_draw u :: t' => if unit_interval u then Done u t' else NoDraw
  | _ => NoDraw
  end.

(** [np.random.beta(a, b)]: a float of [[0, 1]]; [ValueError] unless both
    parameters are positive. *)
Definition beta (a b : Qc) : py Qc := λ t,
  if bool_decide (0 < a)%Qc && bool_decide (0 < b)%Qc then
    match t with
    | beta_draw w :: t' =>
        if bool_decide (0 ≤ w)%Qc && bool_decide (w ≤ 1)%Qc
        then Done w t' else NoDraw
    | _ => NoDraw
    end
  else Raised ValueError.

Definition Qc_sum (l : list Qc) : Qc := foldr Qcplus 0%Qc l.

(** [np.random.dirichlet(np.ones(n))]: [n] non-negative weights that sum to
    one. *)
Definition dirichlet_ones (n : nat) : py (list Qc) := λ t,
  match t with
  | dirichlet_draw ws :: t' =>
      if bool_decide (length ws = n)
         && forallb (λ w, bool_decide (0 ≤ w)%Qc) ws
         && bool_decide (Qc_sum ws = 1%Qc)
      then Done ws t' else NoDraw
  | _ => NoDraw
  end.

(** ** numpy arrays *)

Inductive dtype : Set :=
  | bool_ | uint8 | int16 | int64 | float32 | float64.

Global Instance dtype_eq_dec : EqDecision dtype.
Proof. solve_decision. Defined.

Record ndarray : Type := Array {
  arr_dtype : dtype;
  arr_shape : list nat;
  arr_data : list Qc          (* row-major, [size] elements *)
}.

Global Instance ndarray_eq_dec : EqDecision ndarray.
Proof. solve_decision. Defined.

Definition prod_list (l : list nat) : nat := foldr Nat.mul 1 l.

Definition size (a : ndarray) : nat := prod_list (arr_shape a).

Definition wf_array (a : ndarray) : Prop :=
  length (arr_data a) = size a.

(** number of elements in one entry along the first axis *)
Definition row_size (a : ndarray) : nat := prod_list (tail (arr_shape a)).

(** [len(array)]: the size of the first axis; a 0-d array has no length. *)
Definition np_len (a : ndarray) : result nat :=
  match arr_shape a with
  | [] => Err TypeError
  | n :: _ => Ok n
  end.

(** [np.zeros(shape, dtype)] *)
Definition np_zeros (shape : list nat) (dt : dtype) : ndarray :=
  Array dt shape (replicate (prod_list shape) 0%Qc).

(** [np.tile(array, (factor, 1, ..., 1))]: [factor] copies along axis 0. *)
Definition np_tile0 (a : ndarray) (factor : nat) : ndarray :=
  match arr_shape a with
  | [] => a
  | n :: rest =>
      Array (arr_dtype a) (factor * n :: rest)
            (concat (replicate factor (arr_data a)))
  end.

(** [array[start:stop]] along the first axis, with Python's clipping of the
    bounds to the length. *)
Definition slice0 (a : ndarray) (start stop : nat) : ndarray :=
  match arr_shape a with
  | [] => a
  | n :: rest =>
      let stop' := stop `min` n in
      let start' := start `min` stop' in
      Array (arr_dtype a) (stop' - start' :: rest)
            (take ((stop' - start') * prod_list rest)
                  (drop (start' * prod_list rest) (arr_data a)))
  end.

(** [np.concatenate((a, b))] of two arrays with the same element type and
    the same trailing axes. *)
Definition np_concatenate0 (a b : ndarray) : ndarray :=
  match arr_shape a, arr_shape b with
  | n :: rest, m :: _ =>
      Array (arr_dtype a) (n + m :: rest) (arr_data a ++ arr_data b)
  | _, _ => a
  end.

(** ** [loop] and [crop] *)

(** [loop(array, length)].  The subtraction [length - len(array)] is taken
    after tiling, when [len(array) <= length], so it is exact on [nat]. *)
Definition loop (array : ndarray) (length : nat) : result ndarray :=
  n ← np_len array;
  if decide (n < length) then
    if decide (n = 0) then
      Ok (np_zeros (length :: tail (arr_shape array)) (arr_dtype array))
    else
      let factor := length `div` n in
      let array := if decide (1 < factor) then np_tile0 array factor
                   else array in
      n' ← np_len array;
      let missing := length - n' in
      if decide (missing ≠ 0)
      then Ok (np_concatenate0 array (slice0 array 0 missing))
      else Ok array
  else Ok array.

(** [crop(array, length, deterministic)] *)
Definition crop (array : ndarray) (length : nat) (deterministic : bool)
    : py ndarray :=
  l ← lift (np_len array);
  if decide (length < l) then
    if negb deterministic then
      pos ← randint (l - length + 1);
      mret (slice0 array pos (pos + length))
    else
      mret (slice0 array ((l - length) `div` 2) ((l + length) `div` 2))
  else mret array.

Definition qz (z : Z) : Qc := Qc_of_Z z.

(** a one-dimensional array of integers *)
Definition arr1 (dt : dtype) (l : list Z) : ndarray :=
  Array dt [length l] (qz <$> l).

(** ** More of numpy: element types, arithmetic, reductions *)

(** Element type of [c * array] for a Python float [c] (numpy < 1.24, whose
    [np.int] the module still uses): an array of a float type keeps it, a
    0-d float32 and every integer or boolean array become float64. *)
Definition mul_pyfloat_dtype (ndim : nat) (dt : dtype) : dtype :=
  match dt with
  | float32 => if decide (ndim = 0) then float64 else float32
  | _ => float64
  end.

(** [np.promote_types] on the element types above. *)
Definition promote_types (a b : dtype) : dtype :=
  match a, b with
  | float64, _ | _, float64 => float64
  | float32, int64 | int64, float32 => float64
  | float32, _ | _, float32 => float32
  | int64, _ | _, int64 => int64
  | int16, _ | _, int16 => int16
  | uint8, _ | _, uint8 => uint8
  | bool_, bool_ => bool_
  end.

(** element type of [np.mean] *)
Definition mean_dtype (dt : dtype) : dtype :=
  match dt with float32 => float32 | _ => float64 end.

(** truncation toward zero, as [astype] to an integer type does *)
Definition Qc_trunc (q : Qc) : Z := (Qnum q `quot` Zpos (Qden q))%Z.

(** [x.astype(dt)] on one element (values outside the range of an integer
    type are not modelled) *)
Definition cast (dt : dtype) (x : Qc) : Qc :=
  match dt with
  | bool_ => if decide (x = 0%Qc) then 0%Qc else 1%Qc
  | uint8 | int16 | int64 => qz (Qc_trunc x)
  | float32 | float64 => x
  end.

Definition np_astype (a : ndarray) (dt : dtype) : ndarray :=
  Array dt (arr_shape a) (cast dt <$> arr_data a).

Definition np_zeros_like (a : ndarray) : ndarray :=
  np_zeros (arr_shape a) (arr_dtype a).

(** [c * array] for a Python float [c] *)
Definition np_scale (c : Qc) (a : ndarray) : ndarray :=
  Array (mul_pyfloat_dtype (length (arr_shape a)) (arr_dtype a))
        (arr_shape a) (Qcmult c <$> arr_data a).

(** [a + b] for operands of one shape.  numpy broadcasts operands of
    different shapes where it can; broadcasting is outside this model,
    which answers [ValueError] for them, so what is stated of a sum is
    stated for operands of one shape. *)
Definition np_add (a b : ndarray) : result ndarray :=
  if decide (arr_shape a = arr_shape b) then
    Ok (Array (promote_types (arr_dtype a) (arr_dtype b)) (arr_shape a)
              (zip_with Qcplus (arr_data a) (arr_data b)))
  else Err ValueError.

Definition Qc_abs (x : Qc) : Qc := if decide (x < 0)%Qc then (- x)%Qc else x.
Definition Qc_max (x y : Qc) : Qc := if decide (x < y)%Qc then y else x.

(** [abs] on one element.  The most negative number of a signed integer
    type has no positive counterpart in the type, and numpy returns it as
    it is. *)
Definition np_abs (dt : dtype) (x : Qc) : Qc :=
  match dt with
  | int16 => if decide (x = qz (-32768)) then x else Qc_abs x
  | int64 => if decide (x = qz (-9223372036854775808)) then x else Qc_abs x
  | bool_ | uint8 | float32 | float64 => Qc_abs x
  end.

(** [abs(wav).max()]; numpy raises [ValueError] on an empty array. *)
Definition np_abs_max (a : ndarray) : result Qc :=
  match arr_data a with
  | [] => Err ValueError
  | x :: l => Ok (foldl (λ m y, Qc_max m (np_abs (arr_dtype a) y))
                        (np_abs (arr_dtype a) x) l)
  end.

(** [array > 0.0], of element type bool *)
Definition np_positive (a : ndarray) : ndarray :=
  Array bool_ (arr_shape a)
        ((λ x, if decide (0 < x)%Qc then 1%Qc else 0%Qc) <$> arr_data a).

(** Python indexing of a sequence of length [n] with a possibly negative
    index. *)
Definition py_index (n : nat) (i : Z) : result nat :=
  if decide (0 ≤ i < Z.of_nat n)%Z then Ok (Z.to_nat i)
  else if decide (- Z.of_nat n ≤ i < 0)%Z then Ok (Z.to_nat (i + Z.of_nat n))
  else Err IndexError.

(** The entries of [data] that differ only in their index along axis [k]:
    [outer] is the flat index over the axes before [k], [inner] over the
    axes after it. *)
Definition lane (data : list Qc) (n inner_size outer inner : nat) : list Qc :=
  (λ j, nth ((outer * n + j) * inner_size + inner) data 0%Qc) <$> seq 0 n.

(** Reduction of axis [k] by [g], the axis being kept with size one
    ([keepdims=True]). *)
Definition reduce_axis (g : list Qc → Qc) (shape : list nat) (k : nat)
    (data : list Qc) : list Qc :=
  let n := nth k shape 0 in
  let inner_size := prod_list (drop (S k) shape) in
  outer ← seq 0 (prod_list (take k shape));
  inner ← seq 0 inner_size;
  [g (lane data n inner_size outer inner)].

Definition mean (l : list Qc) : Qc := (Qc_sum l / qz (Z.of_nat (length l)))%Qc.

(** [np.mean(wav, axis=k, keepdims=True)] *)
Definition np_mean (a : ndarray) (k : nat) : ndarray :=
  Array (mean_dtype (arr_dtype a)) (<[k := 1]> (arr_shape a))
        (reduce_axis mean (arr_shape a) k (arr_data a)).

Definition dot (ws l : list Qc) : Qc := Qc_sum (zip_with Qcmult l ws).

(** The weighted sum over axis [k] that both branches of
    [method='random_uniform'] compute, the axis being kept.  The element
    type is the one of the array, as [np.dot] keeps it; for integer audio
    on another axis than the last the code's [sum] widens the type, which
    is not modelled. *)
Definition np_weighted_sum (a : ndarray) (k : nat) (ws : list Qc) : ndarray :=
  Array (arr_dtype a) (<[k := 1]> (arr_shape a))
        (reduce_axis (dot ws) (arr_shape a) k (arr_data a)).

(** row-major multi-index of a flat index, and back *)
Fixpoint unravel (shape : list nat) (i : nat) : list nat :=
  match shape with
  | [] => []
  | n :: rest => (i `div` prod_list rest) :: unravel rest (i `mod` prod_list rest)
  end.

Definition ravel (shape index : list nat) : nat :=
  foldl (λ acc nj, acc * nj.1 + nj.2) 0 (zip shape index).

(** [array.T]: the axes in reverse order *)
Definition np_transpose (a : ndarray) : ndarray :=
  let shape := arr_shape a in
  Array (arr_dtype a) (reverse shape)
        ((λ p, nth (ravel shape (reverse (unravel (reverse shape) p)))
                   (arr_data a) 0%Qc) <$> seq 0 (prod_list shape)).

(** Modelled from the spec: [audio.to_float], which lives outside this
    module.  It converts samples to float32 with a fixed scaling that fits
    the sample format, signed 16-bit full scale being mapped to [-1, 1];
    the other integer formats are scaled by their full scale alike. *)
Definition to_float (a : ndarray) : ndarray :=
  let scale := match arr_dtype a with
               | bool_ | float32 | float64 => 1%Qc
               | uint8 => qz 255
               | int16 => qz 32768
               | int64 => qz (2 ^ 63)
               end in
  Array float32 (arr_shape a) ((λ x, x / scale)%Qc <$> arr_data a).

(** ** Items and schemas *)

(** The value of one field of an item: an array (or numpy scalar, a 0-d
    array) or a Python string such as [itemid]. *)
Inductive value : Type :=
  | VArr (a : ndarray)
  | VStr (s : string).

Global Instance value_eq_dec : EqDecision value.
Proof. solve_decision. Defined.

(** [None] is the wildcard of an axis whose size varies between items. *)
Abbreviation shape_t := (list (option nat)).

Inductive schema_dtype : Set :=
  | np_dtype (dt : dtype)
  | py_str.

Global Instance schema_dtype_eq_dec : EqDecision schema_dtype.
Proof. solve_decision. Defined.

(** [len(data)] *)
Definition len_value (v : value) : result nat :=
  match v with
  | VArr a => np_len a
  | VStr s => Ok (String.length s)
  end.

(** [loop] first passes its argument through [np.asanyarray], which makes a
    0-d array of a string, and [len] of that raises. *)
Definition loop_value (v : value) (length : nat) : result value :=
  match v with
  | VArr a => VArr <$> loop a length
  | VStr s => if decide (String.length s < length) then Err TypeError
              else Ok v
  end.

(** [crop] only slices, which a string supports as well. *)
Definition crop_value (v : value) (length : nat) (deterministic : bool)
    : py value :=
  match v with
  | VArr a => a' ← crop a length deterministic; mret (VArr a')
  | VStr s =>
      let l := String.length s in
      if decide (length < l) then
        if negb deterministic then
          pos ← randint (l - length + 1);
          mret (VStr (String.substring pos length s))
        else
          mret (VStr (String.substring ((l - length) `div` 2)
                                ((l + length) `div` 2 - (l - length) `div` 2)
                                s))
      else mret v
  end.

Definition as_array (e : exn) (v : value) : result ndarray :=
  match v with VArr a => Ok a | VStr _ => Err e end.

(** [c * x] for a Python float [c] *)
Definition scale_value (c : Qc) (v : value) : result value :=
  a ← as_array TypeError v; Ok (VArr (np_scale c a)).

(** [x + y] *)
Definition add_value (x y : value) : result value :=
  a ← as_array TypeError x; b ← as_array TypeError y;
  VArr <$> np_add a b.

(** [np.zeros_like(x)]; of a string numpy makes the empty string. *)
Definition zeros_like (v : value) : value :=
  match v with
  | VArr a => VArr (np_zeros_like a)
  | VStr _ => VStr ""
  end.

(** [(x > 0.0).astype(x.dtype)] *)
Definition binarize (v : value) : result value :=
  a ← as_array TypeError v;
  Ok (VArr (np_astype (np_positive a) (arr_dtype a))).

(** [item[k]] *)
Definition get_field (item : gmap string value) (k : string) : result value :=
  of_option KeyError (item !! k).

(** ** Datasets *)

(** What a leaf's author may attach to it besides the schema, e.g. a
    sampler object. *)
Inductive pyobj : Type :=
  | PyInt (z : Z)
  | PyFloat (q : Qc)
  | PyStr (s : string)
  | PyObject (class_name : string).

(** A dataset without upstream.  Its fields are those the base class
    [Dataset] stores ([shapes], [dtypes], [num_classes], [num_items]), its
    [__getitem__] and whatever else was set on the object. *)
Record leaf : Type := Leaf_ {
  leaf_shapes : gmap string shape_t;
  leaf_dtypes : gmap string schema_dtype;
  leaf_num_classes : nat;
  leaf_num_items : nat;
  leaf_getitem : nat → py (gmap string value);
  leaf_attrs : gmap string pyobj
}.

(** The dataset classes of the module; every wrapper keeps its upstream in
    the field [dataset]. *)
Inductive Dataset : Type :=
  | Leaf (l : leaf)
  | FixedSizeExcerpts (dataset : Dataset) (length : nat)
      (deterministic : bool) (key : string)
  | Floatify (dataset : Dataset) (transpose : bool) (key : string)
  | MixBackgroundNoise (dataset noisedataset : Dataset) (key : string)
      (probability min_factor max_factor min_amp max_amp
       noise_only_probability : Qc) (label_keys : gset string)
  | DownmixChannels (dataset : Dataset) (key : string) (axis : Z)
      (method : string)
  | Mixup (dataset : Dataset) (keys binarize_keys : gset string) (alpha : Qc).

(** the wrapped dataset, [self.dataset] *)
Definition upstream (d : Dataset) : option Dataset :=
  match d with
  | Leaf _ => None
  | FixedSizeExcerpts u _ _ _ | Floatify u _ _
  | MixBackgroundNoise u _ _ _ _ _ _ _ _ _ | DownmixChannels u _ _ _
  | Mixup u _ _ _ => Some u
  end.

(** [shape[axis] = 1] on the list made of a shape tuple *)
Definition set_axis_one (shape : shape_t) (axis : Z) : result shape_t :=
  k ← py_index (length shape) axis; Ok (<[k := Some 1]> shape).

(** The [shapes] a constructor passes to [Dataset.__init__]; a constructor
    raises when it indexes the upstream schema at a missing key. *)
Fixpoint shapes (d : Dataset) : result (gmap string shape_t) :=
  match d with
  | Leaf l => Ok (leaf_shapes l)
  | FixedSizeExcerpts u length _ key =>
      sh ← shapes u;
      s ← of_option KeyError (sh !! key);
      Ok (<[key := Some length :: tail s]> sh)
  | Floatify u transpose key =>
      sh ← shapes u;
      if transpose then
        s ← of_option KeyError (sh !! key);
        Ok (<[key := reverse s]> sh)
      else Ok sh
  | MixBackgroundNoise u _ _ _ _ _ _ _ _ _ => shapes u
  | DownmixChannels u key axis _ =>
      sh ← shapes u;
      s ← of_option KeyError (sh !! key);
      s' ← set_axis_one s axis;
      Ok (<[key := s']> sh)
  | Mixup u _ _ _ => shapes u
  end.

Fixpoint dtypes (d : Dataset) : gmap string schema_dtype :=
  match d with
  | Leaf l => leaf_dtypes l
  | Floatify u _ key => <[key := np_dtype float32]> (dtypes u)
  | FixedSizeExcerpts u _ _ _ | MixBackgroundNoise u _ _ _ _ _ _ _ _ _
  | DownmixChannels u _ _ _ | Mixup u _ _ _ => dtypes u
  end.

Fixpoint num_classes (d : Dataset) : nat :=
  match d with
  | Leaf l => leaf_num_classes l
  | FixedSizeExcerpts u _ _ _ | Floatify u _ _
  | MixBackgroundNoise u _ _ _ _ _ _ _ _ _ | DownmixChannels u _ _ _
  | Mixup u _ _ _ => num_classes u
  end.

(** Modelled from the spec: [len(dataset)] of the base class [Dataset],
    which lives outside this module, is the item count [num_items] fixed
    at construction.  Every wrapper passes [len(dataset)] of its upstream
    on as its own [num_items]. *)
Fixpoint num_items (d : Dataset) : nat :=
  match d with
  | Leaf l => leaf_num_items l
  | FixedSizeExcerpts u _ _ _ | Floatify u _ _
  | MixBackgroundNoise u _ _ _ _ _ _ _ _ _ | DownmixChannels u _ _ _
  | Mixup u _ _ _ => num_items u
  end.

(** ** [__getitem__] *)

(** [for k in ks: item[k] = f(item[k])] *)
Fixpoint update_fields (f : value → result value) (ks : list string)
    (item : gmap string value) : result (gmap string value) :=
  match ks with
  | [] => Ok item
  | k :: ks =>
      x ← get_field item k;
      v ← f x;
      update_fields f ks (<[k := v]> item)
  end.

(** [for k in ks: item[k] = w1 * item1[k] + w2 * item2[k]] *)
Fixpoint blend (w1 w2 : Qc) (item1 item2 : gmap string value)
    (ks : list string) (item : gmap string value)
    : result (gmap string value) :=
  match ks with
  | [] => Ok item
  | k :: ks =>
      x1 ← get_field item1 k;
      a ← scale_value w1 x1;
      x2 ← get_field item2 k;
      b ← scale_value w2 x2;
      s ← add_value a b;
      blend w1 w2 item1 item2 ks (<[k := s]> item)
  end.

(** [MixBackgroundNoise.get_noise], over the [__getitem__] and the length
    of the noise dataset *)
Definition get_noise (noise_getitem : nat → py (gmap string value))
    (noise_len : nat) (key : string) (min_amp max_amp : Qc) : py value :=
  i ← randint noise_len;
  noise ← noise_getitem i;
  wav ← lift (get_field noise key);
  if decide (max_amp ≠ 0%Qc) then
    factor ← (if decide (min_amp ≠ max_amp) then
                r ← rand; mret (min_amp + r * (max_amp - min_amp))%Qc
              else mret min_amp);
    a ← lift (as_array TypeError wav);
    m ← lift (np_abs_max a);
    let max_amplitude := if decide (m = 0%Qc) then 1%Qc else m in
    mret (VArr (np_scale (factor / max_amplitude)%Qc a))
  else mret wav.

(** [self.noise_only_probability > 0 and
     np.random.rand() < self.noise_only_probability] *)
Definition noise_only_fires (noise_only_probability : Qc) : py bool :=
  if decide (0 < noise_only_probability)%Qc then
    r ← rand; mret (bool_decide (r < noise_only_probability)%Qc)
  else mret false.

(** [self.probability > 0 and (self.probability == 1 or
     np.random.rand() < self.probability)] *)
Definition mix_fires (probability : Qc) : py bool :=
  if decide (0 < probability)%Qc then
    if decide (probability = 1%Qc) then mret true
    else r ← rand; mret (bool_decide (r < probability)%Qc)
  else mret false.

Fixpoint getitem (d : Dataset) (idx : nat) : py (gmap string value) :=
  match d with
  | Leaf l => leaf_getitem l idx
  | FixedSizeExcerpts dataset length deterministic key =>
      item ← getitem dataset idx;
      data ← lift (get_field item key);
      n ← lift (len_value data);
      data ← (if decide (n < length) then lift (loop_value data length)
              else if decide (length < n)
                   then crop_value data length deterministic
                   else mret data);
      mret (<[key := data]> item)
  | Floatify dataset transpose key =>
      item ← getitem dataset idx;
      data ← lift (get_field item key);
      a ← lift (as_array TypeError data);
      let a := if transpose then np_transpose a else a in
      mret (<[key := VArr (to_float a)]> item)
  | MixBackgroundNoise dataset noisedataset key probability min_factor
      max_factor min_amp max_amp noise_only_probability label_keys =>
      let get_noise := get_noise (getitem noisedataset)
                                 (num_items noisedataset) key min_amp max_amp in
      item ← getitem dataset idx;
      noise_only ← noise_only_fires noise_only_probability;
      if noise_only : bool then
        wav ← get_noise;
        lift (update_fields (λ x, Ok (zeros_like x)) (elements label_keys)
                            (<[key := wav]> item))
      else
        mix ← mix_fires probability;
        if mix : bool then
          r ← rand;
          let noise_factor := (min_factor + r * (max_factor - min_factor))%Qc in
          x ← lift (get_field item key);
          a ← lift (scale_value (1 - noise_factor)%Qc x);
          noise ← get_noise;
          b ← lift (scale_value noise_factor noise);
          s ← lift (add_value a b);
          mret (<[key := s]> item)
        else mret item
  | DownmixChannels dataset key axis method =>
      item ← getitem dataset idx;
      wav ← lift (get_field item key);
      a ← lift (as_array AttributeError wav);
      k ← lift (py_index (length (arr_shape a)) axis);
      let num_channels := nth k (arr_shape a) 0 in
      a ← (if decide (1 < num_channels) then
             if decide (method = "average") then mret (np_mean a k)
             else if decide (method = "random_uniform") then
               weights ← dirichlet_ones num_channels;
               mret (np_weighted_sum a k (cast (arr_dtype a) <$> weights))
             else mret a
           else mret a);
      mret (<[key := VArr a]> item)
  | Mixup dataset keys binarize_keys alpha =>
      item1 ← getitem dataset idx;
      idx2 ← randint (num_items dataset);
      item2 ← getitem dataset idx2;
      w1 ← beta alpha alpha;
      let w2 := (1 - w1)%Qc in
      let item := if decide (w2 ≤ w1)%Qc then item1 else item2 in
      item ← lift (blend w1 w2 item1 item2 (elements keys) item);
      lift (update_fields binarize (elements binarize_keys) item)
  end.

(** ** Attribute lookup *)

Inductive attr_value : Type :=
  | AShapes (s : gmap string shape_t)
  | ADtypes (s : gmap string schema_dtype)
  | ANat (n : nat)
  | AInt (z : Z)
  | ABool (b : bool)
  | AStr (s : string)
  | AFloat (q : Qc)
  | AKeys (ks : gset string)
  | ADataset (d : Dataset)
  | AObj (o : pyobj)
  | AMethod (name : string).

(** Modelled from the spec: the base class [Dataset], which lives outside
    this module.  Its constructor stores the schema, that is [shapes],
    [dtypes], [num_classes] and [num_items], on the instance. *)
Definition Dataset_init (d : Dataset) : list (string * attr_value) :=
  match shapes d with
  | Ok sh => [("shapes", AShapes sh)]
  | Err _ => []
  end ++
  [("dtypes", ADtypes (dtypes d)); ("num_classes", ANat (num_classes d));
   ("num_items", ANat (num_items d))].

(** What normal lookup finds on an object: the attributes its [__init__]
    assigns and the methods of its class. *)
Definition defined_attrs (d : Dataset) : gmap string attr_value :=
  list_to_map
    (Dataset_init d ++ [("__getitem__", AMethod "__getitem__")] ++
     match d with
     | Leaf l => prod_map id AObj <$> map_to_list (leaf_attrs l)
     | FixedSizeExcerpts u length deterministic key =>
         [("__getattr__", AMethod "__getattr__"); ("dataset", ADataset u);
          ("length", ANat length); ("deterministic", ABool deterministic);
          ("key", AStr key)]
     | Floatify u transpose key =>
         [("__getattr__", AMethod "__getattr__"); ("dataset", ADataset u);
          ("transpose", ABool transpose); ("key", AStr key)]
     | MixBackgroundNoise u nd key p minf maxf mina maxa nop lk =>
         [("__getattr__", AMethod "__getattr__");
          ("get_noise", AMethod "get_noise"); ("dataset", ADataset u);
          ("noisedataset", ADataset nd); ("key", AStr key);
          ("probability", AFloat p); ("min_factor", AFloat minf);
          ("max_factor", AFloat maxf); ("min_amp", AFloat mina);
          ("max_amp", AFloat maxa); ("noise_only_probability", AFloat nop);
          ("label_keys", AKeys lk)]
     | DownmixChannels u key axis method =>
         [("__getattr__", AMethod "__getattr__"); ("dataset", ADataset u);
          ("key", AStr key); ("axis", AInt axis); ("method", AStr method)]
     | Mixup u keys binarize_keys alpha =>
         [("__getattr__", AMethod "__getattr__"); ("dataset", ADataset u);
          ("keys", AKeys keys); ("binarize_keys", AKeys binarize_keys);
          ("alpha", AFloat alpha)]
     end).

(** [getattr(d, attr)]: normal lookup first; when that fails, a wrapper's
    [__getattr__] asks [self.dataset], and a leaf raises. *)
Fixpoint getattr (d : Dataset) (attr : string) : result attr_value :=
  match defined_attrs d !! attr with
  | Some v => Ok v
  | None =>
      match d with
      | Leaf _ => Err AttributeError
      | FixedSizeExcerpts u _ _ _ | Floatify u _ _
      | MixBackgroundNoise u _ _ _ _ _ _ _ _ _ | DownmixChannels u _ _ _
      | Mixup u _ _ _ => getattr u attr
      end
  end.

(** ** The segment detector [read_noise_csv] *)

(** The table [pd.read_csv] returns: the columns by name. *)
Definition DataFrame : Type := gmap string (list Qc).

(** [(seconds * sample_rate).astype(np.int)]: the product, truncated
    toward zero.  The product is the exact one here; the code rounds it to
    a float64 first, which gives the same integer whenever the exact
    product is itself a whole number, and may give a neighbouring one when
    the exact product lies next to a whole number. *)
Definition to_samples (sample_rate : Qc) (seconds : list Qc) : list Z :=
  (λ t, Qc_trunc (t * sample_rate)%Qc) <$> seconds.

(** the order of Python on pairs of integers *)
Definition tuple_le (x y : Z * Z) : Prop :=
  (x.1 < y.1 ∨ (x.1 = y.1 ∧ x.2 ≤ y.2))%Z.

Global Instance tuple_le_dec : RelDecision tuple_le.
Proof. intros x y. unfold tuple_le. apply _. Defined.

(** [sorted(...)] of such pairs *)
Definition sorted (l : list (Z * Z)) : list (Z * Z) := merge_sort tuple_le l.

(** [np.cumsum] *)
Fixpoint cumsum_from (acc : Z) (l : list Z) : list Z :=
  match l with
  | [] => []
  | x :: l => (acc + x)%Z :: cumsum_from (acc + x)%Z l
  end.
Definition cumsum (l : list Z) : list Z := cumsum_from 0 l.

(** [np.where(a == 0)[0]] *)
Definition where_zero (a : list Z) : list nat :=
  filter (λ i, nth i a 1%Z = 0%Z) (seq 0 (length a)).

(** [changes[:-1]] *)
Definition all_but_last {A} (l : list A) : list A := take (length l - 1) l.

(** Lines 399 to 406: from the sorted change points to the segments. *)
Definition inactive_segments (changepoints : list (Z * Z)) (length : Z)
    : list (Z * Z) :=
  let events := [(0, 0)%Z] ++ changepoints ++ [(length, 0%Z)] in
  let times := events.*1 in
  let changes := events.*2 in
  let num_sources := cumsum (all_but_last changes) in
  let inactive := where_zero num_sources in
  let beginnings := (λ i, nth i times 0%Z) <$> inactive in
  let endings := (λ i, nth (i + 1) times 0%Z) <$> inactive in
  let lengths := zip_with Z.sub endings beginnings in
  zip beginnings lengths.

(** [itertools.chain(beginnings.T, endings.T)] after the two [np.stack] *)
Definition change_events (beginnings endings : list Z) : list (Z * Z) :=
  ((λ b, (b, 1%Z)) <$> beginnings) ++ ((λ e, (e, (-1)%Z)) <$> endings).

Definition seconds_1_5 : Qc := Q2Qc (3 # 2).

(** the two accepted layouts of the table, in seconds *)
Definition call_intervals (df : DataFrame) : result (list Qc * list Qc) :=
  match df !! "Time (s)", df !! "Freq (Hz)" with
  | Some time, Some _ =>
      let beginnings := (λ t, t - seconds_1_5)%Qc <$> time in
      let endings := (λ b, b + seconds_1_5)%Qc <$> beginnings in
      Ok (beginnings, endings)
  | _, _ =>
      match df !! "Begin Time (s)", df !! "End Time (s)" with
      | Some beginnings, Some endings => Ok (beginnings, endings)
      | _, _ => Err ValueError
      end
  end.

(** [read_noise_csv], on the table read from the file *)
Definition read_noise_csv (df : DataFrame) (sample_rate : Qc) (length : Z)
    : result (list (Z * Z)) :=
  '(beginnings, endings) ← call_intervals df;
  let beginnings := to_samples sample_rate beginnings in
  let endings := to_samples sample_rate endings in
  let changepoints := sorted (change_events beginnings endings) in
  Ok (inactive_segments changepoints length).

(** ** Reference definitions used in the statements *)

(** [L / n] whole copies of [data] followed by the first [L mod n] rows of
    it, a row having [row] entries *)
Definition tiled_then_partial (data : list Qc) (n row L : nat) : list Qc :=
  concat (replicate (L `div` n) data) ++ take ((L `mod` n) * row) data.

(** the [L] rows of [a] that start at row [pos] *)
Definition window (a : ndarray) (pos L : nat) : ndarray :=
  Array (arr_dtype a) (L :: tail (arr_shape a))
        (take (L * row_size a) (drop (pos * row_size a) (arr_data a))).

(** The sweep as the specification words it: walk the event points in
    order; [t] is the previous event point and [count] the sum of the
    changes of all event points before the next one; the stretch from [t]
    to the next event point is emitted when [count] is zero. *)
Fixpoint sweep (t count : Z) (events : list (Z * Z)) : list (Z * Z) :=
  match events with
  | [] => []
  | (t', change) :: events =>
      (if decide (count = 0%Z) then [(t, (t' - t)%Z)] else []) ++
      sweep t' (count + change)%Z events
  end.

(** [w1 * x1 + w2 * x2] for two arrays of one shape and Python floats
    [w1], [w2]: the entries are the exact values of the expression the
    code evaluates with rounding. *)
Definition blend_arrays (w1 w2 : Qc) (x1 x2 : ndarray) : ndarray :=
  Array (promote_types
           (mul_pyfloat_dtype (length (arr_shape x1)) (arr_dtype x1))
           (mul_pyfloat_dtype (length (arr_shape x2)) (arr_dtype x2)))
        (arr_shape x1)
        (zip_with (λ o v, w1 * o + w2 * v)%Qc (arr_data x1) (arr_data x2)).

(** 1 for a strictly positive entry, 0 otherwise *)
Definition indicator (x : Qc) : Qc := if decide (0 < x)%Qc then 1%Qc else 0%Qc.

(** an array thresholded entry by entry, with its element type kept *)
Definition thresholded (a : ndarray) : ndarray :=
  Array (arr_dtype a) (arr_shape a) (indicator <$> arr_data a).

(** the fields whose schema entry a stage declares anew *)
Definition schema_keys (d : Dataset) : gset string :=
  match d with
  | FixedSizeExcerpts _ _ _ key | Floatify _ _ key
  | DownmixChannels _ key _ _ => {[ key ]}
  | Leaf _ | MixBackgroundNoise _ _ _ _ _ _ _ _ _ _ | Mixup _ _ _ _ => ∅
  end.

(** the fields a stage is configured to write in the items *)
Definition modified_fields (d : Dataset) : gset string :=
  match d with
  | Leaf _ => ∅
  | FixedSizeExcerpts _ _ _ key | Floatify _ _ key
  | DownmixChannels _ key _ _ => {[ key ]}
  | MixBackgroundNoise _ _ key _ _ _ _ _ _ label_keys => {[ key ]} ∪ label_keys
  | Mixup _ keys binarize_keys _ => keys ∪ binarize_keys
  end.

Definition is_Mixup (d : Dataset) : Prop :=
  match d with Mixup _ _ _ _ => True | _ => False end.

(** the dataset [n] wrapping layers below [d] *)
Fixpoint nth_upstream (n : nat) (d : Dataset) : option Dataset :=
  match n with
  | 0 => Some d
  | S n => u ← upstream d; nth_upstream n u
  end.

(** the sweep over a list of event points that starts with its first *)
Definition sweep_events (events : list (Z * Z)) : list (Z * Z) :=
  match events with
  | [] => []
  | (t, change) :: events => sweep t change events
  end.

(** the index arithmetic of lines 399 to 406, entry by entry *)
Definition pick_segments (times nums : list Z) : list (Z * Z) :=
  (λ i, (nth i times 0, nth (i + 1) times 0 - nth i times 0)%Z)
  <$> where_zero nums.

(** the number of calls active at the sample offset [x]: those begun at
    or before [x] less those ended at or before [x] *)
Definition count_le (l : list Z) (x : Z) : Z :=
  Z.of_nat (length (filter (λ y, y ≤ x)%Z l)).

Definition active_calls (beginnings endings : list Z) (x : Z) : Z :=
  (count_le beginnings x - count_le endings x)%Z.

Definition Z_sum (l : list Z) : Z := foldr Z.add 0%Z l.

(** the sum of the changes of the events at or before [x] *)
Definition net_change (events : list (Z * Z)) (x : Z) : Z :=
  Z_sum ((filter (λ ev, ev.1 ≤ x)%Z events).*2).

(** sorted by sample offset alone *)
Definition offset_le (x y : Z * Z) : Prop := (x.1 ≤ y.1)%Z.

(** the segments of positive length *)
Definition positive_segments (l : list (Z * Z)) : list (Z * Z) :=
  filter (λ s, 0 < s.2)%Z l.

(** ** Data for the examples *)

(** a leaf that holds its items in a list *)
Definition list_dataset (sh : gmap string shape_t)
    (dt : gmap string schema_dtype) (items : list (gmap string value))
    : Dataset :=
  Leaf (Leaf_ sh dt 0 (length items)
              (λ idx, lift (of_option IndexError (items !! idx))) ∅).

(** one-field items over one-dimensional int16 audio *)
Definition audio_item (samples : list Z) : gmap string value :=
  {[ "input" := VArr (arr1 int16 samples) ]}.

Definition audio_dataset (wavs : list (list Z)) : Dataset :=
  list_dataset {[ "input" := [None] ]} {[ "input" := np_dtype int16 ]}
               (audio_item <$> wavs).

(** an interval table in seconds, for a given sample rate *)
Definition interval_table (sample_rate : Qc) (begins ends : list Z)
    : DataFrame :=
  {[ "Begin Time (s)" := (λ x, qz x / sample_rate)%Qc <$> begins;
     "End Time (s)" := (λ x, qz x / sample_rate)%Qc <$> ends ]}.

(** a table of time points *)
Definition point_table (times : list Qc) : DataFrame :=
  {[ "Time (s)" := times; "Freq (Hz)" := (λ _, qz 1000) <$> times ]}.

(** an item with two channels of two samples *)
Definition stereo_item : gmap string value :=
  {[ "input" := VArr (Array float32 [2; 2] (qz <$> [2; 2; 4; 4]%Z)) ]}.

(** one-field items over one-dimensional float32 audio *)
Definition float_item (samples : list Z) : gmap string value :=
  {[ "input" := VArr (arr1 float32 samples) ]}.

Definition float_dataset (wavs : list (list Z)) : Dataset :=
  list_dataset {[ "input" := [None] ]} {[ "input" := np_dtype float32 ]}
               (float_item <$> wavs).

Definition quarter : Qc := Q2Qc (1 # 4).
Definition half : Qc := Q2Qc (1 # 2).

(** items with an identifier, float32 audio and a uint8 k-hot label *)
Definition label_item (itemid : string) (samples label_bg : list Z)
    : gmap string value :=
  {[ "itemid" := VStr itemid;
     "input" := VArr (arr1 float32 samples);
     "label_bg" := VArr (arr1 uint8 label_bg) ]}.

Definition label_dataset : Dataset :=
  list_dataset
    {[ "itemid" := []; "input" := [None]; "label_bg" := [Some 2] ]}
    {[ "itemid" := py_str; "input" := np_dtype float32;
       "label_bg" := np_dtype uint8 ]}
    [label_item "a" [4; 8]%Z [1; 0]%Z; label_item "b" [0; 4]%Z [0; 1]%Z].

(** one-field items over one-dimensional float64 audio *)
Definition double_item (samples : list Z) : gmap string value :=
  {[ "input" := VArr (arr1 float64 samples) ]}.

Definition double_dataset (wavs : list (list Z)) : Dataset :=
  list_dataset {[ "input" := [None] ]} {[ "input" := np_dtype float64 ]}
               (double_item <$> wavs).

(** a leaf on which a custom sampler was set *)
Definition sampled_dataset : Dataset :=
  Leaf (Leaf_ {[ "input" := [None] ]} {[ "input" := np_dtype int16 ]} 0 1
              (λ idx, lift (of_option IndexError
                              ([audio_item [1; 2; 3]%Z] !! idx)))
              {[ "sampler" := PyObject "ClassWeightedRandomSampler" ]}).

(** * Further functions of the module *)

(** ** Exceptions of the remaining code *)

(** The exceptions of [exn] together with those only the functions below
    raise. *)
Inductive exception : Type :=
  | Builtin (e : exn)
  | StopIteration
  | RuntimeError (message : string)
  | NotImplementedError (message : string).

Inductive try (A : Type) : Type :=
  | Returns (a : A)
  | Throws (e : exception).
Arguments Returns {A} a.
Arguments Throws {A} e.

Global Instance try_ret : MRet try := λ A a, Returns a.
Global Instance try_bind : MBind try := λ A B f r,
  match r with Returns a => f a | Throws e => Throws e end.

Definition of_result {A} (r : result A) : try A :=
  match r with Ok a => Returns a | Err e => Throws (Builtin e) end.

(** ** [common_shape] *)

(** one step of the loop: [tuple(a if a == b else None for a, b in
    zip(shape, array.shape))] *)
Definition merge_shape (shape : shape_t) (array_shape : list nat) : shape_t :=
  zip_with (λ a b, if decide (a = Some b) then a else None) shape array_shape.

(** [common_shape(arrays)]; [next] of an exhausted iterator raises
    [StopIteration]. *)
Definition common_shape (arrays : list ndarray) : try shape_t :=
  match arrays with
  | [] => Throws StopIteration
  | first :: arrays =>
      Returns (foldl (λ shape array, merge_shape shape (arr_shape array))
                     (Some <$> arr_shape first) arrays)
  end.

(** an array shape fits a declared shape: the same number of axes, and the
    declared size on every axis that is not a wildcard *)
Definition conforms (declared : shape_t) (shape : list nat) : Prop :=
  Forall2 (λ d n, d = None ∨ d = Some n) declared shape.

(** ** [NoiseDataset] *)

(** a bound of a Python slice over a sequence of length [n] *)
Definition py_slice_bound (n : nat) (i : Z) : nat :=
  if decide (i < 0)%Z then Z.to_nat (Z.max (i + Z.of_nat n) 0)
  else Z.to_nat (Z.min i (Z.of_nat n)).

(** [array[start:stop]] for integers of either sign *)
Definition py_slice (a : ndarray) (start stop : Z) : ndarray :=
  match arr_shape a with
  | [] => a
  | n :: _ => slice0 a (py_slice_bound n start) (py_slice_bound n stop)
  end.

(** the list [segments] the constructor builds *)
Definition noise_segments (wavs : list ndarray)
    (segments_per_wav : option (list (list (Z * Z)))) (min_length : Qc)
    : result (list (ndarray * Z * Z)) :=
  match segments_per_wav with
  | None =>
      mapM (λ wav, n ← np_len wav; Ok (wav, 0%Z, Z.of_nat n)) wavs
  | Some segments_per_wav =>
      Ok ('(wav, segments) ← zip wavs segments_per_wav;
          '(start, length) ← segments;
          if decide (min_length ≤ qz length)%Qc then [(wav, start, length)]
          else [])
  end.

(** [NoiseDataset.__getitem__] over the list of segments *)
Definition NoiseDataset_getitem (segments : list (ndarray * Z * Z))
    (idx : nat) : py (gmap string value) :=
  '(wav, start, length) ← lift (of_option IndexError (segments !! idx));
  mret {[ "input" := VArr (py_slice wav start (start + length)) ]}.

(** [NoiseDataset(wavs, segments_per_wav, min_length)] *)
Definition NoiseDataset (wavs : list ndarray)
    (segments_per_wav : option (list (list (Z * Z)))) (min_length : Qc)
    : try Dataset :=
  shape ← common_shape wavs;
  first ← of_result (of_option IndexError (wavs !! 0));
  segments ← of_result (noise_segments wavs segments_per_wav min_length);
  Returns (Leaf (Leaf_ {[ "input" := shape ]}
                       {[ "input" := np_dtype (arr_dtype first) ]}
                       0 (length segments)
                       (NoiseDataset_getitem segments)
                       {[ "segments" := PyObject "list" ]})).

(** a two-channel item of int16 audio *)
Definition integer_stereo_item : gmap string value :=
  {[ "input" := VArr (Array int16 [2; 2] (qz <$> [2; 2; 4; 4]%Z)) ]}.

(** ** [make_multilabel_target] *)

(** [make_multilabel_target(num_classes, classes)] for a list [classes] of
    Python integers.  The assignment [target[classes] = 1] wraps negative
    indices and raises [IndexError] on an index out of range before it
    writes anything. *)
Definition make_multilabel_target (num_classes : nat) (classes : list Z)
    : result ndarray :=
  idxs ← mapM (py_index num_classes) classes;
  Ok (Array uint8 [num_classes]
            (foldl (λ target i, <[i := 1%Qc]> target)
                   (replicate num_classes 0%Qc) idxs)).

(** ** [derive_labelset] *)

(** [dict(zip(keys, values))] on the pairs: a later pair replaces an earlier
    one of the same key. *)
Definition dict_of_pairs {A} (pairs : list (string * A)) : gmap string A :=
  foldl (λ d kv, <[kv.1 := kv.2]> d) ∅ pairs.

(** [sorted(set(names))]; Python orders strings by code points, which is
    the byte order of their UTF-8 encoding. *)
Definition sorted_set (names : list string) : list string :=
  merge_sort String.le (elements (list_to_set names : gset string)).

(** [derive_labelset(train_csv)], on the columns [primary_label] and
    [ebird_code] of the table, row by row *)
Definition derive_labelset (train_csv : list (string * string))
    : try (list string) :=
  let labelset_latin := sorted_set train_csv.*1 in
  let latin_to_ebird := dict_of_pairs train_csv in
  labelset_ebird ←
    of_result (mapM (λ latin, of_option KeyError (latin_to_ebird !! latin))
                    labelset_latin);
  if decide (base.size (list_to_set labelset_ebird : gset string)
             ≠ length labelset_ebird)
  then Throws (RuntimeError "Inconsistent latin names in train.csv!")
  else Returns labelset_ebird.

(** [(key, value)] is the last row of key [key] *)
Definition last_row {A} (rows : list (string * A)) (key : string) (value : A)
    : Prop :=
  ∃ before after, rows = before ++ (key, value) :: after ∧ key ∉ after.*1.

(** ** The label tables of [create] *)

(** [{ebird: idx for idx, ebird in enumerate(labelset_ebird)}] *)
Definition ebird_to_idx (labelset_ebird : list string) : gmap string nat :=
  dict_of_pairs (imap (λ idx ebird, (ebird, idx)) labelset_ebird).

(** [{latin: ebird_to_idx[ebird] for latin, ebird in
    latin_to_ebird.items()}] *)
Definition latin_to_idx (ebird_to_idx : gmap string nat)
    (latin_to_ebird : gmap string string) : result (gmap string nat) :=
  if decide (map_Forall (λ _ ebird, is_Some (ebird_to_idx !! ebird))
                        latin_to_ebird)
  then Ok (omap (λ ebird, ebird_to_idx !! ebird) latin_to_ebird)
  else Err KeyError.

(** one entry of the column [label_fg]: [latin_to_idx[latin]] *)
Definition label_fg (latin_to_idx : gmap string nat) (latin : string)
    : result nat :=
  of_option KeyError (latin_to_idx !! latin).

(** One entry of the column [label_bg], [labels] being the list that
    [eval] makes of the row's [secondary_labels]:
    [make_multilabel_target(num_classes, [latin_to_idx[latin] for latin in
    labels if latin_to_idx.get(latin, fg) != fg])] *)
Definition label_bg (num_classes : nat) (latin_to_idx : gmap string nat)
    (labels : list string) (fg : nat) : result ndarray :=
  classes ← mapM (λ latin, of_option KeyError (latin_to_idx !! latin))
                 (filter (λ latin, default fg (latin_to_idx !! latin) ≠ fg)
                         labels);
  make_multilabel_target num_classes (Z.of_nat <$> classes).

(** ** [BirdcallDataset] *)

(** The annotation columns the constructor looks for, in the order of its
    four tests, with the shape and the element type it declares for
    each. *)
Definition annotation_schema (num_classes : nat)
    : list (string * (shape_t * schema_dtype)) :=
  [("label_fg", ([], np_dtype uint8));
   ("label_bg", ([Some num_classes], np_dtype uint8));
   ("label_all", ([Some num_classes], np_dtype float32));
   ("rating", ([], np_dtype float32))].

(** those of them that [annotations] has; [annotations] is [None] or a
    table given by its columns *)
Definition declared_annotations (num_classes : nat)
    (annotations : option (gmap string (list value)))
    : list (string * (shape_t * schema_dtype)) :=
  match annotations with
  | None => []
  | Some columns =>
      filter (λ entry, is_Some (columns !! entry.1))
             (annotation_schema num_classes)
  end.

(** The loop of [__getitem__] over the keys of [self.shapes]: a key the
    item lacks is read from [self.annotations[key][idx]]. *)
Fixpoint add_annotations (keys : list string)
    (annotations : option (gmap string (list value))) (idx : nat)
    (item : gmap string value) : result (gmap string value) :=
  match keys with
  | [] => Ok item
  | key :: keys =>
      if decide (is_Some (item !! key)) then
        add_annotations keys annotations idx item
      else
        columns ← of_option TypeError annotations;
        column ← of_option KeyError (columns !! key);
        v ← of_option IndexError (column !! idx);
        add_annotations keys annotations idx (<[key := v]> item)
  end.

(** [BirdcallDataset.__getitem__], [keys] being the keys of [self.shapes]
    in their order *)
Definition BirdcallDataset_getitem (itemids : list string)
    (wavs : list ndarray) (keys : list string)
    (annotations : option (gmap string (list value))) (idx : nat)
    : py (gmap string value) :=
  itemid ← lift (of_option IndexError (itemids !! idx));
  wav ← lift (of_option IndexError (wavs !! idx));
  lift (add_annotations keys annotations idx
          (<["input" := VArr wav]> {[ "itemid" := VStr itemid ]})).

(** [BirdcallDataset(itemids, wavs, labelset, annotations)] *)
Definition BirdcallDataset (itemids : list string) (wavs : list ndarray)
    (labelset : list string)
    (annotations : option (gmap string (list value))) : try Dataset :=
  shape ← common_shape wavs;
  first ← of_result (of_option IndexError (wavs !! 0));
  let num_classes := length labelset in
  let declared := declared_annotations num_classes annotations in
  Returns (Leaf (Leaf_
    (foldl (λ shapes entry, <[entry.1 := entry.2.1]> shapes)
           (<["itemid" := []]> {[ "input" := shape ]}) declared)
    (foldl (λ dtypes entry, <[entry.1 := entry.2.2]> dtypes)
           (<["itemid" := py_str]> {[ "input" := np_dtype (arr_dtype first) ]})
           declared)
    num_classes (length itemids)
    (BirdcallDataset_getitem itemids wavs
       (["input"; "itemid"] ++ declared.*1) annotations)
    {[ "itemids" := PyObject "object"; "wavs" := PyObject "object";
       "labelset" := PyObject "object";
       "annotations" := PyObject "object" ]})).

(** ** The pipeline [create] assembles *)

(** [s.split(',')] *)
Fixpoint split_comma (s : string) : list string :=
  match s with
  | EmptyString => [""]
  | String c rest =>
      if decide (String c "" = ",") then "" :: split_comma rest
      else match split_comma rest with
           | first :: others => String c first :: others
           | [] => [String c ""]
           end
  end.

(** The entries of [cfg] that [create] reads once the leaf dataset is
    built, a field [data_x_y] standing for [cfg['data.x.y']]; numbers are
    rationals. *)
Record config : Type := Config {
  data_len_min : Qc;
  data_len_max : Qc;
  data_downmix : string;
  data_mix_background_noise_probability : Qc;
  data_mix_background_noise_noise_only_probability : Qc;
  data_mix_background_noise_min_factor : Qc;
  data_mix_background_noise_max_factor : Qc;
  data_mix_background_noise_min_amp : Qc;
  data_mix_background_noise_max_amp : Qc;
  data_mix_background_noise_noise_only_zero_labels : string;
  data_mix_synthetic_noise_probability : Qc;
  data_mix_synthetic_noise_min_factor : Qc;
  data_mix_synthetic_noise_max_factor : Qc;
  data_mixup_apply_to : string;
  data_mixup_binarize : string;
  data_mixup_alpha : Qc
}.

(** A constructor call: it raises what the computation of the schema
    raises. *)
Definition construct (d : Dataset) : try Dataset :=
  match shapes d with
  | Ok _ => Returns d
  | Err e => Throws (Builtin e)
  end.

(** [int(sample_rate * cfg['data.len_min'])], of the exact product as in
    [to_samples]; lengths are natural numbers here, so a configuration
    with a negative [data.len_min] is outside this model. *)
Definition excerpt_length (cfg : config) (sample_rate : nat) : nat :=
  Z.to_nat (Qc_trunc (qz (Z.of_nat sample_rate) * data_len_min cfg)).

(** The part of [create] that wraps the leaf [dataset] in the stages of
    the pipeline.  [create_noise_dataset] and
    [create_synthetic_noise_dataset] stand for the outcome of the calls of
    these names, which [create] makes only in the branches that use them. *)
Definition create_pipeline (cfg : config) (designation : string)
    (sample_rate : nat) (dataset : Dataset)
    (create_noise_dataset create_synthetic_noise_dataset : try Dataset)
    : try Dataset :=
  let length := excerpt_length cfg sample_rate in
  dataset ←
    (if decide (data_len_min cfg < data_len_max cfg)%Qc then
       Throws (NotImplementedError "data.len_min < data.len_max not allowed yet")
     else if decide (0 < data_len_max cfg)%Qc then
       construct (FixedSizeExcerpts dataset length
                    (bool_decide (designation ≠ "train")) "input")
     else Returns dataset);
  dataset ← construct (Floatify dataset true "input");
  dataset ←
    (if decide (designation = "train"
                ∧ (data_mix_background_noise_probability cfg ≠ 0%Qc
                   ∨ data_mix_background_noise_noise_only_probability cfg
                     ≠ 0%Qc))
     then
       noisedataset ← create_noise_dataset;
       noisedataset ←
         construct (FixedSizeExcerpts noisedataset length false "input");
       noisedataset ← construct (Floatify noisedataset true "input");
       construct
         (MixBackgroundNoise dataset noisedataset "input"
            (data_mix_background_noise_probability cfg)
            (data_mix_background_noise_min_factor cfg)
            (data_mix_background_noise_max_factor cfg)
            (data_mix_background_noise_min_amp cfg)
            (data_mix_background_noise_max_amp cfg)
            (data_mix_background_noise_noise_only_probability cfg)
            (list_to_set
               (split_comma
                  (data_mix_background_noise_noise_only_zero_labels cfg))))
     else Returns dataset);
  dataset ←
    (if decide (data_downmix cfg ≠ "none") then
       construct (DownmixChannels dataset "input" 0
                    (if decide (designation = "train") then data_downmix cfg
                     else "average"))
     else Returns dataset);
  dataset ←
    (if decide (designation = "train"
                ∧ data_mix_synthetic_noise_probability cfg ≠ 0%Qc)
     then
       noisedataset ← create_synthetic_noise_dataset;
       noisedataset ←
         construct (FixedSizeExcerpts noisedataset length false "input");
       noisedataset ← construct (Floatify noisedataset true "input");
       construct
         (MixBackgroundNoise dataset noisedataset "input"
            (data_mix_synthetic_noise_probability cfg)
            (data_mix_synthetic_noise_min_factor cfg)
            (data_mix_synthetic_noise_max_factor cfg)
            0%Qc 0%Qc 0%Qc ∅)
     else Returns dataset);
  if decide (designation = "train" ∧ data_mixup_apply_to cfg ≠ "") then
    construct
      (Mixup dataset (list_to_set (split_comma (data_mixup_apply_to cfg)))
             (if decide (data_mixup_binarize cfg ≠ "")
              then list_to_set (split_comma (data_mixup_binarize cfg))
              else ∅)
             (data_mixup_alpha cfg))
  else Returns dataset.

(** an access that makes no random draw: it is the same on every tape *)
Definition draw_free {A} (m : py A) : Prop := ∃ r, ∀ t, m t = lift r t.

(** a configuration of the evaluation pipeline: excerpts of one second,
    averaged channels *)
Definition evaluation_config : config :=
  Config 1%Qc 1%Qc "random_uniform" 1%Qc half quarter half 0%Qc 0%Qc ""
         0%Qc 0%Qc half "input" "" half.

(** a training configuration that replaces every item by noise and names
    no label to zero *)
Definition noise_only_config : config :=
  Config 1%Qc 1%Qc "none" 0%Qc 1%Qc 0%Qc half 0%Qc 0%Qc ""
         0%Qc 0%Qc half "" "" half.

(** ** [create_noise_dataset] *)

(** [create_noise_dataset], on what it reads from disk: the audio of every
    noise file and, where the file has a [.csv] beside it, the table of
    that file.  [sample_rate] is [cfg['data.sample_rate']] and [len_min]
    is [cfg['data.len_min']]. *)
Definition create_noise_dataset (audios : list ndarray)
    (tables : list (option DataFrame)) (sample_rate : nat) (len_min : Qc)
    : try Dataset :=
  segments ←
    of_result
      (mapM (λ '(table, wav),
               n ← np_len wav;
               match table with
               | Some df =>
                   read_noise_csv df (qz (Z.of_nat sample_rate)) (Z.of_nat n)
               | None => Ok [(0%Z, Z.of_nat n)]
               end)
            (zip tables audios));
  NoiseDataset audios (Some segments) (qz (Z.of_nat sample_rate) * len_min).

(** row [fg] of [np.eye(num_classes, dtype=np.float32)] *)
Definition eye_row (num_classes fg : nat) : result ndarray :=
  if decide (fg < num_classes) then
    Ok (Array float32 [num_classes]
              ((λ i, if decide (i = fg) then 1%Qc else 0%Qc)
               <$> seq 0 num_classes))
  else Err IndexError.

(** one row of [weight_fg * label_fg_onehot + weight_bg * label_bg], for
    weights that are Python floats *)
Definition label_all_row (weight_fg weight_bg : Qc) (num_classes fg : nat)
    (bg : ndarray) : result ndarray :=
  onehot ← eye_row num_classes fg;
  np_add (np_scale weight_fg onehot) (np_scale weight_bg bg).

(** The column [label_all]: [list(weight_fg * np.eye(num_classes,
    dtype=np.float32)[label_fg] + weight_bg * np.stack(label_bg))];
    [np.stack] raises [ValueError] when there is no row. *)
Definition label_all (weight_fg weight_bg : Qc) (num_classes : nat)
    (label_fg : list nat) (label_bg : list ndarray) : result (list ndarray) :=
  rows ← mapM (λ '(fg, bg), onehot ← eye_row num_classes fg; Ok (onehot, bg))
              (zip label_fg label_bg);
  if decide (label_bg = []) then Err ValueError
  else mapM (λ '(onehot, bg),
               np_add (np_scale weight_fg onehot) (np_scale weight_bg bg))
            rows.

(** * Proofs *)

Ltac by_compute := apply (bool_decide_eq_true_1 _); vm_compute; reflexivity.
Ltac by_compute_neq :=
  apply (bool_decide_eq_false_1 _); vm_compute; reflexivity.

(** ** Running a computation *)

Lemma run_bind {A B} (m : py A) (f : A → py B) t a t' :
  m t = Done a t' → (m ≫= f) t = f a t'.
Proof. intros H. unfold mbind, py_bind. by rewrite H. Qed.

Lemma run_lift_ok {A} (r : result A) a t : r = Ok a → lift r t = Done a t.
Proof. by intros ->. Qed.

Lemma run_bind_inv {A B} (m : py A) (f : A → py B) t b t' :
  (m ≫= f) t = Done b t' → ∃ a t1, m t = Done a t1 ∧ f a t1 = Done b t'.
Proof.
  unfold mbind, py_bind. destruct (m t) as [a t1| |]; [eauto|done|done].
Qed.

Lemma run_lift_inv {A} (r : result A) a t t' :
  lift r t = Done a t' → r = Ok a ∧ t' = t.
Proof. destruct r; simpl; intros H; by simplify_eq. Qed.

Lemma randint_inv high n t t' :
  randint high t = Done n t' → n < high ∧ t = randint_draw n :: t'.
Proof.
  unfold randint. destruct (decide (high = 0)); [done|].
  destruct t as [|[m| | |] t0]; try done.
  destruct (decide (m < high)); [|done]. intros H. by simplify_eq.
Qed.

Lemma randint_run high n t : n < high → randint high (randint_draw n :: t) = Done n t.
Proof.
  intros H. unfold randint. rewrite decide_False by lia. by rewrite decide_True.
Qed.

(** ** [loop] *)

Lemma concat_replicate_length {A} (l : list A) k :
  length (concat (replicate k l)) = k * length l.
Proof. induction k as [|k IH]; simpl; [done|]. rewrite length_app, IH. lia. Qed.

Lemma loop_shorter a L n rest :
  arr_shape a = n :: rest → wf_array a → n < L →
  loop a L =
  Ok (Array (arr_dtype a) (L :: rest)
        (if decide (n = 0) then replicate (L * prod_list rest) 0%Qc
         else tiled_then_partial (arr_data a) n (prod_list rest) L)).
Proof.
  intros Hs Hwf Hn. unfold loop, np_len. rewrite Hs. simpl.
  rewrite decide_True by done.
  destruct (decide (n = 0)) as [->|Hn0].
  { unfold np_zeros. simpl. done. }
  assert (Hlen : length (arr_data a) = n * prod_list rest).
  { unfold wf_array, size in Hwf. rewrite Hs in Hwf. done. }
  assert (Hdm := Nat.div_mod_eq L n).
  assert (Hmod : L `mod` n < n) by (apply Nat.mod_upper_bound; done).
  assert (Hf : 1 ≤ L `div` n) by (apply Nat.div_le_lower_bound; lia).
  assert (Hqn : n ≤ L `div` n * n) by nia.
  unfold tiled_then_partial.
  destruct (decide (1 < L `div` n)) as [Hf1|Hf1].
  - unfold np_tile0. rewrite Hs. simpl.
    replace (L - L `div` n * n) with (L `mod` n) by lia.
    destruct (decide (L `mod` n ≠ 0)) as [Hm|Hm].
    + unfold np_concatenate0, slice0. simpl. do 2 f_equal.
      * f_equal. lia.
      * f_equal. rewrite drop_0.
        replace ((L `mod` n) `min` (L `div` n * n) - 0) with (L `mod` n) by lia.
        destruct (L `div` n) as [|k]; [lia|]. simpl.
        rewrite take_app_le; [done|]. rewrite Hlen. nia.
    + replace (L `mod` n) with 0 by lia. simpl. rewrite app_nil_r.
      do 2 f_equal. f_equal. lia.
  - assert (L `div` n = 1) as Hone by lia. rewrite Hone in *. rewrite Hs. simpl.
    replace (L - n) with (L `mod` n) by lia.
    rewrite app_nil_r.
    destruct (decide (L `mod` n ≠ 0)) as [Hm|Hm].
    + unfold np_concatenate0, slice0. rewrite Hs. simpl. do 2 f_equal.
      * f_equal. lia.
      * f_equal. rewrite drop_0. f_equal. lia.
    + replace (L `mod` n) with 0 in * by lia. lia.
Qed.

Lemma concat_replicate_lookup {A} (l : list A) k i :
  i < k * length l → concat (replicate k l) !! i = l !! (i `mod` length l).
Proof.
  revert i. induction k as [|k IH]; intros i Hi; [lia|]. simpl.
  destruct (decide (i < length l)) as [Hlt|Hge].
  - rewrite lookup_app_l by done. by rewrite Nat.mod_small.
  - rewrite lookup_app_r by lia. rewrite IH by lia.
    assert (length l ≠ 0) by lia.
    f_equal. replace i with ((i - length l) + 1 * length l) at 2 by lia.
    by rewrite Nat.Div0.mod_add.
Qed.

Lemma tiled_then_partial_length data n row L :
  length data = n * row → n ≠ 0 →
  length (tiled_then_partial data n row L) = L * row.
Proof.
  intros Hlen Hn. unfold tiled_then_partial.
  rewrite length_app, concat_replicate_length, length_take, Hlen.
  assert (Hdm := Nat.div_mod_eq L n).
  assert (Hmod : L `mod` n < n) by (apply Nat.mod_upper_bound; done).
  nia.
Qed.

Lemma tiled_then_partial_lookup data n row L i :
  length data = n * row → n ≠ 0 → i < L * row →
  tiled_then_partial data n row L !! i = data !! (i `mod` (n * row)).
Proof.
  intros Hlen Hn Hi. unfold tiled_then_partial.
  assert (Hdm := Nat.div_mod_eq L n).
  assert (Hmod : L `mod` n < n) by (apply Nat.mod_upper_bound; done).
  destruct (decide (i < L `div` n * length data)) as [Hlt|Hge].
  - rewrite lookup_app_l by (by rewrite concat_replicate_length).
    rewrite concat_replicate_lookup by done. by rewrite Hlen.
  - rewrite lookup_app_r by (rewrite concat_replicate_length; lia).
    rewrite concat_replicate_length.
    assert (i - L `div` n * length data < (L `mod` n) * row) by (rewrite Hlen in *; nia).
    rewrite lookup_take_lt by done.
    f_equal. rewrite <- Hlen.
    replace i with ((i - L `div` n * length data) + L `div` n * length data) at 2 by lia.
    rewrite Nat.Div0.mod_add. rewrite Nat.mod_small; [done|]. rewrite Hlen in *. nia.
Qed.

(** ** [crop] *)

Lemma slice0_window a l rest pos L :
  arr_shape a = l :: rest → pos + L ≤ l →
  slice0 a pos (pos + L) = window a pos L.
Proof.
  intros Hs Hle. unfold slice0, window, row_size. rewrite Hs. simpl.
  replace (((pos + L) `min` l)) with (pos + L) by lia.
  replace (pos `min` (pos + L)) with pos by lia.
  by replace (pos + L - pos) with L by lia.
Qed.

Lemma center_bounds l L :
  L < l → (l + L) `div` 2 = (l - L) `div` 2 + L ∧ (l - L) `div` 2 + L ≤ l.
Proof.
  intros Hl. replace (l + L) with ((l - L) + L * 2) by lia.
  rewrite Nat.div_add by done. split; [done|].
  assert ((l - L) `div` 2 ≤ l - L) by (apply Nat.Div0.div_le_upper_bound; lia).
  lia.
Qed.

Lemma np_len_shape a l rest : arr_shape a = l :: rest → np_len a = Ok l.
Proof. unfold np_len. by intros ->. Qed.

Lemma crop_longer a l rest L det t :
  arr_shape a = l :: rest → L < l →
  crop a L det t =
  (if negb det then
     pos ← randint (l - L + 1); mret (slice0 a pos (pos + L))
   else mret (slice0 a ((l - L) `div` 2) ((l + L) `div` 2))) t.
Proof.
  intros Hs Hl. unfold crop.
  rewrite (run_bind _ _ t l t) by (by apply run_lift_ok, (np_len_shape _ _ rest)).
  by rewrite decide_True.
Qed.

Lemma crop_deterministic a l rest L t :
  arr_shape a = l :: rest → L < l →
  crop a L true t = Done (window a ((l - L) `div` 2) L) t.
Proof.
  intros Hs Hl. rewrite (crop_longer a l rest) by done.
  cbn [negb]. unfold mret, py_ret.
  destruct (center_bounds l L Hl) as [-> Hle].
  by rewrite (slice0_window a l rest).
Qed.

Lemma crop_random a l rest L pos t :
  arr_shape a = l :: rest → L < l → pos ≤ l - L →
  crop a L false (randint_draw pos :: t) = Done (window a pos L) t.
Proof.
  intros Hs Hl Hp. rewrite (crop_longer a l rest) by done.
  cbn [negb]. rewrite (run_bind _ _ _ pos t) by (apply randint_run; lia).
  unfold mret, py_ret.
  rewrite (slice0_window a l rest); [done..|lia].
Qed.

Lemma crop_random_inv a l rest L t a' t' :
  arr_shape a = l :: rest → L < l →
  crop a L false t = Done a' t' →
  ∃ pos, pos ≤ l - L ∧ t = randint_draw pos :: t' ∧ a' = window a pos L.
Proof.
  intros Hs Hl. rewrite (crop_longer a l rest) by done. cbn [negb].
  intros H. apply run_bind_inv in H as (pos & t1 & Hr & H).
  apply randint_inv in Hr as [Hpos ->]. unfold mret, py_ret in H.
  simplify_eq. exists pos. split; [lia|]. split; [done|].
  apply (slice0_window a l rest); [done|lia].
Qed.

(** ** [FixedSizeExcerpts] *)

Lemma FixedSizeExcerpts_getitem u L det key idx t item t1 data n :
  getitem u idx t = Done item t1 →
  item !! key = Some data → len_value data = Ok n →
  getitem (FixedSizeExcerpts u L det key) idx t =
  ((if decide (n < L) then lift (loop_value data L)
    else if decide (L < n) then crop_value data L det else mret data)
   ≫= λ data', mret (<[key := data']> item)) t1.
Proof.
  intros Hu Hk Hn. simpl. rewrite (run_bind _ _ _ _ _ Hu).
  unfold get_field. rewrite Hk. simpl.
  unfold mbind at 1, py_bind at 1. simpl.
  rewrite Hn. simpl. done.
Qed.

(** C4: when the field is shorter than the target length [L], the stage
    returns the item with the field looped along its first axis: [L / n]
    whole copies of the source followed by its first [L mod n] rows, so
    that entry [i] of the output is entry [i mod len] of the source and the
    first axis has exactly [L] rows; an empty source gives [L] rows of
    zeros of the source element type.  The access returns normally.  The
    source [1,2,3] looped to 7 rows is [1,2,3,1,2,3,1]. *)
Theorem C4_loop_shorter_source u L det key idx t t' item a n rest :
  getitem u idx t = Done item t' →
  item !! key = Some (VArr a) →
  arr_shape a = n :: rest → wf_array a → n < L →
  let out :=
    Array (arr_dtype a) (L :: rest)
          (if decide (n = 0) then replicate (L * prod_list rest) 0%Qc
           else tiled_then_partial (arr_data a) n (prod_list rest) L) in
  getitem (FixedSizeExcerpts u L det key) idx t
    = Done (<[key := VArr out]> item) t'
  ∧ wf_array out
  ∧ (n ≠ 0 → ∀ i, i < L * prod_list rest →
       arr_data out !! i = arr_data a !! (i `mod` (n * prod_list rest)))
  ∧ loop (arr1 int16 [1; 2; 3]%Z) 7
    = Ok (arr1 int16 [1; 2; 3; 1; 2; 3; 1]%Z).
Proof.
  intros Hu Hk Hs Hwf Hn out.
  assert (Hlen : length (arr_data a) = n * prod_list rest).
  { unfold wf_array, size in Hwf. by rewrite Hs in Hwf. }
  split; [|split; [|split]].
  - rewrite (FixedSizeExcerpts_getitem u L det key idx t item t' (VArr a) n);
      [|done|done|by apply (np_len_shape _ _ rest)].
    rewrite decide_True by done. simpl.
    rewrite (loop_shorter a L n rest) by done. done.
  - unfold wf_array, size, out. simpl. case_decide.
    + by rewrite length_replicate.
    + by apply tiled_then_partial_length.
  - intros Hn0 i Hi. unfold out. simpl. rewrite decide_False by done.
    by apply tiled_then_partial_lookup.
  - reflexivity.
Qed.

Lemma C4_witness :
  getitem (FixedSizeExcerpts (audio_dataset [[1; 2; 3]%Z]) 7 false "input") 0 []
  = Done (audio_item [1; 2; 3; 1; 2; 3; 1]%Z) [].
Proof.
  pose proof (C4_loop_shorter_source (audio_dataset [[1; 2; 3]%Z]) 7 false
    "input" 0 [] [] (audio_item [1; 2; 3]%Z) (arr1 int16 [1; 2; 3]%Z) 3 [])
    as H.
  destruct H as [H _]; [reflexivity|reflexivity|reflexivity|reflexivity|lia|].
  rewrite H. by_compute.
Defined.

(** C5: when the field has more rows than the target length [L], the
    deterministic stage returns the [L] rows that start at row
    [(len - L) / 2] (rounded down); the random stage returns the [L] rows
    that start at the drawn offset, every offset from 0 to [len - L] gives
    its window and no run returns anything else; a field of exactly [L]
    rows is returned as it is.  The source [0,1,2,3,4,5] cropped to 4 rows
    deterministically is [1,2,3,4]. *)
Theorem C5_crop_longer_source u L key idx t t1 item a l rest :
  getitem u idx t = Done item t1 →
  item !! key = Some (VArr a) →
  arr_shape a = l :: rest →
  (L < l →
     getitem (FixedSizeExcerpts u L true key) idx t
     = Done (<[key := VArr (window a ((l - L) `div` 2) L)]> item) t1)
  ∧ (L < l → ∀ pos t2, pos ≤ l - L → t1 = randint_draw pos :: t2 →
     getitem (FixedSizeExcerpts u L false key) idx t
     = Done (<[key := VArr (window a pos L)]> item) t2)
  ∧ (L < l → ∀ item' t2,
     getitem (FixedSizeExcerpts u L false key) idx t = Done item' t2 →
     ∃ pos, pos ≤ l - L ∧ t1 = randint_draw pos :: t2
            ∧ item' = <[key := VArr (window a pos L)]> item)
  ∧ (l = L → ∀ det,
     getitem (FixedSizeExcerpts u L det key) idx t = Done item t1)
  ∧ crop (arr1 int16 [0; 1; 2; 3; 4; 5]%Z) 4 true []
    = Done (arr1 int16 [1; 2; 3; 4]%Z) [].
Proof.
  intros Hu Hk Hs.
  assert (Hget : ∀ det, getitem (FixedSizeExcerpts u L det key) idx t =
    ((if decide (l < L) then lift (loop_value (VArr a) L)
      else if decide (L < l) then crop_value (VArr a) L det
           else mret (VArr a))
     ≫= λ data', mret (<[key := data']> item)) t1).
  { intros det. apply FixedSizeExcerpts_getitem; [done..|].
    by apply (np_len_shape _ _ rest). }
  split; [|split; [|split; [|split]]].
  - intros Hl. rewrite Hget, decide_False, decide_True by lia.
    cbn [crop_value].
    rewrite (run_bind _ _ t1 (VArr (window a ((l - L) `div` 2) L)) t1); [done|].
    by rewrite (run_bind _ _ _ _ _ (crop_deterministic a l rest L t1 Hs Hl)).
  - intros Hl pos t2 Hpos ->. rewrite Hget, decide_False, decide_True by lia.
    cbn [crop_value].
    rewrite (run_bind _ _ _ (VArr (window a pos L)) t2); [done|].
    by rewrite (run_bind _ _ _ _ _ (crop_random a l rest L pos t2 Hs Hl Hpos)).
  - intros Hl item' t2. rewrite Hget, decide_False, decide_True by lia.
    cbn [crop_value]. intros H.
    apply run_bind_inv in H as (v & t3 & H & Hret).
    apply run_bind_inv in H as (a' & t4 & H & Hret').
    apply (crop_random_inv a l rest) in H as (pos & Hpos & -> & ->); [|done..].
    unfold mret, py_ret in *. simplify_eq. by exists pos.
  - intros -> det. rewrite Hget, !decide_False by lia.
    unfold mbind, py_bind, mret, py_ret. by rewrite insert_id.
  - reflexivity.
Qed.

Lemma C5_witness :
  getitem (FixedSizeExcerpts (audio_dataset [[0; 1; 2; 3; 4; 5]%Z]) 4 true
                             "input") 0 []
  = Done (audio_item [1; 2; 3; 4]%Z) [].
Proof.
  pose proof (C5_crop_longer_source (audio_dataset [[0; 1; 2; 3; 4; 5]%Z]) 4
    "input" 0 [] [] (audio_item [0; 1; 2; 3; 4; 5]%Z)
    (arr1 int16 [0; 1; 2; 3; 4; 5]%Z) 6 []) as H.
  destruct H as [H _]; [reflexivity|reflexivity|reflexivity|].
  rewrite H by lia. by_compute.
Defined.

(** ** The segment detector *)

Global Instance tuple_le_trans : Transitive tuple_le.
Proof. intros x y z. unfold tuple_le. lia. Qed.

Global Instance tuple_le_total : Total tuple_le.
Proof. intros x y. unfold tuple_le. lia. Qed.

Global Instance tuple_le_antisymm : AntiSymm (=) tuple_le.
Proof.
  intros [x1 x2] [y1 y2]. unfold tuple_le. simpl. intros ? ?.
  f_equal; lia.
Qed.

Global Instance offset_le_trans : Transitive offset_le.
Proof. intros x y z. unfold offset_le. lia. Qed.

Lemma tuple_le_offset_le x y : tuple_le x y → offset_le x y.
Proof. unfold tuple_le, offset_le. lia. Qed.

Lemma sorted_Permutation l : sorted l ≡ₚ l.
Proof. apply merge_sort_Permutation. Qed.

Lemma sorted_StronglySorted l : StronglySorted tuple_le (sorted l).
Proof. apply StronglySorted_merge_sort; apply _. Qed.

Lemma StronglySorted_weaken {A} (R1 R2 : relation A) l :
  (∀ x y, R1 x y → R2 x y) → StronglySorted R1 l → StronglySorted R2 l.
Proof.
  intros HR. induction 1 as [|x l Hl IH Hx]; constructor; [done|].
  eapply Forall_impl; [exact Hx|]. intros y. apply HR.
Qed.

(** Python's [sorted] is determined by its specification: every sorted
    permutation of the input is the list [sorted] returns. *)
Lemma sorted_unique l l' :
  l' ≡ₚ l → StronglySorted tuple_le l' → l' = sorted l.
Proof.
  intros Hp Hs. apply (StronglySorted_unique tuple_le); [done| |].
  - apply sorted_StronglySorted.
  - by rewrite sorted_Permutation.
Qed.

Lemma sorted_proper l l' : l ≡ₚ l' → sorted l = sorted l'.
Proof.
  intros Hp. apply sorted_unique; [|apply sorted_StronglySorted].
  by rewrite sorted_Permutation.
Qed.

Lemma zip_fmap_sub {A} (f g : A → Z) (l : list A) :
  zip (f <$> l) (zip_with Z.sub (g <$> l) (f <$> l))
  = (λ i, (f i, g i - f i)%Z) <$> l.
Proof. induction l as [|x l IH]; simpl; [done|]. f_equal. exact IH. Qed.

Lemma inactive_segments_pick cps L :
  inactive_segments cps L =
  pick_segments (([(0, 0)%Z] ++ cps ++ [(L, 0%Z)]).*1)
                (cumsum (all_but_last (([(0, 0)%Z] ++ cps ++ [(L, 0%Z)]).*2))).
Proof. unfold inactive_segments, pick_segments. apply zip_fmap_sub. Qed.

Lemma filter_fmap_S (P : nat → Prop) `{∀ i, Decision (P i)} (l : list nat) :
  filter P (S <$> l) = S <$> filter (λ i, P (S i)) l.
Proof.
  induction l as [|i l IH]; [done|].
  rewrite fmap_cons, !filter_cons, IH. by case_decide.
Qed.

Lemma pick_segments_cons t times x nums :
  pick_segments (t :: times) (x :: nums) =
  (if decide (x = 0%Z) then [(t, (nth 0 times 0 - t)%Z)] else []) ++
  pick_segments times nums.
Proof.
  unfold pick_segments, where_zero. simpl length. simpl seq.
  rewrite filter_cons.
  assert (Hshift : filter (λ i, nth i (x :: nums) 1%Z = 0%Z) (seq 1 (length nums))
                   = S <$> filter (λ i, nth i nums 1%Z = 0%Z) (seq 0 (length nums))).
  { rewrite <- fmap_S_seq. by rewrite filter_fmap_S. }
  rewrite Hshift. change (nth 0 (x :: nums) 1%Z) with x.
  assert (Htl : (λ i, (nth i (t :: times) 0, nth (i + 1) (t :: times) 0
                                  - nth i (t :: times) 0)%Z)
                <$> (S <$> filter (λ i, nth i nums 1%Z = 0%Z)
                                  (seq 0 (length nums)))
                = (λ i, (nth i times 0, nth (i + 1) times 0 - nth i times 0)%Z)
                  <$> filter (λ i, nth i nums 1%Z = 0%Z) (seq 0 (length nums))).
  { rewrite <- list_fmap_compose. by apply list_fmap_ext. }
  case_decide.
  - rewrite fmap_cons, Htl. done.
  - by rewrite Htl.
Qed.

Lemma all_but_last_cons {A} (x y : A) l :
  all_but_last (x :: y :: l) = x :: all_but_last (y :: l).
Proof. unfold all_but_last. simpl. by rewrite Nat.sub_0_r. Qed.

Lemma pick_segments_sweep evs t c acc :
  evs ≠ [] →
  pick_segments (t :: evs.*1) (cumsum_from acc (all_but_last (c :: evs.*2)))
  = sweep t (acc + c) evs.
Proof.
  revert t c acc. induction evs as [|[t' c'] evs IH]; intros t c acc Hne; [done|].
  destruct evs as [|e evs].
  - simpl. rewrite pick_segments_cons. simpl.
    unfold pick_segments, where_zero. simpl. done.
  - change (((t', c') :: e :: evs).*1) with (t' :: (e :: evs).*1).
    change (((t', c') :: e :: evs).*2) with (c' :: (e :: evs).*2).
    rewrite all_but_last_cons.
    change (cumsum_from acc (c :: all_but_last (c' :: (e :: evs).*2)))
      with ((acc + c)%Z
            :: cumsum_from (acc + c) (all_but_last (c' :: (e :: evs).*2))).
    rewrite pick_segments_cons.
    change (sweep t (acc + c) ((t', c') :: e :: evs))
      with ((if decide ((acc + c)%Z = 0%Z) then [(t, (t' - t)%Z)] else [])
            ++ sweep t' (acc + c + c') (e :: evs)).
    f_equal. by apply IH.
Qed.

Lemma inactive_segments_sweep cps L :
  inactive_segments cps L = sweep 0 0 (cps ++ [(L, 0%Z)]).
Proof.
  rewrite inactive_segments_pick. simpl. unfold cumsum.
  rewrite !fmap_app. simpl.
  pose proof (pick_segments_sweep (cps ++ [(L, 0%Z)]) 0%Z 0%Z 0%Z) as H.
  rewrite !fmap_app in H. simpl in H. apply H. by destruct cps.
Qed.

(** *** The order of simultaneous events *)

Lemma positive_segments_app l1 l2 :
  positive_segments (l1 ++ l2) = positive_segments l1 ++ positive_segments l2.
Proof. apply filter_app. Qed.

Lemma sweep_cons t c t' c' evs :
  sweep t c ((t', c') :: evs) =
  (if decide (c = 0%Z) then [(t, (t' - t)%Z)] else []) ++
  sweep t' (c + c') evs.
Proof. done. Qed.

Lemma sweep_swap pre a b post t c :
  a.1 = b.1 →
  positive_segments (sweep t c (pre ++ a :: b :: post))
  = positive_segments (sweep t c (pre ++ b :: a :: post)).
Proof.
  intros Hab. revert t c. induction pre as [|[t' c'] pre IH]; intros t c.
  - destruct a as [ta ca], b as [tb cb]. simpl in Hab. subst tb. simpl app.
    rewrite !sweep_cons, !positive_segments_app.
    replace (c + cb + ca)%Z with (c + ca + cb)%Z by lia.
    f_equal. f_equal.
    unfold positive_segments.
    do 2 case_decide; rewrite ?filter_cons; simpl;
      rewrite ?decide_False by lia; done.
  - simpl app. rewrite !sweep_cons, !positive_segments_app. f_equal. apply IH.
Qed.

Lemma sweep_move_front p pre a q t c :
  Forall (λ x, x.1 = a.1) p →
  positive_segments (sweep t c (pre ++ p ++ a :: q))
  = positive_segments (sweep t c (pre ++ a :: p ++ q)).
Proof.
  intros Hp. revert pre. induction Hp as [|x p Hx Hp IH]; intros pre; [done|].
  replace (pre ++ (x :: p) ++ a :: q) with ((pre ++ [x]) ++ p ++ a :: q)
    by (by rewrite <- app_assoc).
  rewrite IH. rewrite <- app_assoc. simpl app.
  by apply sweep_swap.
Qed.

Lemma sweep_sorted_permutation l1 l2 pre post t c :
  l1 ≡ₚ l2 → StronglySorted offset_le l1 → StronglySorted offset_le l2 →
  positive_segments (sweep t c (pre ++ l1 ++ post))
  = positive_segments (sweep t c (pre ++ l2 ++ post)).
Proof.
  revert l2 pre. induction l1 as [|a l1 IH]; intros l2 pre Hperm Hs1 Hs2.
  { apply Permutation_nil_l in Hperm. by subst. }
  assert (a ∈ l2) as Ha by (rewrite <- Hperm; left).
  apply list_elem_of_split in Ha as (p & q & ->).
  apply StronglySorted_cons in Hs1 as [Ha1 Hs1].
  assert (Forall (λ x, x.1 = a.1) p) as Hp.
  { apply Forall_forall. intros x Hx.
    assert (offset_le x a) as Hxa.
    { eapply StronglySorted_app_1_elem_of; [exact Hs2|done|left]. }
    assert (x ∈ a :: l1) as Hin by (rewrite Hperm; set_solver).
    apply elem_of_cons in Hin as [->|Hin]; [done|].
    rewrite Forall_forall in Ha1. specialize (Ha1 x Hin).
    unfold offset_le in *. lia. }
  apply Permutation_cons_app_inv in Hperm.
  assert (StronglySorted offset_le (p ++ q)) as Hs2'.
  { apply StronglySorted_app in Hs2 as (Hpq & Hsp & Hsq).
    apply StronglySorted_cons in Hsq as [_ Hsq].
    apply StronglySorted_app_2; [|done..].
    intros x1 x2 ? ?. apply Hpq; [done|by right]. }
  replace (pre ++ (a :: l1) ++ post) with ((pre ++ [a]) ++ l1 ++ post)
    by (by rewrite <- app_assoc).
  rewrite (IH (p ++ q) (pre ++ [a]) Hperm Hs1 Hs2').
  rewrite <- !app_assoc. simpl app.
  by rewrite sweep_move_front.
Qed.

(** *** Conversion to sample offsets *)

Lemma Qc_trunc_qz x : Qc_trunc (qz x) = x.
Proof. unfold Qc_trunc, qz, Qc_of_Z. simpl. apply Z.quot_1_r. Qed.

Lemma call_intervals_interval_table sample_rate begins ends :
  call_intervals (interval_table sample_rate begins ends)
  = Ok ((λ x, qz x / sample_rate)%Qc <$> begins,
        (λ x, qz x / sample_rate)%Qc <$> ends).
Proof. done. Qed.

(** *** What the sweep means *)

Lemma Z_sum_app l1 l2 : Z_sum (l1 ++ l2) = (Z_sum l1 + Z_sum l2)%Z.
Proof.
  unfold Z_sum. induction l1 as [|x l1 IH]; simpl; [done|]. rewrite IH. lia.
Qed.

Lemma net_change_app l1 l2 x :
  net_change (l1 ++ l2) x = (net_change l1 x + net_change l2 x)%Z.
Proof. unfold net_change. by rewrite filter_app, fmap_app, Z_sum_app. Qed.

Lemma net_change_cons t c l x :
  net_change ((t, c) :: l) x
  = ((if decide (t ≤ x)%Z then c else 0) + net_change l x)%Z.
Proof.
  unfold net_change. rewrite filter_cons. simpl. by case_decide.
Qed.

Lemma net_change_all_le l x :
  Forall (λ ev, ev.1 ≤ x)%Z l → net_change l x = Z_sum (l.*2).
Proof.
  induction 1 as [|[t c] l Ht Hl IH]; [done|].
  rewrite net_change_cons, IH. simpl in *. by rewrite decide_True.
Qed.

Lemma net_change_all_gt l x :
  Forall (λ ev, x < ev.1)%Z l → net_change l x = 0%Z.
Proof.
  induction 1 as [|[t c] l Ht Hl IH]; [done|].
  rewrite net_change_cons, IH. simpl in *. by rewrite decide_False by lia.
Qed.

Lemma net_change_Permutation l l' x :
  l ≡ₚ l' → net_change l x = net_change l' x.
Proof.
  induction 1 as [|[t c] l l' Hp IH|[t1 c1] [t2 c2] l|l1 l2 l3 H1 IH1 H2 IH2].
  - done.
  - by rewrite !net_change_cons, IH.
  - rewrite !net_change_cons. lia.
  - by rewrite IH1.
Qed.

Lemma net_change_events beginnings endings x :
  net_change (change_events beginnings endings) x
  = active_calls beginnings endings x.
Proof.
  unfold change_events, active_calls, count_le. rewrite net_change_app.
  assert (Hb : net_change ((λ b, (b, 1%Z)) <$> beginnings) x
               = Z.of_nat (length (filter (λ y, y ≤ x)%Z beginnings))).
  { induction beginnings as [|b l IH]; [done|].
    rewrite fmap_cons, net_change_cons, IH, filter_cons.
    case_decide; simpl; lia. }
  assert (He : net_change ((λ e, (e, (-1)%Z)) <$> endings) x
               = (- Z.of_nat (length (filter (λ y, y ≤ x)%Z endings)))%Z).
  { induction endings as [|e l IH]; [done|].
    rewrite fmap_cons, net_change_cons, IH, filter_cons.
    case_decide; simpl; lia. }
  rewrite Hb, He. lia.
Qed.

(** When every call ends no earlier than it begins, [active_calls] counts
    the calls whose interval [[b, e)] contains [x]. *)
Lemma active_calls_count (calls : list (Z * Z)) x :
  Forall (λ call, call.1 ≤ call.2)%Z calls →
  active_calls (calls.*1) (calls.*2) x
  = Z.of_nat (length (filter (λ call, call.1 ≤ x ∧ x < call.2)%Z calls)).
Proof.
  unfold active_calls, count_le.
  induction 1 as [|[b e] l Hbe Hl IH]; [done|].
  rewrite !fmap_cons, !filter_cons. simpl in *.
  repeat case_decide; simpl; lia.
Qed.

Lemma sweep_sound L post pre t c s len x :
  StronglySorted offset_le (pre ++ post) →
  Forall (λ ev, ev.1 ≤ t)%Z pre → c = Z_sum (pre.*2) →
  (s, len) ∈ sweep t c (post ++ [(L, 0%Z)]) →
  (s ≤ x < s + len)%Z →
  net_change (pre ++ post) x = 0%Z.
Proof.
  revert pre t c. induction post as [|[t' c'] post IH];
    intros pre t c Hsorted Hpre Hc Hin Hx.
  - simpl in Hin. case_decide; [|by apply elem_of_nil in Hin].
    apply list_elem_of_singleton in Hin. simplify_eq.
    rewrite app_nil_r. rewrite net_change_all_le; [done|].
    eapply Forall_impl; [exact Hpre|]. simpl. intros ev Hev. lia.
  - simpl app in Hin. rewrite sweep_cons in Hin.
    apply elem_of_app in Hin as [Hin|Hin].
    + case_decide; [|by apply elem_of_nil in Hin].
      apply list_elem_of_singleton in Hin. simplify_eq.
      rewrite net_change_app.
      rewrite (net_change_all_le pre)
        by (eapply Forall_impl; [exact Hpre|]; simpl; intros ev Hev; lia).
      rewrite net_change_all_gt; [lia|].
      apply StronglySorted_app_1_r in Hsorted.
      apply StronglySorted_cons in Hsorted as [Hhd _].
      constructor; [simpl; lia|].
      eapply Forall_impl; [exact Hhd|]. unfold offset_le. simpl.
      intros ev Hev. lia.
    + replace (pre ++ (t', c') :: post) with ((pre ++ [(t', c')]) ++ post)
        by (by rewrite <- app_assoc).
      apply (IH (pre ++ [(t', c')]) t' (c + c')%Z); [| | |done|done].
      * by rewrite <- app_assoc.
      * apply Forall_app. split; [|by constructor].
        apply Forall_forall. intros ev Hev. change (offset_le ev (t', c')).
        eapply (StronglySorted_app_1_elem_of offset_le pre ((t', c') :: post));
          [done|done|left].
      * rewrite fmap_app, Z_sum_app. subst c. unfold Z_sum. simpl. lia.
Qed.

Lemma sweep_complete L post pre t c x :
  StronglySorted offset_le (pre ++ post) →
  Forall (λ ev, ev.1 ≤ t)%Z pre → c = Z_sum (pre.*2) →
  (t ≤ x < L)%Z →
  net_change (pre ++ post) x = 0%Z →
  ∃ s len, (s, len) ∈ sweep t c (post ++ [(L, 0%Z)])
           ∧ (s ≤ x < s + len)%Z.
Proof.
  revert pre t c. induction post as [|[t' c'] post IH];
    intros pre t c Hsorted Hpre Hc Hx Hnet.
  - rewrite app_nil_r in Hnet. rewrite net_change_all_le in Hnet
      by (eapply Forall_impl; [exact Hpre|]; simpl; intros ev Hev; lia).
    exists t, (L - t)%Z. simpl. rewrite decide_True by lia.
    split; [left|lia].
  - simpl app. rewrite sweep_cons.
    destruct (decide (x < t')%Z) as [Hlt|Hge].
    + exists t, (t' - t)%Z. split; [|lia]. apply elem_of_app. left.
      rewrite net_change_app in Hnet.
      rewrite (net_change_all_le pre) in Hnet
        by (eapply Forall_impl; [exact Hpre|]; simpl; intros ev Hev; lia).
      rewrite net_change_all_gt in Hnet.
      * rewrite decide_True by lia. left.
      * apply StronglySorted_app_1_r in Hsorted.
        apply StronglySorted_cons in Hsorted as [Hhd _].
        constructor; [simpl; lia|].
        eapply Forall_impl; [exact Hhd|]. unfold offset_le. simpl.
        intros ev Hev. lia.
    + destruct (IH (pre ++ [(t', c')]) t' (c + c')%Z) as (s & len & Hin & Hs).
      * by rewrite <- app_assoc.
      * apply Forall_app. split; [|by constructor].
        apply Forall_forall. intros ev Hev. change (offset_le ev (t', c')).
        eapply (StronglySorted_app_1_elem_of offset_le pre ((t', c') :: post));
          [done|done|left].
      * rewrite fmap_app, Z_sum_app. subst c. unfold Z_sum. simpl. lia.
      * lia.
      * by rewrite <- app_assoc.
      * exists s, len. split; [|done]. apply elem_of_app. by right.
Qed.

(** C1, as amended: every start is a +1 event and every end a -1 event at
    its sample offset; the events are sorted as pairs, by offset and at
    equal offsets with -1 before +1; the result is the sweep over the event
    points (0, 0), the sorted events and (length, 0): the stretch between
    two consecutive event points is emitted, as (start, length) and also
    when its length is zero, exactly when the changes of all event points
    before the later one sum to zero.  Whatever the intervals (they may
    overlap, nest or touch), the count of active calls (calls begun less
    calls ended) is zero at every sample offset of an emitted stretch, and
    every sample offset of the recording at which it is zero lies in an
    emitted stretch.  The result does not depend
    on the order of the rows of the table, and its segments of positive
    length are the same for every order of simultaneous events. *)
Theorem C1_segment_sweep df sample_rate L beginnings endings :
  call_intervals df = Ok (beginnings, endings) →
  let b := to_samples sample_rate beginnings in
  let e := to_samples sample_rate endings in
  let changepoints := sorted (change_events b e) in
  changepoints ≡ₚ ((λ x, (x, 1%Z)) <$> b) ++ ((λ x, (x, (-1)%Z)) <$> e)
  ∧ StronglySorted tuple_le changepoints
  ∧ StronglySorted offset_le changepoints
  ∧ read_noise_csv df sample_rate L
    = Ok (sweep_events ([(0, 0)%Z] ++ changepoints ++ [(L, 0%Z)]))
  ∧ (∀ s len x,
       (s, len) ∈ sweep_events ([(0, 0)%Z] ++ changepoints ++ [(L, 0%Z)]) →
       (s ≤ x < s + len)%Z → active_calls b e x = 0%Z)
  ∧ (∀ x, (0 ≤ x < L)%Z → active_calls b e x = 0%Z →
       ∃ s len,
         (s, len) ∈ sweep_events ([(0, 0)%Z] ++ changepoints ++ [(L, 0%Z)])
         ∧ (s ≤ x < s + len)%Z)
  ∧ (∀ b' e', b' ≡ₚ b → e' ≡ₚ e →
       sorted (change_events b' e') = changepoints)
  ∧ (∀ events, events ≡ₚ change_events b e →
       StronglySorted offset_le events →
       positive_segments (inactive_segments events L)
       = positive_segments (inactive_segments changepoints L)).
Proof.
  intros Hdf b e changepoints.
  assert (Hss : StronglySorted tuple_le changepoints)
    by apply sorted_StronglySorted.
  assert (Hso : StronglySorted offset_le changepoints).
  { eapply StronglySorted_weaken; [|exact Hss]. apply tuple_le_offset_le. }
  assert (Hnet : ∀ x, net_change changepoints x = active_calls b e x).
  { intros x. rewrite <- net_change_events.
    apply net_change_Permutation, sorted_Permutation. }
  split; [apply sorted_Permutation|].
  split; [done|]. split; [done|]. split; [|split; [|split; [|split]]].
  - unfold read_noise_csv. rewrite Hdf. simpl.
    by rewrite inactive_segments_sweep.
  - intros s len x Hin Hx. rewrite <- Hnet.
    by apply (sweep_sound L changepoints [] 0%Z 0%Z s len x).
  - intros x Hx Hfree. rewrite <- Hnet in Hfree.
    by apply (sweep_complete L changepoints [] 0%Z 0%Z x).
  - intros b' e' Hb He. apply sorted_proper. unfold change_events.
    by rewrite Hb, He.
  - intros events Hperm Hsorted. rewrite !inactive_segments_sweep.
    apply (sweep_sorted_permutation events changepoints [] [(L, 0%Z)]);
      [|done..].
    rewrite Hperm. symmetry. apply sorted_Permutation.
Qed.

Lemma C1_witness :
  read_noise_csv (interval_table 1 [0; 5]%Z [5; 10]%Z) 1 20
  = Ok [(0, 0); (5, 0); (10, 10)]%Z.
Proof.
  pose proof (C1_segment_sweep (interval_table 1 [0; 5]%Z [5; 10]%Z) 1 20
    _ _ (call_intervals_interval_table 1 [0; 5]%Z [5; 10]%Z)) as H.
  destruct H as (_ & _ & _ & H & _). rewrite H. reflexivity.
Defined.

(** The claim C1 as stated fails: for the back-to-back calls [0,5) and
    [5,10) the result of the detector contains the empty stretch (5, 0),
    which is there only because the event (5, -1) is put before (5, +1);
    the same events with the two simultaneous ones in the other order,
    still sorted by offset, give a result without it. *)
Lemma C1_counterexample :
  [(0, 1); (5, 1); (5, -1); (10, -1)]%Z
    ≡ₚ change_events [0; 5]%Z [5; 10]%Z
  ∧ StronglySorted offset_le [(0, 1); (5, 1); (5, -1); (10, -1)]%Z
  ∧ read_noise_csv (interval_table 1 [0; 5]%Z [5; 10]%Z) 1 20
    = Ok (inactive_segments [(0, 1); (5, -1); (5, 1); (10, -1)]%Z 20)
  ∧ inactive_segments [(0, 1); (5, -1); (5, 1); (10, -1)]%Z 20
    ≠ inactive_segments [(0, 1); (5, 1); (5, -1); (10, -1)]%Z 20.
Proof.
  split; [|split; [|split]].
  - reflexivity.
  - repeat (constructor; [|repeat constructor; unfold offset_le; simpl; lia]).
    constructor.
  - reflexivity.
  - vm_compute. discriminate.
Qed.

(** C6, as amended: for a table of the two calls [0,10) and [5,15), in
    samples, in a recording of 30 samples the detector returns the two
    pairs (0, 0) and (15, 15): the empty stretch at the start, which it
    always emits, and exactly one bird-free segment of positive length,
    the pair (15, 15).  The table is any one whose times multiplied by the
    sample rate are exactly these whole numbers of samples, so that the
    product the code computes in floating point is the same number. *)
Theorem C6_two_calls df sample_rate beginnings endings :
  call_intervals df = Ok (beginnings, endings) →
  (λ t, t * sample_rate)%Qc <$> beginnings = qz <$> [0; 5]%Z →
  (λ t, t * sample_rate)%Qc <$> endings = qz <$> [10; 15]%Z →
  read_noise_csv df sample_rate 30 = Ok [(0, 0); (15, 15)]%Z
  ∧ positive_segments [(0, 0); (15, 15)]%Z = [(15, 15)]%Z.
Proof.
  intros Hdf Hb He. split; [|reflexivity].
  unfold read_noise_csv. rewrite Hdf. cbn [mbind result_bind].
  assert (∀ seconds offsets,
    (λ t, t * sample_rate)%Qc <$> seconds = qz <$> offsets →
    to_samples sample_rate seconds = offsets) as Hexact.
  { intros seconds offsets Heq. unfold to_samples.
    rewrite (list_fmap_compose (λ t, t * sample_rate)%Qc Qc_trunc), Heq.
    rewrite <- list_fmap_compose. rewrite <- (list_fmap_id offsets) at 2.
    apply list_fmap_ext. intros _ x _. apply Qc_trunc_qz. }
  by rewrite (Hexact _ _ Hb), (Hexact _ _ He).
Qed.

Lemma C6_witness :
  read_noise_csv (interval_table 1 [0; 5]%Z [10; 15]%Z) 1 30
  = Ok [(0, 0); (15, 15)]%Z.
Proof.
  apply (C6_two_calls (interval_table 1 [0; 5]%Z [10; 15]%Z) 1
           ((λ x, qz x / 1)%Qc <$> [0; 5]%Z)
           ((λ x, qz x / 1)%Qc <$> [10; 15]%Z)).
  - reflexivity.
  - by_compute.
  - by_compute.
Defined.

(** The claim C6 as stated fails: the result is not the single pair
    (15, 15). *)
Lemma C6_counterexample :
  read_noise_csv (interval_table 1 [0; 5]%Z [10; 15]%Z) 1 30
  ≠ Ok [(15, 15)]%Z.
Proof. vm_compute. discriminate. Qed.

(** In the time point layout the code ends every call 1.5 seconds after
    its beginning, that is at the time point itself. *)
Lemma call_intervals_point df time freq :
  df !! "Time (s)" = Some time → df !! "Freq (Hz)" = Some freq →
  call_intervals df
  = Ok ((λ t, t - seconds_1_5)%Qc <$> time, time).
Proof.
  intros Ht Hf. unfold call_intervals. rewrite Ht, Hf. do 2 f_equal.
  rewrite <- list_fmap_compose. rewrite <- (list_fmap_id time) at 2.
  apply list_fmap_ext. intros _ t _. simpl. ring.
Qed.

(** C7, as amended: in the time point layout (columns 'Time (s)' and
    'Freq (Hz)') every time point [t] gives a call that begins 1.5 seconds
    before [t]: its +1 event is at the sample offset of [t - 1.5] seconds;
    there are as many ends as beginnings, and the sweep runs over these
    events. *)
Theorem C7_time_points df sample_rate L time freq :
  df !! "Time (s)" = Some time → df !! "Freq (Hz)" = Some freq →
  ∃ endings,
    call_intervals df = Ok ((λ t, t - seconds_1_5)%Qc <$> time, endings)
    ∧ length endings = length time
    ∧ read_noise_csv df sample_rate L
      = Ok (inactive_segments
              (sorted (change_events
                 ((λ t, Qc_trunc ((t - seconds_1_5) * sample_rate)%Qc) <$> time)
                 (to_samples sample_rate endings))) L).
Proof.
  intros Ht Hf. exists time.
  pose proof (call_intervals_point df time freq Ht Hf) as Hc.
  split; [done|]. split; [done|].
  unfold read_noise_csv. rewrite Hc. simpl. do 4 f_equal.
  unfold to_samples. by rewrite <- list_fmap_compose.
Qed.

Lemma C7_witness :
  ∃ endings,
    call_intervals (point_table [qz 2]) = Ok ([Q2Qc (1 # 2)], endings).
Proof.
  destruct (C7_time_points (point_table [qz 2]) (qz 100) 1000 [qz 2]
              [qz 1000] eq_refl eq_refl) as (endings & H & _).
  exists endings. rewrite H. reflexivity.
Defined.

(** The claim C7 as stated fails: for the time point 2 s the call does not
    span 1.25 s to 2.75 s; at 100 samples per second its events are at the
    offsets 50 and 200, not at 125 and 275, and the bird-free segments
    differ accordingly. *)
Lemma C7_counterexample :
  call_intervals (point_table [qz 2])
  ≠ Ok ([(qz 2 - Q2Qc (3 # 4))%Qc], [(qz 2 + Q2Qc (3 # 4))%Qc])
  ∧ read_noise_csv (point_table [qz 2]) (qz 100) 1000
    = Ok (inactive_segments (sorted (change_events [50]%Z [200]%Z)) 1000)
  ∧ read_noise_csv (point_table [qz 2]) (qz 100) 1000
    ≠ Ok (inactive_segments (sorted (change_events [125]%Z [275]%Z)) 1000).
Proof.
  split; [|split].
  - by_compute_neq.
  - reflexivity.
  - vm_compute. discriminate.
Qed.

(** ** [DownmixChannels] *)

Lemma DownmixChannels_getitem u key axis method idx t item t1 a k :
  getitem u idx t = Done item t1 →
  item !! key = Some (VArr a) →
  py_index (length (arr_shape a)) axis = Ok k →
  getitem (DownmixChannels u key axis method) idx t =
  ((if decide (1 < nth k (arr_shape a) 0) then
      if decide (method = "average") then mret (np_mean a k)
      else if decide (method = "random_uniform") then
        weights ← dirichlet_ones (nth k (arr_shape a) 0);
        mret (np_weighted_sum a k (cast (arr_dtype a) <$> weights))
      else mret a
    else mret a)
   ≫= λ a', mret (<[key := VArr a']> item)) t1.
Proof.
  intros Hu Hk Hi. simpl. rewrite (run_bind _ _ _ _ _ Hu).
  unfold get_field. rewrite Hk. simpl.
  unfold mbind at 1, py_bind at 1. simpl.
  unfold mbind at 1, py_bind at 1. simpl.
  rewrite Hi. simpl. done.
Qed.

Lemma bind_seq_lookup {A} (g : nat → nat → A) N M s o i :
  o < N → i < M →
  (seq s N ≫= λ o, seq 0 M ≫= λ i, [g o i]) !! (o * M + i)
  = Some (g (s + o) i).
Proof.
  assert (Hinner : ∀ o', (seq 0 M ≫= λ i, [g o' i]) = g o' <$> seq 0 M).
  { intros o'. induction (seq 0 M) as [|x l IH]; [done|].
    rewrite bind_cons, IH. done. }
  revert s o. induction N as [|N IH]; intros s o Ho Hi; [lia|].
  simpl seq. rewrite bind_cons, Hinner.
  destruct o as [|o].
  - rewrite lookup_app_l by (rewrite length_fmap, length_seq; lia).
    rewrite list_lookup_fmap, lookup_seq_lt by lia.
    simpl. by rewrite Nat.add_0_r.
  - rewrite lookup_app_r by (rewrite length_fmap, length_seq; lia).
    rewrite length_fmap, length_seq.
    replace (S o * M + i - M) with (o * M + i) by lia.
    rewrite IH by lia. f_equal. f_equal. lia.
Qed.

Lemma length_lane data n inner_size outer inner :
  length (lane data n inner_size outer inner) = n.
Proof. unfold lane. by rewrite length_fmap, length_seq. Qed.

(** C8: with [method='average'] and more than one channel on the
    configured axis the field is replaced by [np.mean] over that axis, the
    axis being kept with size one: every output entry is the sum of the
    entries of its lane divided by the number of channels.  With at most
    one channel the item is returned unchanged, whatever the method.  The
    declared shape of the field has size 1 on the axis.  For the input
    [[2,2],[4,4]] and axis 0 the output has the single channel [3,3]. *)
Theorem C8_downmix_average u key axis idx t t1 item a k :
  getitem u idx t = Done item t1 →
  item !! key = Some (VArr a) →
  py_index (length (arr_shape a)) axis = Ok k →
  let n := nth k (arr_shape a) 0 in
  let inner_size := prod_list (drop (S k) (arr_shape a)) in
  (1 < n →
     getitem (DownmixChannels u key axis "average") idx t
     = Done (<[key := VArr (np_mean a k)]> item) t1
     ∧ arr_shape (np_mean a k) = <[k := 1]> (arr_shape a)
     ∧ ∀ outer inner,
         outer < prod_list (take k (arr_shape a)) → inner < inner_size →
         arr_data (np_mean a k) !! (outer * inner_size + inner)
         = Some (Qc_sum (lane (arr_data a) n inner_size outer inner)
                 / qz (Z.of_nat n))%Qc)
  ∧ (n ≤ 1 → ∀ method,
     getitem (DownmixChannels u key axis method) idx t = Done item t1)
  ∧ (∀ method sh s k',
       shapes u = Ok sh → sh !! key = Some s →
       py_index (length s) axis = Ok k' →
       ∃ sh' s', shapes (DownmixChannels u key axis method) = Ok sh'
                 ∧ sh' !! key = Some s' ∧ s' !! k' = Some (Some 1)
                 ∧ length s' = length s)
  ∧ np_mean (Array float32 [2; 2] (qz <$> [2; 2; 4; 4]%Z)) 0
    = Array float32 [1; 2] (qz <$> [3; 3]%Z).
Proof.
  intros Hu Hk Hi n inner_size.
  pose proof (λ method, DownmixChannels_getitem u key axis method idx t item
                          t1 a k Hu Hk Hi) as Hget.
  split; [|split; [|split]].
  - intros Hn. split; [|split].
    + rewrite Hget. fold n. rewrite !decide_True by done. done.
    + done.
    + intros outer inner Ho Hin. unfold np_mean, reduce_axis. simpl.
      fold n inner_size.
      rewrite (bind_seq_lookup
                 (λ o i, mean (lane (arr_data a) n inner_size o i))) by done.
      unfold mean. by rewrite length_lane.
  - intros Hn method. rewrite Hget. fold n. rewrite decide_False by lia.
    unfold mbind, py_bind, mret, py_ret. by rewrite insert_id.
  - intros method sh s k' Hsh Hs Hk'. simpl. rewrite Hsh. simpl.
    rewrite Hs. simpl. unfold set_axis_one. rewrite Hk'. simpl.
    eexists _, _. split; [done|]. rewrite lookup_insert_eq.
    split; [done|]. rewrite length_insert. split; [|done].
    apply list_lookup_insert_eq.
    unfold py_index in Hk'. repeat case_decide; simplify_eq; lia.
  - by_compute.
Qed.

Lemma C8_witness :
  getitem (DownmixChannels
             (list_dataset {[ "input" := [Some 2; None] ]}
                           {[ "input" := np_dtype float32 ]} [stereo_item])
             "input" 0 "average") 0 []
  = Done {[ "input" := VArr (Array float32 [1; 2] (qz <$> [3; 3]%Z)) ]} [].
Proof.
  pose proof (C8_downmix_average
    (list_dataset {[ "input" := [Some 2; None] ]}
                  {[ "input" := np_dtype float32 ]} [stereo_item])
    "input" 0 0 [] [] stereo_item
    (Array float32 [2; 2] (qz <$> [2; 2; 4; 4]%Z)) 0) as H.
  destruct H as [H _]; [reflexivity|reflexivity|reflexivity|].
  destruct H as [H _]; [simpl; lia|]. rewrite H. by_compute.
Defined.

(** ** Updating several fields *)

Lemma update_fields_ok f ks (item : gmap string value) :
  NoDup ks →
  (∀ k, k ∈ ks → ∃ x v, item !! k = Some x ∧ f x = Ok v) →
  ∃ item',
    update_fields f ks item = Ok item'
    ∧ (∀ k, k ∈ ks → ∃ x v, item !! k = Some x ∧ f x = Ok v
                              ∧ item' !! k = Some v)
    ∧ (∀ k, k ∉ ks → item' !! k = item !! k).
Proof.
  intros Hnd. revert item. induction Hnd as [|k ks Hk Hnd IH]; intros item Hall.
  { exists item. split; [done|]. split; [|done]. intros k Hk. by inv Hk. }
  destruct (Hall k) as (x & v & Hx & Hv); [left|].
  destruct (IH (<[k := v]> item)) as (item' & Hrun & Hin & Hout).
  { intros k' Hk'. destruct (Hall k') as (x' & v' & Hx' & Hv'); [by right|].
    exists x', v'. split; [|done]. rewrite lookup_insert_ne; [done|].
    intros ->. done. }
  exists item'. split; [|split].
  - simpl. unfold get_field. rewrite Hx. simpl. rewrite Hv. simpl. done.
  - intros k' Hk'. apply elem_of_cons in Hk' as [->|Hk'].
    + exists x, v. split; [done|]. split; [done|].
      rewrite Hout by done. apply lookup_insert_eq.
    + destruct (Hin k' Hk') as (x' & v' & Hx' & Hv' & Hres).
      exists x', v'. split; [|done]. rewrite lookup_insert_ne in Hx'; [done|].
      intros ->. done.
  - intros k' Hk'. apply not_elem_of_cons in Hk' as [Hne Hk'].
    rewrite Hout by done. by rewrite lookup_insert_ne.
Qed.

Lemma rand_run r t : unit_interval r = true → rand (rand_draw r :: t) = Done r t.
Proof. intros H. unfold rand. by rewrite H. Qed.

Lemma unit_interval_true r : (0 ≤ r)%Qc → (r < 1)%Qc → unit_interval r = true.
Proof.
  intros H0 H1. unfold unit_interval.
  by rewrite !bool_decide_eq_true_2.
Qed.

(** ** [MixBackgroundNoise] *)

Lemma noise_only_fires_run nop t :
  ((nop ≤ 0)%Qc → noise_only_fires nop t = Done false t)
  ∧ ((0 < nop)%Qc → ∀ r, (0 ≤ r)%Qc → (r < 1)%Qc →
       noise_only_fires nop (rand_draw r :: t)
       = Done (bool_decide (r < nop)%Qc) t).
Proof.
  unfold noise_only_fires. split.
  - intros H. rewrite decide_False; [done|]. by apply Qcle_not_lt.
  - intros H r H0 H1. rewrite decide_True by done.
    by rewrite (run_bind _ _ _ r t)
      by (by apply rand_run, unit_interval_true).
Qed.

Lemma mix_fires_run p t :
  ((p ≤ 0)%Qc → mix_fires p t = Done false t)
  ∧ (p = 1%Qc → mix_fires p t = Done true t)
  ∧ ((0 < p)%Qc → p ≠ 1%Qc → ∀ r, (0 ≤ r)%Qc → (r < 1)%Qc →
       mix_fires p (rand_draw r :: t) = Done (bool_decide (r < p)%Qc) t).
Proof.
  unfold mix_fires. split; [|split].
  - intros H. rewrite decide_False; [done|]. by apply Qcle_not_lt.
  - intros ->. by rewrite !decide_True.
  - intros H Hne r H0 H1. rewrite decide_True, decide_False by done.
    by rewrite (run_bind _ _ _ r t)
      by (by apply rand_run, unit_interval_true).
Qed.

Lemma MixBackgroundNoise_getitem u nd key p minf maxf mina maxa nop lk idx t
    item t1 :
  getitem u idx t = Done item t1 →
  getitem (MixBackgroundNoise u nd key p minf maxf mina maxa nop lk) idx t =
  (noise_only ← noise_only_fires nop;
   if noise_only : bool then
     wav ← get_noise (getitem nd) (num_items nd) key mina maxa;
     lift (update_fields (λ x, Ok (zeros_like x)) (elements lk)
                         (<[key := wav]> item))
   else
     mix ← mix_fires p;
     if mix : bool then
       r ← rand;
       let noise_factor := (minf + r * (maxf - minf))%Qc in
       x ← lift (get_field item key);
       a ← lift (scale_value (1 - noise_factor)%Qc x);
       noise ← get_noise (getitem nd) (num_items nd) key mina maxa;
       b ← lift (scale_value noise_factor noise);
       s ← lift (add_value a b);
       mret (<[key := s]> item)
     else mret item) t1.
Proof. intros Hu. simpl. by rewrite (run_bind _ _ _ _ _ Hu). Qed.

(** the array [(1 - w) * original + w * noise] *)
Lemma mix_arrays w (x n : ndarray) :
  arr_shape x = arr_shape n →
  (a ← scale_value (1 - w)%Qc (VArr x);
   b ← scale_value w (VArr n);
   add_value a b)
  = Ok (VArr (Array
       (promote_types (mul_pyfloat_dtype (length (arr_shape x)) (arr_dtype x))
                      (mul_pyfloat_dtype (length (arr_shape n)) (arr_dtype n)))
       (arr_shape x)
       (zip_with (λ o v, (1 - w) * o + w * v)%Qc (arr_data x) (arr_data n)))).
Proof.
  intros Hs. unfold scale_value, add_value, as_array.
  cbn [mbind result_bind]. unfold np_add, np_scale.
  cbn [arr_shape arr_dtype arr_data]. rewrite decide_True by done.
  cbn [fmap result_fmap]. do 3 f_equal.
  by rewrite zip_with_fmap_l, zip_with_fmap_r.
Qed.

Lemma Qc_mult_nonneg (a b : Qc) : (0 ≤ a)%Qc → (0 ≤ b)%Qc → (0 ≤ a * b)%Qc.
Proof.
  intros Ha Hb. rewrite <- (Qcmult_0_l b). by apply Qcmult_le_compat_r.
Qed.

Lemma noise_factor_range minf maxf r :
  (minf ≤ maxf)%Qc → (0 ≤ r)%Qc → (r < 1)%Qc →
  (minf ≤ minf + r * (maxf - minf))%Qc
  ∧ (minf + r * (maxf - minf) ≤ maxf)%Qc.
Proof.
  intros Hm H0 H1.
  assert (0 ≤ maxf - minf)%Qc as Hd.
  { apply Qcle_minus_iff in Hm. exact Hm. }
  split.
  - apply Qcle_minus_iff.
    replace (minf + r * (maxf - minf) + - minf)%Qc
      with (r * (maxf - minf))%Qc by ring.
    by apply Qc_mult_nonneg.
  - apply Qcle_minus_iff.
    replace (maxf + - (minf + r * (maxf - minf)))%Qc
      with ((1 - r) * (maxf - minf))%Qc by ring.
    apply Qc_mult_nonneg; [|done].
    apply Qclt_le_weak in H1. apply Qcle_minus_iff in H1. exact H1.
Qed.

(** C2: an access first evaluates the noise-only test, which draws a
    uniform number [r] of [[0, 1)] when [noise_only_probability] is positive
    and fires iff [r < noise_only_probability].  When it fires the audio
    field becomes the excerpt [get_noise] returns, which is the audio field
    of the item of the noise dataset at a freshly drawn index (as it is
    when [max_amp] is 0), and every field of [label_keys] becomes zeros:
    an array field becomes the array of its own shape and element type
    whose entries are all 0; the other fields are kept.
    Only otherwise the mixing test is evaluated: it fires without a draw
    when [probability] is 1, never when it is not positive, and iff a fresh
    uniform draw is below [probability] otherwise.  When it fires, a weight
    [w = min_factor + r * (max_factor - min_factor)] is drawn, which lies in
    [[min_factor, max_factor]], and the audio becomes
    [(1 - w) * original + w * noise], entry by entry; with both factors 0.25
    that is [0.75 * original + 0.25 * noise].  When neither test fires the
    item of the upstream dataset is returned as it is. *)
Theorem C2_mix_background_noise u nd key p minf maxf mina maxa nop lk idx t
    item t1 :
  getitem u idx t = Done item t1 →
  let stage := MixBackgroundNoise u nd key p minf maxf mina maxa nop lk in
  let noise := get_noise (getitem nd) (num_items nd) key mina maxa in
  (∀ t',
     ((nop ≤ 0)%Qc → noise_only_fires nop t' = Done false t')
     ∧ ((0 < nop)%Qc → ∀ r, (0 ≤ r)%Qc → (r < 1)%Qc →
          noise_only_fires nop (rand_draw r :: t')
          = Done (bool_decide (r < nop)%Qc) t'))
  ∧ (∀ t',
     ((p ≤ 0)%Qc → mix_fires p t' = Done false t')
     ∧ (p = 1%Qc → mix_fires p t' = Done true t')
     ∧ ((0 < p)%Qc → p ≠ 1%Qc → ∀ r, (0 ≤ r)%Qc → (r < 1)%Qc →
          mix_fires p (rand_draw r :: t')
          = Done (bool_decide (r < p)%Qc) t'))
  ∧ (∀ t2 wav t3,
       noise_only_fires nop t1 = Done true t2 →
       noise t2 = Done wav t3 →
       key ∉ lk → (∀ k, k ∈ lk → is_Some (item !! k)) →
       ∃ item',
         getitem stage idx t = Done item' t3
         ∧ item' !! key = Some wav
         ∧ (∀ k, k ∈ lk →
              ∃ x, item !! k = Some x ∧ item' !! k = Some (zeros_like x))
         ∧ (∀ k a, k ∈ lk → item !! k = Some (VArr a) →
              ∃ z, item' !! k = Some (VArr z)
                   ∧ arr_dtype z = arr_dtype a
                   ∧ arr_shape z = arr_shape a
                   ∧ arr_data z = replicate (prod_list (arr_shape a)) 0%Qc
                   ∧ Forall (λ x, x = 0%Qc) (arr_data z))
         ∧ (∀ k, k ≠ key → k ∉ lk → item' !! k = item !! k))
  ∧ (∀ i t' nitem t2 wav,
       i < num_items nd → getitem nd i t' = Done nitem t2 →
       nitem !! key = Some wav → maxa = 0%Qc →
       noise (randint_draw i :: t') = Done wav t2)
  ∧ (∀ t2 r t3 x n t4,
       noise_only_fires nop t1 = Done false t2 →
       mix_fires p t2 = Done true (rand_draw r :: t3) →
       (0 ≤ r)%Qc → (r < 1)%Qc →
       item !! key = Some (VArr x) →
       noise t3 = Done (VArr n) t4 →
       arr_shape x = arr_shape n →
       let w := (minf + r * (maxf - minf))%Qc in
       getitem stage idx t
       = Done (<[key := VArr (Array
            (promote_types
               (mul_pyfloat_dtype (length (arr_shape x)) (arr_dtype x))
               (mul_pyfloat_dtype (length (arr_shape n)) (arr_dtype n)))
            (arr_shape x)
            (zip_with (λ o v, (1 - w) * o + w * v)%Qc
                      (arr_data x) (arr_data n)))]> item) t4
       ∧ ((minf ≤ maxf)%Qc → (minf ≤ w)%Qc ∧ (w ≤ maxf)%Qc)
       ∧ (minf = Q2Qc (1 # 4) → maxf = Q2Qc (1 # 4) →
          zip_with (λ o v, (1 - w) * o + w * v)%Qc (arr_data x) (arr_data n)
          = zip_with (λ o v, Q2Qc (3 # 4) * o + Q2Qc (1 # 4) * v)%Qc
                     (arr_data x) (arr_data n)))
  ∧ (∀ t2 t3,
       noise_only_fires nop t1 = Done false t2 →
       mix_fires p t2 = Done false t3 →
       getitem stage idx t = Done item t3).
Proof.
  intros Hu stage noise.
  pose proof (MixBackgroundNoise_getitem u nd key p minf maxf mina maxa nop lk
                idx t item t1 Hu) as Hget. fold stage noise in Hget.
  split; [intros t'; apply noise_only_fires_run|].
  split; [intros t'; apply mix_fires_run|].
  split; [|split; [|split]].
  - intros t2 wav t3 Hfire Hnoise Hkey Hlabels.
    destruct (update_fields_ok (λ x, Ok (zeros_like x)) (elements lk)
                (<[key := wav]> item)) as (item' & Hrun & Hin & Hout).
    { apply NoDup_elements. }
    { intros k Hk. apply elem_of_elements in Hk.
      destruct (Hlabels k Hk) as [x Hx]. exists x, (zeros_like x).
      split; [|done]. rewrite lookup_insert_ne; [done|]. by intros ->. }
    assert (Hzero : ∀ k, k ∈ lk →
              ∃ x, item !! k = Some x ∧ item' !! k = Some (zeros_like x)).
    { intros k Hk. apply elem_of_elements in Hk.
      destruct (Hin k Hk) as (x & v & Hx & Hv & Hres).
      assert (k ≠ key) as Hne by (intros ->; by apply Hkey, elem_of_elements).
      rewrite lookup_insert_ne in Hx by done.
      exists x. by simplify_eq. }
    exists item'. split; [|split; [|split; [|split]]].
    + rewrite Hget, (run_bind _ _ _ _ _ Hfire). cbn match.
      rewrite (run_bind _ _ _ _ _ Hnoise). by rewrite Hrun.
    + rewrite Hout by (by rewrite elem_of_elements).
      apply lookup_insert_eq.
    + exact Hzero.
    + intros k a Hk Ha. destruct (Hzero k Hk) as (x & Hx & Hres).
      rewrite Ha in Hx. injection Hx as <-.
      exists (Array (arr_dtype a) (arr_shape a)
                    (replicate (prod_list (arr_shape a)) 0%Qc)).
      split; [exact Hres|]. split; [done|]. split; [done|]. split; [done|].
      cbn [arr_data]. apply Forall_replicate. done.
    + intros k Hne Hk. rewrite Hout by (by rewrite elem_of_elements).
      by rewrite lookup_insert_ne.
  - intros i t' nitem t2 wav Hi Hn Hk ->. unfold noise, get_noise.
    rewrite (run_bind _ _ _ i t') by (by apply randint_run).
    rewrite (run_bind _ _ _ _ _ Hn).
    unfold get_field. rewrite Hk. cbn [of_option].
    rewrite (run_bind _ _ _ wav t2) by done.
    by rewrite decide_False by (by intros H; apply H).
  - intros t2 r t3 x n t4 Hfire Hmix H0 H1 Hx Hnoise Hshape w.
    split; [|split].
    + rewrite Hget, (run_bind _ _ _ _ _ Hfire). cbn match.
      rewrite (run_bind _ _ _ _ _ Hmix). cbn match.
      rewrite (run_bind _ _ _ r t3) by (by apply rand_run, unit_interval_true).
      cbn zeta. fold w.
      pose proof (mix_arrays w x n Hshape) as Hmixed.
      unfold get_field. rewrite Hx. cbn [of_option].
      rewrite (run_bind _ _ _ (VArr x) t3) by done.
      unfold scale_value in *. cbn [as_array mbind result_bind] in *.
      rewrite (run_bind _ _ _ _ t3) by done.
      rewrite (run_bind _ _ _ _ _ Hnoise).
      cbn [as_array mbind result_bind].
      rewrite (run_bind _ _ _ _ t4) by done.
      by rewrite (run_bind _ _ _ _ t4) by (by apply run_lift_ok).
    + intros Hm. by apply noise_factor_range.
    + intros -> ->. apply zip_with_ext; [|done..].
      intros o v. unfold w.
      replace (Q2Qc (1 # 4) + r * (Q2Qc (1 # 4) - Q2Qc (1 # 4)))%Qc
        with (Q2Qc (1 # 4)) by ring.
      by assert (1 - Q2Qc (1 # 4) = Q2Qc (3 # 4))%Qc as -> by by_compute.
  - intros t2 t3 Hfire Hmix.
    rewrite Hget, (run_bind _ _ _ _ _ Hfire). cbn match.
    by rewrite (run_bind _ _ _ _ _ Hmix).
Qed.

Lemma C2_witness :
  getitem (MixBackgroundNoise (float_dataset [[4; 8]%Z])
             (float_dataset [[0; 4]%Z]) "input" 1 quarter quarter 0 0 0 ∅)
          0 [rand_draw half; randint_draw 0]
  = Done (float_item [3; 7]%Z) []
  ∧ ∃ item',
      getitem (MixBackgroundNoise label_dataset (float_dataset [[0; 4]%Z])
                 "input" 0 quarter quarter 0 0 1 {[ "label_bg" ]})
              0 [rand_draw half; randint_draw 0]
      = Done item' []
      ∧ item' !! "input" = Some (VArr (arr1 float32 [0; 4]%Z))
      ∧ item' !! "label_bg" = Some (VArr (Array uint8 [2] [0%Qc; 0%Qc]))
      ∧ item' !! "itemid" = Some (VStr "a").
Proof.
  split.
  - pose proof (C2_mix_background_noise (float_dataset [[4; 8]%Z])
      (float_dataset [[0; 4]%Z]) "input" 1 quarter quarter 0 0 0 ∅ 0
      [rand_draw half; randint_draw 0] (float_item [4; 8]%Z)
      [rand_draw half; randint_draw 0] eq_refl) as H.
    destruct H as (_ & _ & _ & _ & H & _).
    destruct (H [rand_draw half; randint_draw 0] half [randint_draw 0]
                (arr1 float32 [4; 8]%Z) (arr1 float32 [0; 4]%Z) [])
      as (Hrun & _); [reflexivity|reflexivity|by_compute|by_compute
                      |reflexivity|reflexivity|reflexivity|].
    rewrite Hrun. by_compute.
  - pose proof (C2_mix_background_noise label_dataset
      (float_dataset [[0; 4]%Z]) "input" 0 quarter quarter 0 0 1
      {[ "label_bg" ]} 0 [rand_draw half; randint_draw 0]
      (label_item "a" [4; 8]%Z [1; 0]%Z)
      [rand_draw half; randint_draw 0] eq_refl) as H.
    destruct H as (_ & _ & H & Hnoise & _).
    destruct (H [randint_draw 0] (VArr (arr1 float32 [0; 4]%Z)) [])
      as (item' & Hrun & Hinput & _ & Hzeros & Hother).
    + by_compute.
    + apply (Hnoise 0 [] (float_item [0; 4]%Z) []);
        [simpl; lia|reflexivity|reflexivity|reflexivity].
    + intros Hin. apply elem_of_singleton in Hin. discriminate Hin.
    + intros k Hk. apply elem_of_singleton in Hk as ->. by eexists.
    + exists item'. split; [exact Hrun|]. split; [exact Hinput|]. split.
      * destruct (Hzeros "label_bg" (Array uint8 [2] [1%Qc; 0%Qc]))
          as (z & Hz & Hdt & Hsh & Hdata & _);
          [by apply elem_of_singleton|by_compute|].
        rewrite Hz. destruct z as [dt sh data]. simpl in Hdt, Hsh, Hdata.
        by rewrite Hdt, Hsh, Hdata.
      * rewrite Hother; [by_compute|discriminate|].
        intros Hin. apply elem_of_singleton in Hin. discriminate Hin.
Defined.

(** ** [Mixup] *)

Lemma update_fields_other f ks (item item' : gmap string value) k :
  update_fields f ks item = Ok item' → k ∉ ks → item' !! k = item !! k.
Proof.
  revert item. induction ks as [|k' ks IH]; intros item Hrun Hk.
  { simpl in Hrun. by simplify_eq. }
  apply not_elem_of_cons in Hk as [Hne Hk]. simpl in Hrun.
  destruct (get_field item k') as [x|]; [|done]. simpl in Hrun.
  destruct (f x) as [v|]; [|done]. simpl in Hrun.
  rewrite (IH _ Hrun Hk). by rewrite lookup_insert_ne.
Qed.

Lemma blend_other w1 w2 item1 item2 ks (item item' : gmap string value) k :
  blend w1 w2 item1 item2 ks item = Ok item' → k ∉ ks →
  item' !! k = item !! k.
Proof.
  revert item. induction ks as [|k' ks IH]; intros item Hrun Hk.
  { simpl in Hrun. by simplify_eq. }
  apply not_elem_of_cons in Hk as [Hne Hk]. simpl in Hrun.
  destruct (get_field item1 k') as [x1|]; [|done]. simpl in Hrun.
  destruct (scale_value w1 x1) as [a|]; [|done]. simpl in Hrun.
  destruct (get_field item2 k') as [x2|]; [|done]. simpl in Hrun.
  destruct (scale_value w2 x2) as [b|]; [|done]. simpl in Hrun.
  destruct (add_value a b) as [s|]; [|done]. simpl in Hrun.
  rewrite (IH _ Hrun Hk). by rewrite lookup_insert_ne.
Qed.

Lemma blend_ok w1 w2 item1 item2 ks (item : gmap string value) :
  NoDup ks →
  (∀ k, k ∈ ks → ∃ x1 x2, item1 !! k = Some (VArr x1)
                   ∧ item2 !! k = Some (VArr x2)
                   ∧ arr_shape x1 = arr_shape x2) →
  ∃ item',
    blend w1 w2 item1 item2 ks item = Ok item'
    ∧ (∀ k, k ∈ ks → ∃ x1 x2, item1 !! k = Some (VArr x1)
                       ∧ item2 !! k = Some (VArr x2)
                       ∧ item' !! k = Some (VArr (blend_arrays w1 w2 x1 x2)))
    ∧ (∀ k, k ∉ ks → item' !! k = item !! k).
Proof.
  intros Hnd. revert item. induction Hnd as [|k ks Hk Hnd IH]; intros item Hall.
  { exists item. split; [done|]. split; [|done]. intros k Hk. by inv Hk. }
  destruct (Hall k) as (x1 & x2 & Hx1 & Hx2 & Hs); [left|].
  destruct (IH (<[k := VArr (blend_arrays w1 w2 x1 x2)]> item))
    as (item' & Hrun & Hin & Hout).
  { intros k' Hk'. apply Hall. by right. }
  exists item'. split; [|split].
  - cbn [blend]. unfold get_field. rewrite Hx1, Hx2.
    unfold scale_value, add_value, as_array, np_add, np_scale.
    cbn [of_option mbind result_bind arr_shape arr_dtype arr_data].
    rewrite decide_True by done. cbn [fmap result_fmap mbind result_bind].
    rewrite zip_with_fmap_l, zip_with_fmap_r. exact Hrun.
  - intros k' Hk'. apply elem_of_cons in Hk' as [->|Hk'].
    + exists x1, x2. split; [done|]. split; [done|].
      rewrite Hout by done. apply lookup_insert_eq.
    + by apply Hin.
  - intros k' Hk'. apply not_elem_of_cons in Hk' as [Hne Hk'].
    rewrite Hout by done. by rewrite lookup_insert_ne.
Qed.

Lemma beta_run a w t :
  (0 < a)%Qc → (0 ≤ w)%Qc → (w ≤ 1)%Qc →
  beta a a (beta_draw w :: t) = Done w t.
Proof.
  intros Ha H0 H1. unfold beta. by rewrite !bool_decide_eq_true_2.
Qed.

Lemma Mixup_getitem u keys bkeys alpha idx t item1 j t1 item2 w1 t3 :
  getitem u idx t = Done item1 (randint_draw j :: t1) →
  j < num_items u →
  getitem u j t1 = Done item2 (beta_draw w1 :: t3) →
  (0 < alpha)%Qc → (0 ≤ w1)%Qc → (w1 ≤ 1)%Qc →
  getitem (Mixup u keys bkeys alpha) idx t =
  (item ← lift (blend w1 (1 - w1)%Qc item1 item2 (elements keys)
                      (if decide (1 - w1 ≤ w1)%Qc then item1 else item2));
   lift (update_fields binarize (elements bkeys) item)) t3.
Proof.
  intros Hu1 Hj Hu2 Ha H0 H1. simpl.
  rewrite (run_bind _ _ _ _ _ Hu1).
  rewrite (run_bind _ _ _ j t1) by (by apply randint_run).
  rewrite (run_bind _ _ _ _ _ Hu2).
  by rewrite (run_bind _ _ _ w1 t3) by (by apply beta_run).
Qed.

Lemma binarize_array a : binarize (VArr a) = Ok (VArr (thresholded a)).
Proof.
  unfold binarize, np_astype, np_positive, thresholded. simpl. do 3 f_equal.
  rewrite <- list_fmap_compose. apply list_fmap_ext. intros _ x _.
  unfold indicator. simpl.
  destruct (arr_dtype a); case_decide; try done; by_compute.
Qed.

Lemma indicator_cases x :
  (indicator x = 0%Qc ∨ indicator x = 1%Qc)
  ∧ (indicator x = 1%Qc ↔ (0 < x)%Qc).
Proof.
  unfold indicator. case_decide; split; try tauto.
  split; [|done]. intros H01. exfalso. revert H01. by_compute_neq.
Qed.

(** C9, as amended: every field of the binarize key set becomes the
    entrywise indicator of strict positivity of its value at that point,
    which is the blend for a field that is also blended and the value in
    the base item otherwise; every output entry is exactly 0 or exactly 1
    and is 1 iff the entry before was strictly positive.  Shape and
    element type are those of the value that is thresholded: the field's
    own element type when it is not blended, the element type of the blend
    when it is. *)
Theorem C9_mixup_binarize u keys bkeys alpha idx t item1 j t1 item2 w1 t3 :
  getitem u idx t = Done item1 (randint_draw j :: t1) →
  j < num_items u →
  getitem u j t1 = Done item2 (beta_draw w1 :: t3) →
  (0 < alpha)%Qc → (0 ≤ w1)%Qc → (w1 ≤ 1)%Qc →
  let base := if decide (1 - w1 ≤ w1)%Qc then item1 else item2 in
  (∀ k, k ∈ keys → ∃ x1 x2, item1 !! k = Some (VArr x1)
                    ∧ item2 !! k = Some (VArr x2)
                    ∧ arr_shape x1 = arr_shape x2) →
  (∀ k, k ∈ bkeys → k ∉ keys → ∃ a, base !! k = Some (VArr a)) →
  ∃ item',
    getitem (Mixup u keys bkeys alpha) idx t = Done item' t3
    ∧ ∀ k, k ∈ bkeys →
        ∃ pre,
          (k ∈ keys → ∃ x1 x2, item1 !! k = Some (VArr x1)
                        ∧ item2 !! k = Some (VArr x2)
                        ∧ pre = blend_arrays w1 (1 - w1)%Qc x1 x2)
          ∧ (k ∉ keys → base !! k = Some (VArr pre))
          ∧ item' !! k = Some (VArr (thresholded pre))
          ∧ arr_dtype (thresholded pre) = arr_dtype pre
          ∧ arr_shape (thresholded pre) = arr_shape pre
          ∧ (∀ i y, arr_data (thresholded pre) !! i = Some y →
                    y = 0%Qc ∨ y = 1%Qc)
          ∧ (∀ i x, arr_data pre !! i = Some x →
                    ∃ y, arr_data (thresholded pre) !! i = Some y
                         ∧ (y = 1%Qc ↔ (0 < x)%Qc)).
Proof.
  intros Hu1 Hj Hu2 Ha H0 H1 base Hkeys Hbkeys.
  destruct (blend_ok w1 (1 - w1)%Qc item1 item2 (elements keys) base)
    as (blended & Hblend & Hin & Hout).
  { apply NoDup_elements. }
  { intros k Hk. apply Hkeys. by apply elem_of_elements. }
  assert (Hpre : ∀ k, k ∈ bkeys → ∃ pre,
            blended !! k = Some (VArr pre)
            ∧ (k ∈ keys → ∃ x1 x2, item1 !! k = Some (VArr x1)
                             ∧ item2 !! k = Some (VArr x2)
                             ∧ pre = blend_arrays w1 (1 - w1)%Qc x1 x2)
            ∧ (k ∉ keys → base !! k = Some (VArr pre))).
  { intros k Hk. destruct (decide (k ∈ keys)) as [Hkk|Hkk].
    - destruct (Hin k) as (x1 & x2 & Hx1 & Hx2 & Hb);
        [by apply elem_of_elements|].
      exists (blend_arrays w1 (1 - w1)%Qc x1 x2).
      split; [done|]. split; [|done]. intros _. by exists x1, x2.
    - destruct (Hbkeys k Hk Hkk) as [a Hbase]. exists a.
      split; [|split; [done|by intros _]].
      rewrite Hout; [done|]. by rewrite elem_of_elements. }
  destruct (update_fields_ok binarize (elements bkeys) blended)
    as (item' & Hrun & Hbin & _).
  { apply NoDup_elements. }
  { intros k Hk. apply elem_of_elements in Hk.
    destruct (Hpre k Hk) as (pre & Hb & _).
    exists (VArr pre), (VArr (thresholded pre)). split; [done|].
    apply binarize_array. }
  exists item'. split.
  - rewrite (Mixup_getitem u keys bkeys alpha idx t item1 j t1 item2 w1 t3)
      by done.
    fold base. rewrite (run_bind _ _ _ blended t3) by (by apply run_lift_ok).
    by apply run_lift_ok.
  - intros k Hk. destruct (Hpre k Hk) as (pre & Hb & Hin' & Hout').
    exists pre. split; [done|]. split; [done|].
    destruct (Hbin k) as (x & v & Hx & Hv & Hres);
      [by apply elem_of_elements|].
    rewrite Hb in Hx. simplify_eq. rewrite binarize_array in Hv. simplify_eq.
    split; [done|]. split; [done|]. split; [done|]. split.
    + intros i y Hy. simpl in Hy. rewrite list_lookup_fmap in Hy.
      destruct (arr_data pre !! i) as [x|]; [|done]. simpl in Hy.
      simplify_eq. apply indicator_cases.
    + intros i x Hx. exists (indicator x). simpl.
      rewrite list_lookup_fmap, Hx. split; [done|]. apply indicator_cases.
Qed.

Lemma C9_witness :
  ∃ item',
    getitem (Mixup label_dataset {["label_bg"]} {["label_bg"]} quarter) 0
            [randint_draw 1; beta_draw half] = Done item' []
    ∧ item' !! "label_bg"
      = Some (VArr (Array float64 [2] [1%Qc; 1%Qc])).
Proof.
  pose proof (C9_mixup_binarize label_dataset {["label_bg"]} {["label_bg"]}
                quarter 0 [randint_draw 1; beta_draw half]
                (label_item "a" [4; 8]%Z [1; 0]%Z) 1 [beta_draw half]
                (label_item "b" [0; 4]%Z [0; 1]%Z) half []) as H.
  assert (Ha : label_item "a" [4; 8]%Z [1; 0]%Z !! "label_bg"
               = Some (VArr (arr1 uint8 [1; 0]%Z))) by by_compute.
  assert (Hb : label_item "b" [0; 4]%Z [0; 1]%Z !! "label_bg"
               = Some (VArr (arr1 uint8 [0; 1]%Z))) by by_compute.
  destruct H as (item' & Hrun & Hfields);
    [by_compute|simpl; lia|by_compute|by_compute|by_compute|by_compute| |
     intros k Hk Hnk; contradiction|].
  { intros k Hk. apply elem_of_singleton in Hk as ->.
    by exists (arr1 uint8 [1; 0]%Z), (arr1 uint8 [0; 1]%Z). }
  exists item'. split; [exact Hrun|].
  destruct (Hfields "label_bg") as (pre & Hpre & _ & Hres & _);
    [by apply elem_of_singleton|].
  destruct Hpre as (x1 & x2 & Hx1 & Hx2 & ->);
    [by apply elem_of_singleton|].
  etrans; [exact Hres|].
  rewrite Ha in Hx1. rewrite Hb in Hx2.
  injection Hx1 as <-. injection Hx2 as <-. by_compute.
Defined.

(** The claim C9 as stated fails on the element type: a uint8 label that
    is blended and then binarized comes back as float64, while the field
    of the upstream item and the declared schema are uint8. *)
Lemma C9_counterexample :
  getitem (Mixup label_dataset {["label_bg"]} {["label_bg"]} quarter) 0
          [randint_draw 1; beta_draw half]
  = Done (<["label_bg" := VArr (Array float64 [2] [1%Qc; 1%Qc])]>
            (label_item "a" [4; 8]%Z [1; 0]%Z)) []
  ∧ label_item "a" [4; 8]%Z [1; 0]%Z !! "label_bg"
    = Some (VArr (Array uint8 [2] [1%Qc; 0%Qc]))
  ∧ dtypes (Mixup label_dataset {["label_bg"]} {["label_bg"]} quarter)
      !! "label_bg" = Some (np_dtype uint8)
  ∧ float64 ≠ uint8.
Proof.
  split; [by_compute|]. split; [by_compute|]. split; [by_compute|done].
Qed.

Lemma promote_types_diag dt : promote_types dt dt = dt.
Proof. by destruct dt. Qed.

(** C10, as amended: when the drawn second index equals the requested
    index and the two accesses to the upstream dataset return the same
    array [x] for a blended field that is not binarized, the output field
    is the blend of [x] with itself: it has the shape of [x], the element
    type of a float-weighted array (that of [x] when [x] is float64, or
    float32 with at least one axis) and the entries
    [w1 * x + (1 - w1) * x], as many as [x] has, which is what the code
    computes entry by entry.  That it is the very array [x] is not
    claimed: the two products and their sum are rounded. *)
Theorem C10_mixup_same_item u keys bkeys alpha idx t item1 t1 item2 w1 t3 :
  getitem u idx t = Done item1 (randint_draw idx :: t1) →
  idx < num_items u →
  getitem u idx t1 = Done item2 (beta_draw w1 :: t3) →
  (0 < alpha)%Qc → (0 ≤ w1)%Qc → (w1 ≤ 1)%Qc →
  let base := if decide (1 - w1 ≤ w1)%Qc then item1 else item2 in
  (∀ k, k ∈ keys → ∃ x, item1 !! k = Some (VArr x)
                        ∧ item2 !! k = Some (VArr x)) →
  (∀ k, k ∈ bkeys → k ∉ keys → ∃ a, base !! k = Some (VArr a)) →
  ∃ item',
    getitem (Mixup u keys bkeys alpha) idx t = Done item' t3
    ∧ ∀ k, k ∈ keys → k ∉ bkeys →
        ∃ x y, item1 !! k = Some (VArr x)
             ∧ item' !! k = Some (VArr y)
             ∧ y = blend_arrays w1 (1 - w1)%Qc x x
             ∧ arr_shape y = arr_shape x
             ∧ arr_dtype y
               = mul_pyfloat_dtype (length (arr_shape x)) (arr_dtype x)
             ∧ (arr_dtype x = float64
                ∨ (arr_dtype x = float32 ∧ arr_shape x ≠ []) →
                arr_dtype y = arr_dtype x)
             ∧ length (arr_data y) = length (arr_data x)
             ∧ ∀ i a, arr_data x !! i = Some a →
                 arr_data y !! i = Some (w1 * a + (1 - w1) * a)%Qc.
Proof.
  intros Hu1 Hj Hu2 Ha H0 H1 base Hkeys Hbkeys.
  destruct (blend_ok w1 (1 - w1)%Qc item1 item2 (elements keys) base)
    as (blended & Hblend & Hin & Hout).
  { apply NoDup_elements. }
  { intros k Hk. apply elem_of_elements in Hk.
    destruct (Hkeys k Hk) as (x & Hx1 & Hx2). by exists x, x. }
  destruct (update_fields_ok binarize (elements bkeys) blended)
    as (item' & Hrun & _ & Hkeep).
  { apply NoDup_elements. }
  { intros k Hk. apply elem_of_elements in Hk.
    destruct (decide (k ∈ keys)) as [Hkk|Hkk].
    - destruct (Hin k) as (x1 & x2 & _ & _ & Hb);
        [by apply elem_of_elements|].
      eexists _, _. split; [exact Hb|]. apply binarize_array.
    - destruct (Hbkeys k Hk Hkk) as [a Hbase].
      exists (VArr a), (VArr (thresholded a)). split; [|apply binarize_array].
      rewrite Hout; [done|]. by rewrite elem_of_elements. }
  exists item'. split.
  - rewrite (Mixup_getitem u keys bkeys alpha idx t item1 idx t1 item2 w1 t3)
      by done.
    fold base. rewrite (run_bind _ _ _ blended t3) by (by apply run_lift_ok).
    by apply run_lift_ok.
  - intros k Hk Hnb. destruct (Hkeys k Hk) as (x & Hx1 & Hx2).
    destruct (Hin k) as (x1 & x2 & Hx1' & Hx2' & Hb);
      [by apply elem_of_elements|].
    rewrite Hx1 in Hx1'. rewrite Hx2 in Hx2'.
    injection Hx1' as <-. injection Hx2' as <-.
    assert (item' !! k = blended !! k) as Hsame.
    { apply Hkeep. by rewrite elem_of_elements. }
    exists x, (blend_arrays w1 (1 - w1)%Qc x x).
    split; [done|]. split; [by rewrite Hsame|]. split; [done|].
    split; [done|]. split; [apply promote_types_diag|]. split; [|split].
    + intros Hdt. cbn [blend_arrays arr_dtype]. rewrite promote_types_diag.
      destruct Hdt as [->|[-> Hsh]]; [done|].
      unfold mul_pyfloat_dtype. rewrite decide_False; [done|].
      by destruct (arr_shape x).
    + cbn [blend_arrays arr_data]. rewrite length_zip_with. lia.
    + intros i a Hi. cbn [blend_arrays arr_data].
      by rewrite lookup_zip_with, Hi.
Qed.

Lemma C10_witness :
  ∃ item',
    getitem (Mixup (double_dataset [[4; 8]%Z]) {["input"]} ∅ quarter) 0
            [randint_draw 0; beta_draw quarter] = Done item' []
    ∧ item' !! "input"
      = Some (VArr (Array float64 [2]
                      [(quarter * qz 4 + (1 - quarter) * qz 4)%Qc;
                       (quarter * qz 8 + (1 - quarter) * qz 8)%Qc])).
Proof.
  pose proof (C10_mixup_same_item (double_dataset [[4; 8]%Z]) {["input"]} ∅
                quarter 0 [randint_draw 0; beta_draw quarter]
                (double_item [4; 8]%Z) [beta_draw quarter]
                (double_item [4; 8]%Z) quarter []) as H.
  assert (Hi : double_item [4; 8]%Z !! "input"
               = Some (VArr (arr1 float64 [4; 8]%Z))) by by_compute.
  destruct H as (item' & Hrun & Hfields);
    [by_compute|simpl; lia|by_compute|by_compute|by_compute|by_compute| |
     intros k Hk; by apply not_elem_of_empty in Hk|].
  { intros k Hk. apply elem_of_singleton in Hk as ->.
    by exists (arr1 float64 [4; 8]%Z). }
  exists item'. split; [exact Hrun|].
  destruct (Hfields "input") as (x & y & Hx & Hy & Heq & _);
    [by apply elem_of_singleton|apply not_elem_of_empty|].
  rewrite Hi in Hx. injection Hx as <-.
  rewrite Hy, Heq. reflexivity.
Defined.

(** The claim C10 as stated fails: the stage reads the upstream dataset
    twice, and a random upstream stage answers the two reads of one index
    differently.  Here the second index drawn is the requested index 0,
    the two crops start at offsets 0 and 2, and the blended field is [1]
    while the item of the first read has [0]. *)
Lemma C10_counterexample :
  getitem (Mixup (FixedSizeExcerpts (double_dataset [[0; 1; 2]%Z]) 1 false
                                    "input") {["input"]} ∅ quarter) 0
          [randint_draw 0; randint_draw 0; randint_draw 2; beta_draw half]
  = Done (double_item [1]%Z) []
  ∧ getitem (FixedSizeExcerpts (double_dataset [[0; 1; 2]%Z]) 1 false "input")
            0 [randint_draw 0; randint_draw 0; randint_draw 2; beta_draw half]
    = Done (double_item [0]%Z)
           [randint_draw 0; randint_draw 2; beta_draw half]
  ∧ double_item [1]%Z !! "input" ≠ double_item [0]%Z !! "input".
Proof.
  split; [by_compute|]. split; [by_compute|]. by_compute_neq.
Qed.

(** ** The frame of a stage *)

Lemma beta_inv a b w t t' : beta a b t = Done w t' → t = beta_draw w :: t'.
Proof.
  unfold beta. case_match; [|done].
  destruct t as [|[| |w'|] t0]; try done.
  case_match; [|done]. intros Hdone. by simplify_eq.
Qed.

Lemma mret_inv {A} (a b : A) t t' :
  (mret a : py A) t = Done b t' → a = b ∧ t = t'.
Proof. unfold mret, py_ret. intros H. by simplify_eq. Qed.

Lemma FixedSizeExcerpts_frame u L det key idx t item' t' :
  getitem (FixedSizeExcerpts u L det key) idx t = Done item' t' →
  ∃ item t1, getitem u idx t = Done item t1
             ∧ ∀ k, k ≠ key → item' !! k = item !! k.
Proof.
  intros H. cbn [getitem] in H.
  apply run_bind_inv in H as (item & t1 & Hu & H).
  apply run_bind_inv in H as (data & t2 & _ & H).
  apply run_bind_inv in H as (n & t3 & _ & H).
  apply run_bind_inv in H as (data' & t4 & _ & H).
  apply mret_inv in H as [<- _].
  exists item, t1. split; [done|]. intros k Hk. by rewrite lookup_insert_ne.
Qed.

Lemma Floatify_frame u transpose key idx t item' t' :
  getitem (Floatify u transpose key) idx t = Done item' t' →
  ∃ item t1, getitem u idx t = Done item t1
             ∧ ∀ k, k ≠ key → item' !! k = item !! k.
Proof.
  intros H. cbn [getitem] in H.
  apply run_bind_inv in H as (item & t1 & Hu & H).
  apply run_bind_inv in H as (data & t2 & _ & H).
  apply run_bind_inv in H as (a & t3 & _ & H).
  apply mret_inv in H as [<- _].
  exists item, t1. split; [done|]. intros k Hk. by rewrite lookup_insert_ne.
Qed.

Lemma DownmixChannels_frame u key axis method idx t item' t' :
  getitem (DownmixChannels u key axis method) idx t = Done item' t' →
  ∃ item t1, getitem u idx t = Done item t1
             ∧ ∀ k, k ≠ key → item' !! k = item !! k.
Proof.
  intros H. cbn [getitem] in H.
  apply run_bind_inv in H as (item & t1 & Hu & H).
  apply run_bind_inv in H as (wav & t2 & _ & H).
  apply run_bind_inv in H as (a & t3 & _ & H).
  apply run_bind_inv in H as (k0 & t4 & _ & H).
  apply run_bind_inv in H as (a' & t5 & _ & H).
  apply mret_inv in H as [<- _].
  exists item, t1. split; [done|]. intros k Hk. by rewrite lookup_insert_ne.
Qed.

Lemma MixBackgroundNoise_frame u nd key p minf maxf mina maxa nop lk idx t
    item' t' :
  getitem (MixBackgroundNoise u nd key p minf maxf mina maxa nop lk) idx t
  = Done item' t' →
  ∃ item t1, getitem u idx t = Done item t1
             ∧ ∀ k, k ≠ key → k ∉ lk → item' !! k = item !! k.
Proof.
  intros H. cbn [getitem] in H.
  apply run_bind_inv in H as (item & t1 & Hu & H).
  exists item, t1. split; [done|]. intros k Hk Hlk.
  apply run_bind_inv in H as ([|] & t2 & _ & H).
  - apply run_bind_inv in H as (wav & t3 & _ & H).
    apply run_lift_inv in H as [H _].
    rewrite (update_fields_other _ _ _ _ k H) by (by rewrite elem_of_elements).
    by rewrite lookup_insert_ne.
  - apply run_bind_inv in H as ([|] & t3 & _ & H).
    + apply run_bind_inv in H as (r & t4 & _ & H). cbn zeta in H.
      apply run_bind_inv in H as (x & t5 & _ & H).
      apply run_bind_inv in H as (a & t6 & _ & H).
      apply run_bind_inv in H as (noise & t7 & _ & H).
      apply run_bind_inv in H as (b & t8 & _ & H).
      apply run_bind_inv in H as (s & t9 & _ & H).
      apply mret_inv in H as [<- _]. by rewrite lookup_insert_ne.
    + by apply mret_inv in H as [<- _].
Qed.

Lemma Mixup_frame u keys bkeys alpha idx t item' t' :
  getitem (Mixup u keys bkeys alpha) idx t = Done item' t' →
  ∃ item1 idx2 t1 item2 w1,
    getitem u idx t = Done item1 (randint_draw idx2 :: t1)
    ∧ idx2 < num_items u
    ∧ getitem u idx2 t1 = Done item2 (beta_draw w1 :: t')
    ∧ ∀ k, k ∉ keys → k ∉ bkeys →
        item' !! k
        = (if decide (1 - w1 ≤ w1)%Qc then item1 else item2) !! k.
Proof.
  intros H. cbn [getitem] in H.
  apply run_bind_inv in H as (item1 & t1 & Hu1 & H).
  apply run_bind_inv in H as (idx2 & t2 & Hr & H).
  apply randint_inv in Hr as [Hlt ->].
  apply run_bind_inv in H as (item2 & t3 & Hu2 & H).
  apply run_bind_inv in H as (w1 & t4 & Hb & H).
  apply beta_inv in Hb as ->. cbn zeta in H.
  apply run_bind_inv in H as (blended & t5 & Hbl & H).
  apply run_lift_inv in Hbl as [Hbl ->].
  apply run_lift_inv in H as [H ->].
  exists item1, idx2, t2, item2, w1. split; [done|]. split; [done|].
  split; [done|]. intros k Hk Hbk.
  rewrite (update_fields_other _ _ _ _ k H) by (by rewrite elem_of_elements).
  by rewrite (blend_other _ _ _ _ _ _ _ k Hbl) by (by rewrite elem_of_elements).
Qed.

Lemma schema_frame d u sh :
  upstream d = Some u → shapes d = Ok sh →
  ∃ sh_u, shapes u = Ok sh_u
          ∧ ∀ k, k ∉ schema_keys d →
                 sh !! k = sh_u !! k ∧ dtypes d !! k = dtypes u !! k.
Proof.
  intros Hu Hsh.
  destruct d as [l|u' L det key|u' tr key|u' nd key p mi ma ai aa nop lk
                 |u' key axis method|u' keys bkeys alpha];
    simpl in Hu; simplify_eq; cbn [shapes dtypes schema_keys] in *.
  - destruct (shapes u) as [sh_u|]; [|done]. cbn [mbind result_bind] in Hsh.
    destruct (sh_u !! key) as [s|]; [|done]. simpl in Hsh. simplify_eq.
    exists sh_u. split; [done|]. intros k Hk.
    apply not_elem_of_singleton in Hk. by rewrite lookup_insert_ne.
  - destruct (shapes u) as [sh_u|]; [|done]. cbn [mbind result_bind] in Hsh.
    exists sh_u. split; [done|]. intros k Hk.
    apply not_elem_of_singleton in Hk.
    rewrite (lookup_insert_ne (dtypes u)) by done. split; [|done].
    destruct tr; [|by simplify_eq].
    destruct (sh_u !! key) as [s|]; [|done]. simpl in Hsh. simplify_eq.
    by rewrite lookup_insert_ne.
  - by exists sh.
  - destruct (shapes u) as [sh_u|]; [|done]. cbn [mbind result_bind] in Hsh.
    destruct (sh_u !! key) as [s|]; [|done]. simpl in Hsh.
    destruct (set_axis_one s axis) as [s'|]; [|done]. simpl in Hsh.
    simplify_eq. exists sh_u. split; [done|]. intros k Hk.
    apply not_elem_of_singleton in Hk. by rewrite lookup_insert_ne.
  - by exists sh.
Qed.

Lemma getattr_forward d u attr :
  upstream d = Some u → defined_attrs d !! attr = None →
  getattr d attr = getattr u attr.
Proof.
  intros Hu Hnone.
  destruct d; simpl in Hu; simplify_eq; cbn [getattr]; by rewrite Hnone.
Qed.

Lemma getattr_layers n d leaf attr :
  nth_upstream n d = Some leaf →
  (∀ i di, i < n → nth_upstream i d = Some di →
           defined_attrs di !! attr = None) →
  getattr d attr = getattr leaf attr.
Proof.
  revert d. induction n as [|n IH]; intros d Hn Hnone.
  { simpl in Hn. by simplify_eq. }
  cbn [nth_upstream] in Hn.
  destruct (upstream d) as [u|] eqn:Hu; [|done]. simpl in Hn.
  rewrite (getattr_forward d u attr Hu) by (apply (Hnone 0); [lia|done]).
  apply IH; [done|]. intros i di Hi Hdi. apply (Hnone (S i)); [lia|].
  cbn [nth_upstream]. by rewrite Hu.
Qed.

(** C3, as amended: a stage declares, for every field outside the ones it
    declares anew, the shape and element type its upstream declares
    ([FixedSizeExcerpts] replaces only the first axis of its key's shape
    and no element type).  In every item that [FixedSizeExcerpts],
    [Floatify], [DownmixChannels] or [MixBackgroundNoise] returns, every
    field outside the stage's key (and, for [MixBackgroundNoise], its
    label keys) has the value of the upstream item at the same index.  In
    every item [Mixup] returns, the fields outside its two key sets have
    the values of one upstream item: the one at the requested index when
    [w1 >= w2], the one at the drawn second index otherwise.  An attribute
    that normal lookup does not find on a stage is looked up on its
    upstream, through any number of layers. *)
Theorem C3_stage_frame d u :
  upstream d = Some u →
  (∀ sh, shapes d = Ok sh →
     ∃ sh_u, shapes u = Ok sh_u
             ∧ ∀ k, k ∉ schema_keys d →
                    sh !! k = sh_u !! k ∧ dtypes d !! k = dtypes u !! k)
  ∧ (∀ L det key sh_u s,
       d = FixedSizeExcerpts u L det key →
       shapes u = Ok sh_u → sh_u !! key = Some s →
       shapes d = Ok (<[key := Some L :: tail s]> sh_u)
       ∧ dtypes d = dtypes u)
  ∧ (¬ is_Mixup d → ∀ idx t item' t',
       getitem d idx t = Done item' t' →
       ∃ item t1, getitem u idx t = Done item t1
                  ∧ ∀ k, k ∉ modified_fields d → item' !! k = item !! k)
  ∧ (is_Mixup d → ∀ idx t item' t',
       getitem d idx t = Done item' t' →
       ∃ item1 idx2 t1 item2 w1,
         getitem u idx t = Done item1 (randint_draw idx2 :: t1)
         ∧ idx2 < num_items u
         ∧ getitem u idx2 t1 = Done item2 (beta_draw w1 :: t')
         ∧ ∀ k, k ∉ modified_fields d →
             item' !! k
             = (if decide (1 - w1 ≤ w1)%Qc then item1 else item2) !! k)
  ∧ (∀ attr, defined_attrs d !! attr = None →
       getattr d attr = getattr u attr)
  ∧ (∀ n leaf attr,
       nth_upstream n d = Some leaf →
       (∀ i di, i < n → nth_upstream i d = Some di →
                defined_attrs di !! attr = None) →
       getattr d attr = getattr leaf attr).
Proof.
  intros Hu. split; [|split; [|split; [|split; [|split]]]].
  - intros sh. by apply schema_frame.
  - intros L det key sh_u s -> Hsh Hs. cbn [shapes dtypes].
    rewrite Hsh. cbn [mbind result_bind]. by rewrite Hs.
  - intros Hnm idx t item' t' Hrun.
    destruct d as [l|u' L det key|u' tr key|u' nd key p mi ma ai aa nop lk
                   |u' key axis method|u' keys bkeys alpha];
      simpl in Hu; simplify_eq; cbn [modified_fields].
    + apply FixedSizeExcerpts_frame in Hrun as (item & t1 & Hup & Hk).
      exists item, t1. split; [done|]. intros k Hnk. apply Hk. set_solver.
    + apply Floatify_frame in Hrun as (item & t1 & Hup & Hk).
      exists item, t1. split; [done|]. intros k Hnk. apply Hk. set_solver.
    + apply MixBackgroundNoise_frame in Hrun as (item & t1 & Hup & Hk).
      exists item, t1. split; [done|]. intros k Hnk. apply Hk; set_solver.
    + apply DownmixChannels_frame in Hrun as (item & t1 & Hup & Hk).
      exists item, t1. split; [done|]. intros k Hnk. apply Hk. set_solver.
    + by destruct Hnm.
  - intros Hm idx t item' t' Hrun.
    destruct d; try done. simpl in Hu. simplify_eq. cbn [modified_fields].
    apply Mixup_frame in Hrun
      as (item1 & idx2 & t1 & item2 & w1 & Hu1 & Hlt & Hu2 & Hk).
    exists item1, idx2, t1, item2, w1. split; [done|]. split; [done|].
    split; [done|]. intros k Hnk. apply Hk; set_solver.
  - intros attr. by apply getattr_forward.
  - intros n leaf attr. apply getattr_layers.
Qed.

Lemma C3_witness :
  getattr (Floatify (FixedSizeExcerpts sampled_dataset 7 false "input")
                    true "input") "sampler"
  = Ok (AObj (PyObject "ClassWeightedRandomSampler")).
Proof.
  pose proof (C3_stage_frame
    (Floatify (FixedSizeExcerpts sampled_dataset 7 false "input") true "input")
    (FixedSizeExcerpts sampled_dataset 7 false "input") eq_refl) as H.
  destruct H as (_ & _ & _ & _ & _ & H).
  rewrite (H 2 sampled_dataset "sampler"); [reflexivity|reflexivity|].
  intros i di Hi Hdi. destruct i as [|[|i]]; [| |lia].
  - injection Hdi as <-. reflexivity.
  - injection Hdi as <-. reflexivity.
Defined.

(** The claim C3 as stated fails for [Mixup]: with the weight 1/4 the
    second item is the base, so the field [itemid], which the stage does
    not name, is that of the upstream item at the drawn index 1 and not
    that of the upstream item at the requested index 0. *)
Lemma C3_counterexample :
  getitem (Mixup label_dataset {["input"]} ∅ quarter) 0
          [randint_draw 1; beta_draw quarter]
  = Done (<["input" := VArr (arr1 float32 [1; 5]%Z)]>
            (label_item "b" [0; 4]%Z [0; 1]%Z)) []
  ∧ getitem label_dataset 0 [randint_draw 1; beta_draw quarter]
    = Done (label_item "a" [4; 8]%Z [1; 0]%Z)
           [randint_draw 1; beta_draw quarter]
  ∧ ("itemid" ∉ modified_fields (Mixup label_dataset {["input"]} ∅ quarter))
  ∧ (<["input" := VArr (arr1 float32 [1; 5]%Z)]>
       (label_item "b" [0; 4]%Z [0; 1]%Z)) !! "itemid"
    ≠ label_item "a" [4; 8]%Z [1; 0]%Z !! "itemid".
Proof.
  split; [by_compute|]. split; [by_compute|]. split; [|by_compute_neq].
  cbn [modified_fields].
  intros [Hin|Hin]%elem_of_union;
    [by apply elem_of_singleton in Hin|by apply elem_of_empty in Hin].
Qed.

(** * Further properties *)

#[local] Set Warnings "-clear-no-such-hyp".

(** ** [common_shape] *)

Lemma merge_shape_lookup shape sh i n :
  merge_shape shape sh !! i = Some (Some n)
  ↔ shape !! i = Some (Some n) ∧ sh !! i = Some n.
Proof.
  unfold merge_shape. rewrite lookup_zip_with.
  destruct (shape !! i) as [d|]; simpl; [|by split; [|intros [? _]]].
  destruct (sh !! i) as [m|]; simpl; [|by split; [|intros [_ ?]]].
  case_decide as Hd; split.
  - intros Heq. by simplify_eq.
  - intros [Heq _]. done.
  - done.
  - intros [Heq Hm]. by simplify_eq.
Qed.

Lemma merge_shape_length shape sh :
  length shape = length sh → length (merge_shape shape sh) = length sh.
Proof. intros H. unfold merge_shape. rewrite length_zip_with. lia. Qed.

Lemma common_shape_fold arrays acc ndim :
  length acc = ndim →
  Forall (λ a, length (arr_shape a) = ndim) arrays →
  let shape := foldl (λ shape array, merge_shape shape (arr_shape array))
                     acc arrays in
  length shape = ndim
  ∧ ∀ i n, shape !! i = Some (Some n)
           ↔ acc !! i = Some (Some n)
             ∧ Forall (λ a, arr_shape a !! i = Some n) arrays.
Proof.
  intros Hacc Hall. revert acc Hacc.
  induction Hall as [|a arrays Ha Hall IH]; intros acc Hacc; simpl.
  { split; [done|]. intros i n. split; [by auto|by intros [? _]]. }
  destruct (IH (merge_shape acc (arr_shape a))) as [Hlen Hiff].
  { rewrite merge_shape_length; congruence. }
  split; [done|]. intros i n. rewrite Hiff, merge_shape_lookup.
  rewrite Forall_cons. tauto.
Qed.

(** X1: [common_shape] of no array raises [StopIteration].  For arrays of
    one dimensionality the result has that many axes, an axis carries a
    size exactly when all arrays have that size on it and is the wildcard
    otherwise, and so every array fits the result. *)
Theorem X1_common_shape :
  common_shape [] = Throws StopIteration
  ∧ ∀ arrays ndim,
      arrays ≠ [] →
      Forall (λ a, length (arr_shape a) = ndim) arrays →
      ∃ shape,
        common_shape arrays = Returns shape
        ∧ length shape = ndim
        ∧ (∀ i n, shape !! i = Some (Some n)
                  ↔ ∀ a, a ∈ arrays → arr_shape a !! i = Some n)
        ∧ Forall (λ a, conforms shape (arr_shape a)) arrays.
Proof.
  split; [done|]. intros arrays ndim Hne Hall.
  destruct arrays as [|first arrays]; [done|].
  apply Forall_cons in Hall as [Hfirst Hall].
  destruct (common_shape_fold arrays (Some <$> arr_shape first) ndim)
    as [Hlen Hiff]; [by rewrite length_fmap|done|].
  eexists. split; [done|]. split; [done|].
  assert (Hagree : ∀ i n,
    foldl (λ shape array, merge_shape shape (arr_shape array))
          (Some <$> arr_shape first) arrays !! i = Some (Some n)
    ↔ ∀ a, a ∈ first :: arrays → arr_shape a !! i = Some n).
  { intros i n. rewrite Hiff, list_lookup_fmap, Forall_forall.
    split.
    - intros [Hf Hrest] a Ha. apply elem_of_cons in Ha as [->|Ha]; [|by auto].
      destruct (arr_shape first !! i); by simplify_eq/=.
    - intros H. split; [|intros a Ha; apply H; by right].
      rewrite (H first) by left. done. }
  split; [done|].
  apply Forall_forall. intros a Ha. unfold conforms.
  apply Forall2_same_length_lookup. split.
  - rewrite Hlen. symmetry.
    assert (Forall (λ a, length (arr_shape a) = ndim) (first :: arrays))
      as Hall' by (by constructor).
    rewrite Forall_forall in Hall'. by apply Hall'.
  - intros i d n Hd Hn. destruct d as [m|]; [right|by left].
    pose proof (proj1 (Hagree i m) Hd a Ha) as Hm.
    rewrite Hm in Hn. by simplify_eq.
Qed.

Lemma X1_witness :
  ∃ shape,
    common_shape [Array int16 [3; 2] []; Array int16 [5; 2] []]
    = Returns shape
    ∧ shape !! 1 = Some (Some 2)
    ∧ Forall (λ a, conforms shape (arr_shape a))
             [Array int16 [3; 2] []; Array int16 [5; 2] []].
Proof.
  destruct X1_common_shape as [_ H].
  destruct (H [Array int16 [3; 2] []; Array int16 [5; 2] []] 2)
    as (shape & Hrun & _ & Hiff & Hfit); [done|by repeat constructor|].
  exists shape. split; [done|]. split; [|done].
  apply Hiff. intros a Ha.
  apply elem_of_cons in Ha as [->|Ha]; [done|].
  apply list_elem_of_singleton in Ha as ->. done.
Defined.

(** ** [NoiseDataset] *)

Lemma mapM_result_ok {A B} (f : A → result B) (g : A → B) (l : list A) :
  Forall (λ x, f x = Ok (g x)) l → mapM f l = Ok (g <$> l).
Proof.
  induction 1 as [|x l Hx Hl IH]; [done|].
  simpl. rewrite Hx. simpl. rewrite IH. done.
Qed.

Lemma py_slice_in_bounds a n rest start len :
  arr_shape a = n :: rest →
  (0 ≤ start)%Z → (0 ≤ len)%Z → (start + len ≤ Z.of_nat n)%Z →
  py_slice a start (start + len) = window a (Z.to_nat start) (Z.to_nat len).
Proof.
  intros Hs H0 Hl Hn. unfold py_slice. rewrite Hs.
  unfold py_slice_bound. rewrite !decide_False by lia.
  replace (Z.to_nat (Z.min (start + len) (Z.of_nat n)))
    with (Z.to_nat start + Z.to_nat len) by lia.
  replace (Z.to_nat (Z.min start (Z.of_nat n))) with (Z.to_nat start) by lia.
  apply (slice0_window a n rest); [done|lia].
Qed.

Lemma window_whole a n rest :
  arr_shape a = n :: rest → wf_array a → window a 0 n = a.
Proof.
  intros Hs Hwf. unfold window, row_size. rewrite Hs. simpl.
  rewrite drop_0, take_ge.
  - destruct a; simpl in *; by subst.
  - unfold wf_array, size in Hwf. rewrite Hs in Hwf. simpl in Hwf. lia.
Qed.

Lemma window_shape a n rest pos L :
  arr_shape a = n :: rest → wf_array a → pos + L ≤ n →
  arr_shape (window a pos L) = L :: rest
  ∧ arr_dtype (window a pos L) = arr_dtype a
  ∧ wf_array (window a pos L).
Proof.
  intros Hs Hwf Hle. unfold window, wf_array, size, row_size in *.
  rewrite Hs in *. simpl in *. split; [done|]. split; [done|].
  rewrite length_take, length_drop, Hwf. nia.
Qed.

Lemma NoiseDataset_getitem_run segments idx wav start len t :
  segments !! idx = Some (wav, start, len) →
  NoiseDataset_getitem segments idx t
  = Done {[ "input" := VArr (py_slice wav start (start + len)) ]} t.
Proof. intros H. unfold NoiseDataset_getitem. by rewrite H. Qed.

Lemma NoiseDataset_getitem_out_of_range segments idx t :
  length segments ≤ idx →
  NoiseDataset_getitem segments idx t = Raised IndexError.
Proof.
  intros H. unfold NoiseDataset_getitem. by rewrite lookup_ge_None_2.
Qed.

(** X2: without a list of segments every wave file is one item, whatever
    [min_length] is: the dataset has as many items as wave files, item
    [idx] is the whole of file [idx], no random draw is made, and an index
    past the end raises [IndexError]. *)
Theorem X2_noise_dataset_whole_files wavs min_length :
  wavs ≠ [] →
  Forall (λ w, wf_array w ∧ arr_shape w ≠ []) wavs →
  ∃ d,
    NoiseDataset wavs None min_length = Returns d
    ∧ num_items d = length wavs
    ∧ (∀ idx wav t, wavs !! idx = Some wav →
         getitem d idx t = Done {[ "input" := VArr wav ]} t)
    ∧ (∀ idx t, length wavs ≤ idx → getitem d idx t = Raised IndexError).
Proof.
  intros Hne Hall.
  destruct wavs as [|first wavs]; [done|].
  set (ws := first :: wavs) in *.
  set (g := λ wav : ndarray,
              (wav, 0%Z, Z.of_nat (hd 0 (arr_shape wav)))).
  assert (Hsegs : noise_segments ws None min_length = Ok (g <$> ws)).
  { unfold noise_segments. apply mapM_result_ok.
    eapply Forall_impl; [exact Hall|]. intros w [_ Hs]. unfold np_len, g.
    by destruct (arr_shape w). }
  eexists. split.
  { unfold NoiseDataset. cbn [common_shape ws mbind try_bind].
    cbn [lookup list_lookup of_option of_result]. fold ws.
    rewrite Hsegs. done. }
  split; [by cbn [num_items leaf_num_items]; rewrite length_fmap|].
  split.
  - intros idx wav t Hidx. cbn [getitem leaf_getitem].
    rewrite (NoiseDataset_getitem_run _ idx wav 0%Z
               (Z.of_nat (hd 0 (arr_shape wav))))
      by (by rewrite list_lookup_fmap, Hidx).
    rewrite Forall_forall in Hall.
    destruct (Hall wav) as [Hwf Hs]; [by eapply list_elem_of_lookup_2|].
    destruct (arr_shape wav) as [|n rest] eqn:Hshape; [done|]. simpl.
    rewrite (py_slice_in_bounds wav n rest) by (done || lia).
    rewrite Nat2Z.id. change (Z.to_nat 0) with 0.
    by rewrite (window_whole wav n rest).
  - intros idx t Hidx. cbn [getitem leaf_getitem].
    apply NoiseDataset_getitem_out_of_range. by rewrite length_fmap.
Qed.

Lemma X2_witness :
  ∃ d,
    NoiseDataset [arr1 int16 [1; 2; 3]%Z; arr1 int16 [4; 5]%Z] None (qz 5)
    = Returns d
    ∧ num_items d = 2
    ∧ getitem d 1 [] = Done {[ "input" := VArr (arr1 int16 [4; 5]%Z) ]} [].
Proof.
  destruct (X2_noise_dataset_whole_files
              [arr1 int16 [1; 2; 3]%Z; arr1 int16 [4; 5]%Z] (qz 5))
    as (d & Hd & Hn & Hitem & _); [done|by repeat constructor|].
  exists d. split; [done|]. split; [done|]. by apply Hitem.
Defined.

Lemma elem_of_zip_lookup {A B} (l : list A) (k : list B) x y :
  (x, y) ∈ zip l k ↔ ∃ i, l !! i = Some x ∧ k !! i = Some y.
Proof.
  rewrite list_elem_of_lookup. split.
  - intros [i Hi]. exists i. apply lookup_zip_with_Some in Hi
      as (x' & y' & Heq & Hx & Hy). by simplify_eq.
  - intros (i & Hx & Hy). exists i. apply lookup_zip_with_Some. eauto.
Qed.

(** X3: with a list of segments per wave file the items are the segments
    of at least [min_length] samples, each taken from its own file (files
    without a list of segments and lists without a file are left out);
    item [idx] is the slice [wav[start:start + length]], which has exactly
    [length] rows when the segment lies within the file; no random draw is
    made, and an index past the end raises [IndexError]. *)
Theorem X3_noise_dataset_segments wavs segments_per_wav min_length :
  wavs ≠ [] →
  ∃ d,
    NoiseDataset wavs (Some segments_per_wav) min_length = Returns d
    ∧ (∀ idx t, num_items d ≤ idx → getitem d idx t = Raised IndexError)
    ∧ (∀ idx, idx < num_items d →
         ∃ i wav segments start len,
           wavs !! i = Some wav ∧ segments_per_wav !! i = Some segments
           ∧ (start, len) ∈ segments ∧ (min_length ≤ qz len)%Qc
           ∧ (∀ t, getitem d idx t
                   = Done {[ "input" :=
                               VArr (py_slice wav start (start + len)) ]} t)
           ∧ (∀ n rest, arr_shape wav = n :: rest → wf_array wav →
                (0 ≤ start)%Z → (0 ≤ len)%Z →
                (start + len ≤ Z.of_nat n)%Z →
                arr_shape (py_slice wav start (start + len))
                = Z.to_nat len :: rest
                ∧ wf_array (py_slice wav start (start + len))))
    ∧ (∀ i wav segments start len,
         wavs !! i = Some wav → segments_per_wav !! i = Some segments →
         (start, len) ∈ segments → (min_length ≤ qz len)%Qc →
         ∃ idx, idx < num_items d
                ∧ ∀ t, getitem d idx t
                       = Done {[ "input" :=
                                   VArr (py_slice wav start (start + len)) ]}
                              t).
Proof.
  intros Hne. destruct wavs as [|first wavs]; [done|].
  set (ws := first :: wavs) in *.
  set (kept := '(wav, segments) ← zip ws segments_per_wav;
               '(start, length) ← segments;
               if decide (min_length ≤ qz length)%Qc
               then [(wav, start, length)] else []).
  assert (Hkept : ∀ wav start len,
    (wav, start, len) ∈ kept
    ↔ ∃ i segments, ws !! i = Some wav
        ∧ segments_per_wav !! i = Some segments
        ∧ (start, len) ∈ segments ∧ (min_length ≤ qz len)%Qc).
  { intros wav start len. unfold kept. rewrite list_elem_of_bind. split.
    - intros ([wav' segments] & Hin & Hzip).
      apply elem_of_zip_lookup in Hzip as (i & Hw & Hs).
      apply list_elem_of_bind in Hin as ([start' len'] & Hin & Hseg).
      case_decide; [|by apply elem_of_nil in Hin].
      apply list_elem_of_singleton in Hin. simplify_eq.
      by exists i, segments.
    - intros (i & segments & Hw & Hs & Hseg & Hmin).
      exists (wav, segments). split; [|apply elem_of_zip_lookup; eauto].
      apply list_elem_of_bind. exists (start, len). split; [|done].
      rewrite decide_True by done. left. }
  exists (Leaf (Leaf_ {[ "input" :=
                          foldl (λ shape array,
                                   merge_shape shape (arr_shape array))
                                (Some <$> arr_shape first) wavs ]}
                      {[ "input" := np_dtype (arr_dtype first) ]}
                      0 (length kept)
                      (NoiseDataset_getitem kept)
                      {[ "segments" := PyObject "list" ]})).
  split; [done|]. cbn [num_items leaf_num_items getitem leaf_getitem].
  split; [|split].
  - intros idx t Hidx. by apply NoiseDataset_getitem_out_of_range.
  - intros idx Hidx.
    destruct (lookup_lt_is_Some_2 kept idx Hidx) as [[[wav start] len] Hseg].
    destruct (proj1 (Hkept wav start len)) as (i & segments & Hw & Hs & Hin & Hm).
    { by eapply list_elem_of_lookup_2. }
    exists i, wav, segments, start, len.
    split; [done|]. split; [done|]. split; [done|]. split; [done|]. split.
    + intros t. by apply NoiseDataset_getitem_run.
    + intros n rest Hshape Hwf H0 Hl Hn.
      rewrite (py_slice_in_bounds wav n rest) by done.
      destruct (window_shape wav n rest (Z.to_nat start) (Z.to_nat len))
        as (? & _ & ?); [done|done|lia|done].
  - intros i wav segments start len Hw Hs Hin Hm.
    assert ((wav, start, len) ∈ kept) as Hel
      by (apply Hkept; by exists i, segments).
    apply list_elem_of_lookup in Hel as [idx Hidx].
    exists idx. split; [by eapply lookup_lt_Some|].
    intros t. by apply NoiseDataset_getitem_run.
Qed.

Lemma X3_witness :
  ∃ d,
    NoiseDataset [arr1 int16 [1; 2; 3; 4; 5]%Z]
                 (Some [[(0, 0); (1, 3)]%Z]) (qz 2) = Returns d
    ∧ num_items d = 1
    ∧ getitem d 0 [] = Done {[ "input" := VArr (arr1 int16 [2; 3; 4]%Z) ]} [].
Proof.
  destruct (X3_noise_dataset_segments [arr1 int16 [1; 2; 3; 4; 5]%Z]
              [[(0, 0); (1, 3)]%Z] (qz 2)) as (d & Hd & _); [done|].
  exists d. split; [exact Hd|].
  injection Hd as <-. split; [by_compute|by_compute].
Defined.

(** ** More on the segment detector *)

Lemma sweep_within L evs t c :
  StronglySorted offset_le evs →
  Forall (λ ev, t ≤ ev.1 ≤ L)%Z evs → (t ≤ L)%Z →
  Forall (λ seg, t ≤ seg.1 ∧ 0 ≤ seg.2 ∧ seg.1 + seg.2 ≤ L)%Z
         (sweep t c (evs ++ [(L, 0%Z)]))
  ∧ StronglySorted (λ x y, x.1 + x.2 ≤ y.1)%Z
                   (sweep t c (evs ++ [(L, 0%Z)])).
Proof.
  intros Hsorted. revert t c.
  induction Hsorted as [|[t' c'] evs Hs IH Hhd]; intros t c Hall HtL.
  - simpl. case_decide; [|by split; constructor].
    split; repeat constructor; simpl; lia.
  - apply Forall_cons in Hall as [Ht' Hall]. simpl in Ht'.
    destruct (IH t' (c + c')%Z) as [Hin Hord]; [|lia|].
    { apply Forall_forall. intros ev Hev.
      rewrite Forall_forall in Hhd, Hall.
      specialize (Hhd ev Hev). specialize (Hall ev Hev).
      unfold offset_le in Hhd. simpl in Hhd. lia. }
    simpl app. rewrite sweep_cons.
    assert (Hrest : Forall (λ seg, t ≤ seg.1 ∧ 0 ≤ seg.2 ∧ seg.1 + seg.2 ≤ L)%Z
                      (sweep t' (c + c') (evs ++ [(L, 0%Z)]))).
    { eapply Forall_impl; [exact Hin|]. simpl. intros seg ?. lia. }
    case_decide; simpl; [|done].
    split.
    + constructor; [simpl; lia|done].
    + constructor; [done|].
      eapply Forall_impl; [exact Hin|]. simpl. intros seg ?. lia.
Qed.

(** X4: when every call begins and ends within the recording, every
    segment the detector returns lies within the recording and has a
    length that is not negative, and the segments come in order without
    overlap: each ends at or before the start of every later one. *)
Theorem X4_segments_within_recording df sample_rate L beginnings endings :
  call_intervals df = Ok (beginnings, endings) →
  Forall (λ x, 0 ≤ x ≤ L)%Z (to_samples sample_rate beginnings) →
  Forall (λ x, 0 ≤ x ≤ L)%Z (to_samples sample_rate endings) →
  (0 ≤ L)%Z →
  ∃ segments,
    read_noise_csv df sample_rate L = Ok segments
    ∧ Forall (λ seg, 0 ≤ seg.1 ∧ 0 ≤ seg.2 ∧ seg.1 + seg.2 ≤ L)%Z segments
    ∧ StronglySorted (λ x y, x.1 + x.2 ≤ y.1)%Z segments.
Proof.
  intros Hdf Hb He HL. eexists. split.
  { unfold read_noise_csv. rewrite Hdf. simpl. reflexivity. }
  rewrite inactive_segments_sweep.
  apply sweep_within; [| |done].
  - eapply StronglySorted_weaken; [apply tuple_le_offset_le|].
    apply sorted_StronglySorted.
  - apply Forall_forall. intros ev Hev.
    rewrite sorted_Permutation in Hev. unfold change_events in Hev.
    apply elem_of_app in Hev as [Hev|Hev];
      apply list_elem_of_fmap in Hev as (x & -> & Hx); simpl.
    + rewrite Forall_forall in Hb. by apply Hb.
    + rewrite Forall_forall in He. by apply He.
Qed.

Lemma X4_witness :
  ∃ segments,
    read_noise_csv (interval_table 1 [0; 5]%Z [10; 15]%Z) 1 30 = Ok segments
    ∧ Forall (λ seg, 0 ≤ seg.1 ∧ 0 ≤ seg.2 ∧ seg.1 + seg.2 ≤ 30)%Z segments.
Proof.
  destruct (X4_segments_within_recording
              (interval_table 1 [0; 5]%Z [10; 15]%Z) 1 30 _ _
              (call_intervals_interval_table 1 [0; 5]%Z [10; 15]%Z))
    as (segments & Hrun & Hin & _).
  - apply (bool_decide_eq_true_1 _). vm_compute. reflexivity.
  - apply (bool_decide_eq_true_1 _). vm_compute. reflexivity.
  - lia.
  - by exists segments.
Defined.

(** X5: a table with neither layout makes the detector raise
    [ValueError]; a table with both layouts is read as time points; a
    table of a known layout without rows gives the whole recording as the
    one segment. *)
Theorem X5_table_layouts (df : DataFrame) sample_rate L :
  ((df !! "Time (s)" = None ∨ df !! "Freq (Hz)" = None) →
   (df !! "Begin Time (s)" = None ∨ df !! "End Time (s)" = None) →
   read_noise_csv df sample_rate L = Err ValueError)
  ∧ (∀ time freq, df !! "Time (s)" = Some time →
       df !! "Freq (Hz)" = Some freq →
       read_noise_csv df sample_rate L
       = read_noise_csv
           ({[ "Time (s)" := time; "Freq (Hz)" := freq ]}
              : gmap string (list Qc)) sample_rate L)
  ∧ (df !! "Time (s)" = Some [] → is_Some (df !! "Freq (Hz)") →
     read_noise_csv df sample_rate L = Ok [(0, L)%Z])
  ∧ ((df !! "Time (s)" = None ∨ df !! "Freq (Hz)" = None) →
     df !! "Begin Time (s)" = Some [] → df !! "End Time (s)" = Some [] →
     read_noise_csv df sample_rate L = Ok [(0, L)%Z]).
Proof.
  unfold read_noise_csv, call_intervals. split; [|split; [|split]].
  - intros [->| ->] [->| ->]; repeat case_match; done.
  - intros time freq -> ->.
    unfold DataFrame. rewrite lookup_insert_eq, lookup_insert_ne by done.
    by rewrite lookup_singleton_eq.
  - intros -> [freq ->]. cbn [fmap list_fmap mbind result_bind to_samples].
    rewrite inactive_segments_sweep.
    change (sorted (change_events [] [])) with ([] : list (Z * Z)).
    simpl. by rewrite Z.sub_0_r.
  - intros Hpoint Hb He. rewrite Hb, He.
    assert (Hfin : (Ok ([] : list Qc, [] : list Qc)
                    ≫= λ '(beginnings, endings),
                         Ok (inactive_segments
                               (sorted (change_events
                                  (to_samples sample_rate beginnings)
                                  (to_samples sample_rate endings))) L))
                   = Ok [(0, L)%Z]).
    { cbn [fmap list_fmap mbind result_bind to_samples].
      rewrite inactive_segments_sweep.
      change (sorted (change_events [] [])) with ([] : list (Z * Z)).
      simpl. by rewrite Z.sub_0_r. }
    destruct Hpoint as [->| ->]; [exact Hfin|].
    destruct (df !! "Time (s)"); exact Hfin.
Qed.

Lemma X5_witness :
  read_noise_csv {[ "Begin Time (s)" := [] ]} 1 30 = Err ValueError
  ∧ read_noise_csv (interval_table 1 [] []) 1 30 = Ok [(0, 30)%Z].
Proof.
  split.
  - apply (X5_table_layouts {[ "Begin Time (s)" := [] ]} 1 30);
      [by left|by right].
  - apply (X5_table_layouts (interval_table 1 [] []) 1 30);
      [by left|done|done].
Defined.

(** ** More on [FixedSizeExcerpts] *)

Lemma FixedSizeExcerpts_rows u L det key idx t item t1 a n rest item' t' :
  getitem u idx t = Done item t1 →
  item !! key = Some (VArr a) →
  arr_shape a = n :: rest → wf_array a →
  getitem (FixedSizeExcerpts u L det key) idx t = Done item' t' →
  ∃ a', item' = <[key := VArr a']> item
        ∧ arr_shape a' = L :: rest
        ∧ arr_dtype a' = arr_dtype a
        ∧ wf_array a'.
Proof.
  intros Hu Hk Hs Hwf.
  rewrite (FixedSizeExcerpts_getitem u L det key idx t item t1 (VArr a) n);
    [|done|done|by apply (np_len_shape _ _ rest)].
  assert (Hlen : length (arr_data a) = n * prod_list rest).
  { unfold wf_array, size in Hwf. by rewrite Hs in Hwf. }
  destruct (decide (n < L)) as [Hlt|Hge].
  - cbn [loop_value]. rewrite (loop_shorter a L n rest) by done.
    intros H. apply mret_inv in H as [<- _].
    eexists. split; [done|]. split; [done|]. split; [done|].
    unfold wf_array, size. simpl. case_decide.
    + by rewrite length_replicate.
    + by apply tiled_then_partial_length.
  - destruct (decide (L < n)) as [Hlt|Heq].
    + cbn [crop_value]. intros H.
      apply run_bind_inv in H as (v & t2 & H & Hret).
      apply mret_inv in Hret as [<- _].
      apply run_bind_inv in H as (a' & t3 & H & Hret).
      apply mret_inv in Hret as [<- _].
      exists a'. split; [done|].
      destruct det.
      * rewrite (crop_deterministic a n rest) in H by done.
        injection H as <- _.
        destruct (center_bounds n L Hlt) as [_ Hle].
        by apply (window_shape a n rest).
      * apply (crop_random_inv a n rest) in H as (pos & Hpos & _ & ->);
          [|done..].
        apply (window_shape a n rest); [done|done|lia].
    + intros H. apply run_bind_inv in H as (v & t2 & H & Hret).
      apply mret_inv in H as [<- _]. apply mret_inv in Hret as [<- _].
      exists a. split; [done|]. split; [|done].
      rewrite Hs. f_equal. lia.
Qed.

Lemma FixedSizeExcerpts_deterministic_run u L key idx t item t1 a n rest :
  getitem u idx t = Done item t1 →
  item !! key = Some (VArr a) →
  arr_shape a = n :: rest → wf_array a →
  ∃ a', getitem (FixedSizeExcerpts u L true key) idx t
        = Done (<[key := VArr a']> item) t1.
Proof.
  intros Hu Hk Hs Hwf.
  rewrite (FixedSizeExcerpts_getitem u L true key idx t item t1 (VArr a) n);
    [|done|done|by apply (np_len_shape _ _ rest)].
  destruct (decide (n < L)) as [Hlt|Hge].
  - cbn [loop_value]. rewrite (loop_shorter a L n rest) by done.
    by eexists.
  - destruct (decide (L < n)) as [Hlt|Heq].
    + cbn [crop_value].
      rewrite (run_bind _ _ t1 (VArr (window a ((n - L) `div` 2) L)) t1);
        [by eexists|].
      by rewrite (run_bind _ _ _ _ _ (crop_deterministic a n rest L t1 Hs Hlt)).
    + by exists a.
Qed.

Lemma conforms_first_axis s n rest L :
  conforms s (n :: rest) → conforms (Some L :: tail s) (L :: rest).
Proof.
  unfold conforms. intros H. inv H. constructor; [by right|done].
Qed.

(** X6: for an array field, every item [FixedSizeExcerpts] returns has
    exactly [length] rows in that field, whether the source was looped,
    cropped or left alone; the element type and the other axes are those
    of the source, and the array fits the shape the stage declares.  In
    deterministic mode the access always returns and makes no random
    draw. *)
Theorem X6_fixed_size_rows u L det key idx t item t1 a n rest :
  getitem u idx t = Done item t1 →
  item !! key = Some (VArr a) →
  arr_shape a = n :: rest → wf_array a →
  (∀ item' t',
     getitem (FixedSizeExcerpts u L det key) idx t = Done item' t' →
     ∃ a', item' = <[key := VArr a']> item
           ∧ arr_shape a' = L :: rest
           ∧ arr_dtype a' = arr_dtype a
           ∧ wf_array a'
           ∧ ∀ s, conforms s (arr_shape a) →
                  conforms (Some L :: tail s) (arr_shape a'))
  ∧ ∃ a', getitem (FixedSizeExcerpts u L true key) idx t
          = Done (<[key := VArr a']> item) t1.
Proof.
  intros Hu Hk Hs Hwf. split.
  - intros item' t' Hrun.
    destruct (FixedSizeExcerpts_rows u L det key idx t item t1 a n rest
                item' t') as (a' & -> & Hs' & Hdt & Hwf'); [done..|].
    exists a'. split; [done|]. split; [done|]. split; [done|].
    split; [done|]. intros s. rewrite Hs, Hs'. apply conforms_first_axis.
  - by apply (FixedSizeExcerpts_deterministic_run u L key idx t item t1 a
                n rest).
Qed.

Lemma X6_witness :
  ∃ a', getitem (FixedSizeExcerpts (audio_dataset [[1; 2; 3]%Z]) 7 true
                                   "input") 0 []
        = Done (<["input" := VArr a']> (audio_item [1; 2; 3]%Z)) [].
Proof.
  destruct (X6_fixed_size_rows (audio_dataset [[1; 2; 3]%Z]) 7 false "input"
              0 [] (audio_item [1; 2; 3]%Z) [] (arr1 int16 [1; 2; 3]%Z) 3 [])
    as [_ H]; [reflexivity|reflexivity|reflexivity|reflexivity|exact H].
Defined.

(** X7: a second [FixedSizeExcerpts] of the same length on the same key
    changes nothing: whatever item the first returns, the second returns
    that item, in either mode and without a random draw of its own. *)
Theorem X7_fixed_size_twice u L det det' key idx t item t1 a n rest item' t' :
  getitem u idx t = Done item t1 →
  item !! key = Some (VArr a) →
  arr_shape a = n :: rest → wf_array a →
  getitem (FixedSizeExcerpts u L det key) idx t = Done item' t' →
  getitem (FixedSizeExcerpts (FixedSizeExcerpts u L det key) L det' key) idx t
  = Done item' t'.
Proof.
  intros Hu Hk Hs Hwf Hrun.
  destruct (FixedSizeExcerpts_rows u L det key idx t item t1 a n rest
              item' t') as (a' & -> & Hs' & _); [done..|].
  rewrite (FixedSizeExcerpts_getitem (FixedSizeExcerpts u L det key) L det'
             key idx t (<[key := VArr a']> item) t' (VArr a') L);
    [|done|apply lookup_insert_eq|by apply (np_len_shape _ _ rest)].
  rewrite !decide_False by lia.
  unfold mbind, py_bind, mret, py_ret. by rewrite insert_insert_eq.
Qed.

Lemma X7_witness :
  getitem (FixedSizeExcerpts
             (FixedSizeExcerpts (audio_dataset [[0; 1; 2; 3; 4; 5]%Z]) 4 false
                                "input") 4 false "input") 0 [randint_draw 2]
  = Done (audio_item [2; 3; 4; 5]%Z) [].
Proof.
  apply (X7_fixed_size_twice (audio_dataset [[0; 1; 2; 3; 4; 5]%Z]) 4 false
           false "input" 0 [randint_draw 2] (audio_item [0; 1; 2; 3; 4; 5]%Z)
           [randint_draw 2] (arr1 int16 [0; 1; 2; 3; 4; 5]%Z) 6 []);
    [reflexivity|reflexivity|reflexivity|reflexivity|by_compute].
Defined.

(** ** More on [Floatify] *)

Lemma prod_list_app l1 l2 : prod_list (l1 ++ l2) = prod_list l1 * prod_list l2.
Proof.
  unfold prod_list. induction l1 as [|x l1 IH]; simpl; [lia|].
  rewrite IH. lia.
Qed.

Lemma prod_list_reverse l : prod_list (reverse l) = prod_list l.
Proof.
  induction l as [|x l IH]; [done|].
  rewrite reverse_cons, prod_list_app, IH. unfold prod_list. simpl. lia.
Qed.

Lemma Floatify_getitem u tr key idx t item t1 a :
  getitem u idx t = Done item t1 →
  item !! key = Some (VArr a) →
  getitem (Floatify u tr key) idx t
  = Done (<[key := VArr (to_float (if tr then np_transpose a else a))]> item)
         t1.
Proof.
  intros Hu Hk. cbn [getitem]. rewrite (run_bind _ _ _ _ _ Hu).
  unfold get_field. rewrite Hk. done.
Qed.

(** X8: [Floatify] declares float32 for its key and returns a float32
    array there, with the axes of the source in reverse order when
    [transpose] is set and unchanged otherwise, so that the array fits the
    declared shape whenever the source fitted its own; the access makes no
    random draw.  Two transposing stages declare the shapes of their
    upstream again.  With [transpose] set the constructor raises
    [KeyError] when the upstream declares no shape for the key. *)
Theorem X8_floatify u tr key :
  dtypes (Floatify u tr key) !! key = Some (np_dtype float32)
  ∧ (∀ sh s, shapes u = Ok sh → sh !! key = Some s →
       shapes (Floatify u tr key)
       = Ok (<[key := if tr then reverse s else s]> sh)
       ∧ shapes (Floatify (Floatify u true key) true key) = Ok sh)
  ∧ (∀ sh, shapes u = Ok sh → sh !! key = None →
       shapes (Floatify u true key) = Err KeyError
       ∧ shapes (Floatify u false key) = Ok sh)
  ∧ (∀ idx t item t1 a,
       getitem u idx t = Done item t1 → item !! key = Some (VArr a) →
       ∃ a',
         getitem (Floatify u tr key) idx t
         = Done (<[key := VArr a']> item) t1
         ∧ arr_dtype a' = float32
         ∧ arr_shape a'
           = (if tr then reverse (arr_shape a) else arr_shape a)
         ∧ (wf_array a → wf_array a')
         ∧ ∀ s, conforms s (arr_shape a) →
                conforms (if tr then reverse s else s) (arr_shape a')).
Proof.
  split; [apply lookup_insert_eq|]. split; [|split].
  - intros sh s Hsh Hs. cbn [shapes]. rewrite Hsh.
    cbn [mbind result_bind]. rewrite Hs. cbn [of_option mbind result_bind].
    rewrite lookup_insert_eq. cbn [of_option mbind result_bind].
    split.
    + destruct tr; [done|]. by rewrite insert_id.
    + by rewrite insert_insert_eq, reverse_involutive, insert_id.
  - intros sh Hsh Hs. cbn [shapes]. rewrite Hsh.
    cbn [mbind result_bind]. by rewrite Hs.
  - intros idx t item t1 a Hu Hk. eexists. split.
    { by apply Floatify_getitem. }
    split; [done|]. split; [by destruct tr|]. split.
    + unfold wf_array, size, to_float. simpl. rewrite length_fmap.
      destruct tr; [|done].
      intros _. simpl. by rewrite length_fmap, length_seq, prod_list_reverse.
    + intros s Hc. destruct tr; [|done]. simpl. by apply Forall2_reverse.
Qed.

Lemma X8_witness :
  ∃ a',
    getitem (Floatify (list_dataset {[ "input" := [Some 2; None] ]}
                                    {[ "input" := np_dtype float32 ]}
                                    [stereo_item]) true "input") 0 []
    = Done (<["input" := VArr a']> stereo_item) []
    ∧ arr_shape a' = [2; 2] ∧ arr_dtype a' = float32.
Proof.
  destruct (X8_floatify (list_dataset {[ "input" := [Some 2; None] ]}
                                      {[ "input" := np_dtype float32 ]}
                                      [stereo_item]) true "input")
    as (_ & _ & _ & H).
  destruct (H 0 [] stereo_item []
              (Array float32 [2; 2] (qz <$> [2; 2; 4; 4]%Z)))
    as (a' & Hrun & Hdt & Hs & _); [reflexivity|reflexivity|].
  exists a'. split; [done|]. split; [by rewrite Hs|done].
Defined.

(** ** Errors and lengths through the layers *)

Lemma getitem_upstream_raised d u idx t e :
  upstream d = Some u → getitem u idx t = Raised e →
  getitem d idx t = Raised e.
Proof.
  intros Hu Hr.
  destruct d; simpl in Hu; simplify_eq; cbn [getitem];
    unfold mbind at 1, py_bind at 1; by rewrite Hr.
Qed.

Lemma num_items_upstream d u : upstream d = Some u → num_items d = num_items u.
Proof. intros Hu. destruct d; simpl in Hu; by simplify_eq. Qed.

(** X9: through any number of wrapping stages the length of a dataset is
    that of the innermost dataset, and an exception that dataset raises
    for an index (such as [IndexError] past the end) is raised by the
    outermost stage for that index. *)
Theorem X9_errors_pass_through n d inner :
  nth_upstream n d = Some inner →
  num_items d = num_items inner
  ∧ num_classes d = num_classes inner
  ∧ ∀ idx t e, getitem inner idx t = Raised e → getitem d idx t = Raised e.
Proof.
  revert d. induction n as [|n IH]; intros d Hn.
  { simpl in Hn. by simplify_eq. }
  cbn [nth_upstream] in Hn.
  destruct (upstream d) as [u|] eqn:Hu; [|done]. simpl in Hn.
  destruct (IH u Hn) as (Hlen & Hcls & Herr).
  split; [by rewrite (num_items_upstream d u)|]. split.
  - rewrite <- Hcls. destruct d; simpl in Hu; by simplify_eq.
  - intros idx t e He. apply (getitem_upstream_raised d u); [done|].
    by apply Herr.
Qed.

Lemma X9_witness :
  getitem (Floatify (FixedSizeExcerpts (audio_dataset [[1; 2; 3]%Z]) 7 false
                                       "input") true "input") 5 []
  = Raised IndexError.
Proof.
  destruct (X9_errors_pass_through 2
              (Floatify (FixedSizeExcerpts (audio_dataset [[1; 2; 3]%Z]) 7
                                           false "input") true "input")
              (audio_dataset [[1; 2; 3]%Z]) eq_refl) as (_ & _ & H).
  by apply H.
Defined.

(** ** The amplitude of the noise *)
















(** ** More on [DownmixChannels] *)

Lemma dirichlet_ones_inv n ws t t' :
  dirichlet_ones n t = Done ws t' →
  t = dirichlet_draw ws :: t' ∧ length ws = n
  ∧ Forall (λ w, 0 ≤ w)%Qc ws ∧ Qc_sum ws = 1%Qc.
Proof.
  unfold dirichlet_ones. destruct t as [|[| | |ws'] t0]; try done.
  destruct (bool_decide (length ws' = n)) eqn:Hlen; [|done].
  destruct (forallb (λ w, bool_decide (0 ≤ w)%Qc) ws') eqn:Hpos; [|done].
  destruct (bool_decide (Qc_sum ws' = 1%Qc)) eqn:Hsum; [|done].
  simpl. intros Heq. simplify_eq.
  apply bool_decide_eq_true_1 in Hlen, Hsum.
  split; [done|]. split; [done|]. split; [|done].
  apply Forall_forall. intros w Hw.
  rewrite forallb_forall in Hpos. apply list_elem_of_In in Hw.
  specialize (Hpos w Hw). by apply bool_decide_eq_true_1 in Hpos.
Qed.

Lemma dirichlet_ones_run ws t :
  Forall (λ w, 0 ≤ w)%Qc ws → Qc_sum ws = 1%Qc →
  dirichlet_ones (length ws) (dirichlet_draw ws :: t) = Done ws t.
Proof.
  intros Hpos Hsum. unfold dirichlet_ones.
  rewrite !bool_decide_eq_true_2 by done.
  assert (forallb (λ w, bool_decide (0 ≤ w)%Qc) ws = true) as ->; [|done].
  apply forallb_forall. intros w Hw. apply list_elem_of_In in Hw.
  rewrite Forall_forall in Hpos. by apply bool_decide_eq_true_2, Hpos.
Qed.

Lemma bind_seq_length {A} (g : nat → nat → A) N M s :
  length (seq s N ≫= λ o, seq 0 M ≫= λ i, [g o i]) = N * M.
Proof.
  assert (Hinner : ∀ o', (seq 0 M ≫= λ i, [g o' i]) = g o' <$> seq 0 M).
  { intros o'. induction (seq 0 M) as [|x l IH]; [done|].
    rewrite bind_cons, IH. done. }
  revert s. induction N as [|N IH]; intros s; [done|].
  simpl seq. rewrite bind_cons, length_app, IH, Hinner.
  rewrite length_fmap, length_seq. lia.
Qed.

Lemma reduce_axis_length g shape k data :
  length (reduce_axis g shape k data)
  = prod_list (take k shape) * prod_list (drop (S k) shape).
Proof. unfold reduce_axis. apply bind_seq_length. Qed.

Lemma prod_list_insert_one shape k :
  k < length shape →
  prod_list (<[k := 1]> shape)
  = prod_list (take k shape) * prod_list (drop (S k) shape).
Proof.
  intros Hk. rewrite insert_take_drop by done.
  rewrite prod_list_app. unfold prod_list at 2. simpl. fold (prod_list (drop (S k) shape)).
  lia.
Qed.

Lemma py_index_lt n i k : py_index n i = Ok k → k < n.
Proof. unfold py_index. repeat case_decide; intros; simplify_eq; lia. Qed.

Lemma reduced_shape g a k dt :
  k < length (arr_shape a) →
  wf_array (Array dt (<[k := 1]> (arr_shape a))
                  (reduce_axis g (arr_shape a) k (arr_data a))).
Proof.
  intros Hk. unfold wf_array, size. simpl.
  by rewrite reduce_axis_length, prod_list_insert_one.
Qed.

(** X11: with [method='average'] or [method='random_uniform'] and at least
    one channel on the axis, every item [DownmixChannels] returns has
    exactly one channel on that axis and the other axes unchanged, as the
    stage declares.  Any other method string leaves the item as it is and
    raises nothing. *)
Theorem X11_downmix_one_channel u key axis idx t t1 item a k :
  getitem u idx t = Done item t1 →
  item !! key = Some (VArr a) →
  py_index (length (arr_shape a)) axis = Ok k →
  (1 ≤ nth k (arr_shape a) 0 →
   ∀ method item' t',
     method = "average" ∨ method = "random_uniform" →
     getitem (DownmixChannels u key axis method) idx t = Done item' t' →
     ∃ a', item' = <[key := VArr a']> item
           ∧ arr_shape a' = <[k := 1]> (arr_shape a)
           ∧ (wf_array a → wf_array a')
           ∧ ∀ s, conforms s (arr_shape a) →
                  conforms (<[k := Some 1]> s) (arr_shape a'))
  ∧ (∀ method, method ≠ "average" → method ≠ "random_uniform" →
       getitem (DownmixChannels u key axis method) idx t = Done item t1).
Proof.
  intros Hu Hk Hi.
  pose proof (py_index_lt _ _ _ Hi) as Hlt.
  pose proof (λ method, DownmixChannels_getitem u key axis method idx t item
                          t1 a k Hu Hk Hi) as Hget.
  assert (Hconf : ∀ s, conforms s (arr_shape a) →
            conforms (<[k := Some 1]> s) (<[k := 1]> (arr_shape a))).
  { intros s Hs. apply Forall2_insert; [done|by right]. }
  split.
  - intros Hn method item' t' Hmethod. rewrite Hget.
    destruct (decide (1 < nth k (arr_shape a) 0)) as [Hmany|Hone].
    + destruct Hmethod as [->| ->].
      * rewrite decide_True by done. intros H.
        apply run_bind_inv in H as (a' & t2 & H & Hret).
        apply mret_inv in H as [<- _]. apply mret_inv in Hret as [<- _].
        eexists. split; [done|]. split; [done|].
        split; [intros _; by apply reduced_shape|done].
      * rewrite decide_False, decide_True by done. intros H.
        apply run_bind_inv in H as (a' & t2 & H & Hret).
        apply mret_inv in Hret as [<- _].
        apply run_bind_inv in H as (ws & t3 & _ & H).
        apply mret_inv in H as [<- _].
        eexists. split; [done|]. split; [done|].
        split; [intros _; by apply reduced_shape|done].
    + intros H. apply run_bind_inv in H as (a' & t2 & H & Hret).
      apply mret_inv in H as [<- _]. apply mret_inv in Hret as [<- _].
      assert (<[k := 1]> (arr_shape a) = arr_shape a) as Hid.
      { apply list_insert_id.
        destruct (lookup_lt_is_Some_2 (arr_shape a) k Hlt) as [n Hn'].
        rewrite (nth_lookup_Some _ _ 0 n Hn') in Hn, Hone.
        rewrite Hn'. f_equal. lia. }
      exists a. split; [done|]. split; [done|]. split; [done|].
      intros s Hs. rewrite <- Hid. by apply Hconf.
  - intros method Hne1 Hne2. rewrite Hget.
    assert ((if decide (1 < nth k (arr_shape a) 0)
             then if decide (method = "average") then mret (np_mean a k)
                  else if decide (method = "random_uniform")
                       then weights ← dirichlet_ones (nth k (arr_shape a) 0);
                            mret (np_weighted_sum a k
                                    (cast (arr_dtype a) <$> weights))
                       else mret a
             else mret a) = (mret a : py ndarray)) as ->.
    { case_decide; [|done]. by rewrite !decide_False. }
    unfold mbind, py_bind, mret, py_ret. by rewrite insert_id.
Qed.

Lemma X11_witness :
  ∃ a',
    getitem (DownmixChannels
               (list_dataset {[ "input" := [Some 2; None] ]}
                             {[ "input" := np_dtype float32 ]} [stereo_item])
               "input" 0 "random_uniform") 0 [dirichlet_draw [quarter; (1 - quarter)%Qc]]
    = Done (<["input" := VArr a']> stereo_item) []
    ∧ arr_shape a' = [1; 2].
Proof.
  destruct (X11_downmix_one_channel
              (list_dataset {[ "input" := [Some 2; None] ]}
                            {[ "input" := np_dtype float32 ]} [stereo_item])
              "input" 0 0 [dirichlet_draw [quarter; (1 - quarter)%Qc]]
              [dirichlet_draw [quarter; (1 - quarter)%Qc]] stereo_item
              (Array float32 [2; 2] (qz <$> [2; 2; 4; 4]%Z)) 0)
    as [H _]; [reflexivity|reflexivity|reflexivity|].
  destruct (H ltac:(simpl; lia) "random_uniform"
              (<["input" := VArr (Array float32 [1; 2]
                                    [Q2Qc (7 # 2); Q2Qc (7 # 2)])]>
                 stereo_item) [])
    as (a' & Heq & Hs & _); [by right|by_compute|].
  exists a'. split; [|done]. rewrite <- Heq. by_compute.
Defined.

Lemma cast_integer_fraction dt w :
  dt = uint8 ∨ dt = int16 ∨ dt = int64 →
  (0 ≤ w)%Qc → (w < 1)%Qc → cast dt w = 0%Qc.
Proof.
  intros Hdt H0 H1.
  assert (Qc_trunc w = 0%Z) as Htrunc.
  { unfold Qc_trunc. apply Z.quot_small.
    unfold Qcle, Qle in H0. unfold Qclt, Qlt in H1. simpl in H0, H1. lia. }
  destruct Hdt as [->|[->| ->]]; unfold cast; rewrite Htrunc; by_compute.
Qed.

Lemma dot_zero_weights ws l : Forall (λ w, w = 0%Qc) ws → dot ws l = 0%Qc.
Proof.
  unfold dot. intros Hws. revert l.
  induction Hws as [|w ws -> _ IH]; intros [|x l]; simpl; try done.
  rewrite IH. ring.
Qed.

Lemma bind_seq_const {A} (g : nat → nat → A) c N M s :
  (∀ o i, g o i = c) →
  (seq s N ≫= λ o, seq 0 M ≫= λ i, [g o i]) = replicate (N * M) c.
Proof.
  intros Hg.
  assert (Hinner : ∀ o', (seq 0 M ≫= λ i, [g o' i]) = replicate M c).
  { intros o'. generalize 0. induction M as [|M IH]; intros s'; [done|].
    simpl seq. rewrite bind_cons, IH, Hg. done. }
  revert s. induction N as [|N IH]; intros s; [done|].
  simpl seq. rewrite bind_cons, IH, Hinner.
  by rewrite <- replicate_add.
Qed.

(** X12: on integer-typed audio, [method='random_uniform'] casts the drawn
    weights to the integer type before mixing.  Unless one weight is
    exactly 1, every weight becomes 0 and the returned field holds only
    zeros. *)
Theorem X12_downmix_integer_weights u key axis idx t t2 item a k ws :
  getitem u idx t = Done item (dirichlet_draw ws :: t2) →
  item !! key = Some (VArr a) →
  py_index (length (arr_shape a)) axis = Ok k →
  arr_dtype a = uint8 ∨ arr_dtype a = int16 ∨ arr_dtype a = int64 →
  1 < nth k (arr_shape a) 0 →
  length ws = nth k (arr_shape a) 0 →
  Forall (λ w, 0 ≤ w)%Qc ws → Qc_sum ws = 1%Qc →
  Forall (λ w, w < 1)%Qc ws →
  ∃ a',
    getitem (DownmixChannels u key axis "random_uniform") idx t
    = Done (<[key := VArr a']> item) t2
    ∧ arr_shape a' = <[k := 1]> (arr_shape a)
    ∧ arr_data a'
      = replicate (prod_list (take k (arr_shape a))
                   * prod_list (drop (S k) (arr_shape a))) 0%Qc.
Proof.
  intros Hu Hk Hi Hdt Hn Hlen Hpos Hsum Hlt.
  rewrite (DownmixChannels_getitem _ _ _ _ _ _ _ _ _ _ Hu Hk Hi).
  rewrite decide_True, decide_False, decide_True by done.
  rewrite <- Hlen.
  eexists. split.
  { erewrite run_bind; [reflexivity|].
    erewrite run_bind; [reflexivity|].
    by apply dirichlet_ones_run. }
  split; [done|]. simpl. unfold reduce_axis.
  apply bind_seq_const. intros o i. apply dot_zero_weights.
  apply Forall_fmap, Forall_forall. intros w Hw. simpl.
  rewrite Forall_forall in Hpos, Hlt.
  apply cast_integer_fraction; auto.
Qed.

Lemma X12_witness :
  ∃ a',
    getitem (DownmixChannels
               (list_dataset {[ "input" := [Some 2; None] ]}
                             {[ "input" := np_dtype int16 ]} [integer_stereo_item])
               "input" 0 "random_uniform") 0
            [dirichlet_draw [quarter; (1 - quarter)%Qc]]
    = Done (<["input" := VArr a']> integer_stereo_item) []
    ∧ arr_shape a' = [1; 2]
    ∧ arr_data a' = [0%Qc; 0%Qc].
Proof.
  apply (X12_downmix_integer_weights
           (list_dataset {[ "input" := [Some 2; None] ]}
                         {[ "input" := np_dtype int16 ]} [integer_stereo_item])
           "input" 0 0 [dirichlet_draw [quarter; (1 - quarter)%Qc]] []
           integer_stereo_item
           (Array int16 [2; 2] (qz <$> [2; 2; 4; 4]%Z)) 0
           [quarter; (1 - quarter)%Qc]).
  - reflexivity.
  - reflexivity.
  - reflexivity.
  - right; left; reflexivity.
  - simpl; lia.
  - reflexivity.
  - repeat constructor; by_compute.
  - by_compute.
  - repeat constructor; by_compute.
Defined.

Lemma dot_bounds lo hi ws l :
  length ws = length l →
  Forall (λ w, 0 ≤ w)%Qc ws →
  Forall (λ x, lo ≤ x ∧ x ≤ hi)%Qc l →
  (lo * Qc_sum ws ≤ dot ws l)%Qc ∧ (dot ws l ≤ hi * Qc_sum ws)%Qc.
Proof.
  unfold dot. intros Hlen Hws Hl. revert ws Hlen Hws.
  induction Hl as [|x l [Hlo Hhi] _ IH]; intros [|w ws] Hlen Hws;
    simplify_eq/=.
  { split; rewrite Qcmult_0_r; apply Qcle_refl. }
  apply Forall_cons in Hws as [Hw Hws].
  destruct (IH ws Hlen Hws) as [IH1 IH2].
  rewrite !Qcmult_plus_distr_r. split.
  - apply Qcplus_le_compat; [by apply Qcmult_le_compat_r|done].
  - apply Qcplus_le_compat; [by apply Qcmult_le_compat_r|done].
Qed.

Lemma qz_succ n : qz (Z.of_nat (S n)) = (qz (Z.of_nat n) + 1)%Qc.
Proof.
  unfold qz, Qc_of_Z. apply Qc_is_canon. simpl.
  rewrite !Qred_correct. rewrite Nat2Z.inj_succ.
  unfold Qeq, inject_Z, Qplus. simpl. lia.
Qed.

Lemma qz_pos n : 0 < n → (0 < qz (Z.of_nat n))%Qc.
Proof.
  intros Hn. unfold qz, Qc_of_Z, Qclt. simpl.
  rewrite !Qred_correct. unfold Qlt, inject_Z. simpl. lia.
Qed.

Lemma Qc_sum_bounds lo hi l :
  Forall (λ x, lo ≤ x ∧ x ≤ hi)%Qc l →
  (lo * qz (Z.of_nat (length l)) ≤ Qc_sum l)%Qc
  ∧ (Qc_sum l ≤ hi * qz (Z.of_nat (length l)))%Qc.
Proof.
  induction 1 as [|x l [Hlo Hhi] _ [IH1 IH2]].
  { cbn [length Qc_sum foldr]. change (Z.of_nat 0) with 0%Z.
    replace (qz 0) with 0%Qc by by_compute.
    rewrite !Qcmult_0_r. split; apply Qcle_refl. }
  cbn [length Qc_sum foldr]. rewrite qz_succ, !Qcmult_plus_distr_r, !Qcmult_1_r.
  rewrite (Qcplus_comm x). fold (Qc_sum l).
  split; by apply Qcplus_le_compat.
Qed.

Lemma mean_bounds lo hi l :
  l ≠ [] → Forall (λ x, lo ≤ x ∧ x ≤ hi)%Qc l →
  (lo ≤ mean l)%Qc ∧ (mean l ≤ hi)%Qc.
Proof.
  intros Hne Hl. destruct (Qc_sum_bounds lo hi l Hl) as [H1 H2].
  assert (0 < qz (Z.of_nat (length l)))%Qc as Hpos.
  { apply qz_pos. destruct l; [done|simpl; lia]. }
  assert (mean l * qz (Z.of_nat (length l)) = Qc_sum l)%Qc as Hmean.
  { unfold mean. field. intros Hz. rewrite Hz in Hpos.
    by apply Qclt_not_eq in Hpos. }
  split; apply (Qcmult_le_mono_pos_r _ _ _ Hpos); by rewrite Hmean.
Qed.

Lemma lane_Forall (P : Qc → Prop) data n inner_size outer inner :
  (∀ j, j < n → P (nth ((outer * n + j) * inner_size + inner) data 0%Qc)) →
  Forall P (lane data n inner_size outer inner).
Proof.
  intros HP. unfold lane. apply Forall_fmap, Forall_forall.
  intros j Hj. apply elem_of_seq in Hj. apply HP. lia.
Qed.

(** X13: on float audio with more than one channel, every entry that
    [DownmixChannels] returns lies between the smallest and the largest of
    the channel values it is mixed from, for [method='average'] and for
    every draw of [method='random_uniform'].  Where all channels agree the
    entry is that common value. *)
Theorem X13_downmix_within_channels
    u key axis method idx t t1 item a k item' t' :
  getitem u idx t = Done item t1 →
  item !! key = Some (VArr a) →
  py_index (length (arr_shape a)) axis = Ok k →
  arr_dtype a = float32 ∨ arr_dtype a = float64 →
  method = "average" ∨ method = "random_uniform" →
  1 < nth k (arr_shape a) 0 →
  getitem (DownmixChannels u key axis method) idx t = Done item' t' →
  ∃ a',
    item' = <[key := VArr a']> item
    ∧ ∀ outer inner lo hi,
        outer < prod_list (take k (arr_shape a)) →
        inner < prod_list (drop (S k) (arr_shape a)) →
        (∀ j, j < nth k (arr_shape a) 0 →
           (lo ≤ nth ((outer * nth k (arr_shape a) 0 + j)
                      * prod_list (drop (S k) (arr_shape a)) + inner)%nat
                     (arr_data a) 0
            ∧ nth ((outer * nth k (arr_shape a) 0 + j)
                   * prod_list (drop (S k) (arr_shape a)) + inner)%nat
                  (arr_data a) 0 ≤ hi)%Qc) →
        ∃ y, arr_data a'
             !! (outer * prod_list (drop (S k) (arr_shape a)) + inner)
             = Some y
             ∧ (lo ≤ y)%Qc ∧ (y ≤ hi)%Qc.
Proof.
  intros Hu Hk Hi Hdt Hmethod Hn.
  rewrite (DownmixChannels_getitem _ _ _ _ _ _ _ _ _ _ Hu Hk Hi).
  rewrite decide_True by done.
  destruct Hmethod as [->| ->].
  - rewrite decide_True by done. intros H.
    apply run_bind_inv in H as (a' & t2 & H & Hret).
    apply mret_inv in H as [<- _]. apply mret_inv in Hret as [<- _].
    eexists. split; [done|].
    intros outer inner lo hi Ho Hin Hlane. simpl. unfold reduce_axis.
    rewrite bind_seq_lookup by done. eexists. split; [done|].
    apply mean_bounds.
    + intros Hnil. apply (f_equal length) in Hnil.
      rewrite length_lane in Hnil. simpl in Hnil. lia.
    + by apply lane_Forall.
  - rewrite decide_False, decide_True by done. intros H.
    apply run_bind_inv in H as (a' & t2 & H & Hret).
    apply mret_inv in Hret as [<- _].
    apply run_bind_inv in H as (ws & t3 & Hws & H).
    apply mret_inv in H as [<- _].
    apply dirichlet_ones_inv in Hws as (_ & Hlen & Hpos & Hsum).
    assert (cast (arr_dtype a) <$> ws = ws) as ->.
    { rewrite <- (list_fmap_id ws) at 2. apply list_fmap_ext.
      intros i w _. by destruct Hdt as [->| ->]. }
    eexists. split; [done|].
    intros outer inner lo hi Ho Hin Hlane. simpl. unfold reduce_axis.
    rewrite bind_seq_lookup by done. eexists. split; [done|].
    rewrite <- (Qcmult_1_r lo), <- (Qcmult_1_r hi), <- Hsum.
    apply dot_bounds; [by rewrite length_lane|done|by apply lane_Forall].
Qed.

Lemma X13_witness :
  ∃ a' y,
    getitem (DownmixChannels
               (list_dataset {[ "input" := [Some 2; None] ]}
                             {[ "input" := np_dtype float32 ]} [stereo_item])
               "input" 0 "random_uniform") 0
            [dirichlet_draw [quarter; (1 - quarter)%Qc]]
    = Done (<["input" := VArr a']> stereo_item) []
    ∧ arr_data a' !! 1 = Some y ∧ (qz 2 ≤ y)%Qc ∧ (y ≤ qz 4)%Qc.
Proof.
  destruct (X13_downmix_within_channels
              (list_dataset {[ "input" := [Some 2; None] ]}
                            {[ "input" := np_dtype float32 ]} [stereo_item])
              "input" 0 "random_uniform" 0
              [dirichlet_draw [quarter; (1 - quarter)%Qc]]
              [dirichlet_draw [quarter; (1 - quarter)%Qc]] stereo_item
              (Array float32 [2; 2] (qz <$> [2; 2; 4; 4]%Z)) 0
              (<["input" := VArr (Array float32 [1; 2]
                                    [Q2Qc (7 # 2); Q2Qc (7 # 2)])]>
                 stereo_item) [])
    as (a' & Heq & Hbounds).
  - reflexivity.
  - reflexivity.
  - reflexivity.
  - left; reflexivity.
  - right; reflexivity.
  - simpl; lia.
  - by_compute.
  - destruct (Hbounds 0 1 (qz 2) (qz 4)) as (y & Hy & Hlo & Hhi).
    + simpl; lia.
    + simpl; lia.
    + intros [|[|j]] Hj; [split; by_compute|split; by_compute|simpl in Hj; lia].
    + exists a', y. split; [|done]. rewrite <- Heq. by_compute.
Defined.

(** ** [make_multilabel_target] *)

Lemma mapM_result_inv {A B} (f : A → result B) (l : list A) (k : list B) :
  mapM f l = Ok k → Forall2 (λ x y, f x = Ok y) l k.
Proof.
  revert k. induction l as [|x l IH]; intros k; simpl.
  { intros [= <-]. constructor. }
  destruct (f x) as [y|e] eqn:Hx; simpl; [|done].
  destruct (mapM f l) as [k'|e] eqn:Hl; simpl; [|done].
  intros [= <-]. constructor; [done|]. by apply IH.
Qed.

Lemma mapM_result_err {A B} (f : A → result B) (l : list A) e :
  (∀ x e', f x = Err e' → e' = e) →
  ¬ Forall (λ x, ∃ y, f x = Ok y) l → mapM f l = Err e.
Proof.
  intros Hf. induction l as [|x l IH]; intros Hno.
  { destruct Hno. constructor. }
  simpl. destruct (f x) as [y|e'] eqn:Hx; simpl.
  - rewrite IH; [done|]. intros Hl. apply Hno. constructor; [by eexists|done].
  - by rewrite (Hf x e' Hx).
Qed.

Lemma foldl_set_one_length (idxs : list nat) (target : list Qc) :
  length (foldl (λ target i, <[i := 1%Qc]> target) target idxs)
  = length target.
Proof.
  revert target. induction idxs as [|i idxs IH]; intros target; [done|].
  simpl. by rewrite IH, length_insert.
Qed.

Lemma foldl_set_one_lookup (idxs : list nat) (target : list Qc) i :
  i < length target →
  foldl (λ target i, <[i := 1%Qc]> target) target idxs !! i
  = if decide (i ∈ idxs) then Some 1%Qc else target !! i.
Proof.
  revert target. induction idxs as [|j idxs IH]; intros target Hi.
  { cbn [foldl]. destruct (decide (i ∈ [])) as [Hin|]; [|done].
    by apply elem_of_nil in Hin. }
  cbn [foldl]. rewrite IH by by rewrite length_insert.
  destruct (decide (i ∈ idxs)) as [Hin|Hin].
  { rewrite decide_True; [done|]. by right. }
  destruct (decide (i = j)) as [->|Hne].
  - rewrite decide_True by by left. by rewrite list_lookup_insert_eq.
  - rewrite decide_False.
    + by rewrite list_lookup_insert_ne.
    + intros [?|?]%elem_of_cons; done.
Qed.

Lemma py_index_ok n c :
  (- Z.of_nat n ≤ c < Z.of_nat n)%Z → ∃ k, py_index n c = Ok k.
Proof.
  intros Hc. unfold py_index. repeat case_decide; eauto. lia.
Qed.

Lemma py_index_eq n c k :
  py_index n c = Ok k →
  k < n ∧ (c = Z.of_nat k ∨ c = (Z.of_nat k - Z.of_nat n)%Z).
Proof. unfold py_index. repeat case_decide; intros; simplify_eq; lia. Qed.

(** X14: [make_multilabel_target] returns a uint8 vector of length
    [num_classes] whose entry [i] is 1 exactly when [classes] lists [i],
    directly or as the negative index [i - num_classes], and 0 otherwise;
    order and repetitions in [classes] do not matter.  An index outside
    [[-num_classes, num_classes)] raises [IndexError]. *)
Theorem X14_multilabel_target num_classes classes :
  (Forall (λ c, - Z.of_nat num_classes ≤ c < Z.of_nat num_classes)%Z classes →
   ∃ a,
     make_multilabel_target num_classes classes = Ok a
     ∧ arr_dtype a = uint8 ∧ arr_shape a = [num_classes]
     ∧ length (arr_data a) = num_classes
     ∧ ∀ i, i < num_classes →
         arr_data a !! i
         = Some (if decide (Z.of_nat i ∈ classes
                            ∨ (Z.of_nat i - Z.of_nat num_classes)%Z ∈ classes)
                 then 1%Qc else 0%Qc))
  ∧ (¬ Forall (λ c, - Z.of_nat num_classes ≤ c < Z.of_nat num_classes)%Z
         classes →
     make_multilabel_target num_classes classes = Err IndexError).
Proof.
  unfold make_multilabel_target. split.
  - intros Hc.
    destruct (mapM (py_index num_classes) classes) as [idxs|e] eqn:Hm.
    2:{ exfalso. revert e Hm. induction Hc as [|c l Hc1 _ IH]; [done|].
        intros e. simpl.
        destruct (py_index_ok _ _ Hc1) as [k ->]. simpl.
        destruct (mapM (py_index num_classes) l) eqn:Hl; [done|].
        by destruct (IH e0). }
    apply mapM_result_inv in Hm. eexists. split; [done|].
    split; [done|]. split; [done|]. simpl.
    split; [by rewrite foldl_set_one_length, length_replicate|].
    intros i Hi. rewrite foldl_set_one_lookup by by rewrite length_replicate.
    rewrite lookup_replicate_2 by done.
    assert (i ∈ idxs ↔ Z.of_nat i ∈ classes
                       ∨ (Z.of_nat i - Z.of_nat num_classes)%Z ∈ classes)
      as Hiff.
    { split.
      - intros Hin. apply list_elem_of_lookup in Hin as [j Hj].
        destruct (Forall2_lookup_r _ _ _ _ _ Hm Hj) as (c & Hcj & Hpy).
        apply py_index_eq in Hpy as [_ [->| ->]];
          [left|right]; by eapply list_elem_of_lookup_2.
      - intros [Hin|Hin]; apply list_elem_of_lookup in Hin as [j Hj];
          destruct (Forall2_lookup_l _ _ _ _ _ Hm Hj) as (k & Hkj & Hpy);
          apply py_index_eq in Hpy as [Hk Hpy];
          (assert (k = i) as -> by lia); by eapply list_elem_of_lookup_2. }
    destruct (decide (i ∈ idxs)) as [Hin|Hin].
    + rewrite decide_True; [done|]. by apply Hiff.
    + rewrite decide_False; [done|]. by rewrite <- Hiff.
  - intros Hno.
    rewrite (mapM_result_err _ _ IndexError); [done| |].
    + intros x e'. unfold py_index. repeat case_decide; congruence.
    + intros Hall. apply Hno. eapply Forall_impl; [exact Hall|].
      intros c [k Hk]. simpl. unfold py_index in Hk.
      repeat case_decide; simplify_eq; lia.
Qed.

Lemma X14_witness :
  (∃ a, make_multilabel_target 4 [1; -1; 1]%Z = Ok a
        ∧ arr_data a = [0; 1; 0; 1]%Qc)
  ∧ make_multilabel_target 4 [1; 4]%Z = Err IndexError.
Proof.
  destruct (X14_multilabel_target 4 [1; -1; 1]%Z) as [H _].
  destruct (X14_multilabel_target 4 [1; 4]%Z) as [_ H'].
  split.
  - destruct H as (a & Ha & _).
    + repeat constructor; lia.
    + exists a. split; [done|].
      assert (Ok a = Ok (Array uint8 [4] [0; 1; 0; 1]%Qc)) as Heq.
      { rewrite <- Ha. by_compute. }
      by injection Heq as ->.
  - apply H'. intros Hall. apply Forall_cons in Hall as [_ Hall].
    apply Forall_cons in Hall as [Hc _]. lia.
Defined.

(** ** [derive_labelset] *)

Lemma dict_of_pairs_snoc {A} (pairs : list (string * A)) k v :
  dict_of_pairs (pairs ++ [(k, v)]) = <[k := v]> (dict_of_pairs pairs).
Proof. unfold dict_of_pairs. by rewrite foldl_snoc. Qed.

Lemma dict_of_pairs_lookup {A} (rows : list (string * A)) k v :
  dict_of_pairs rows !! k = Some v ↔ last_row rows k v.
Proof.
  induction rows as [|[k' v'] rows IH] using rev_ind.
  { split; [done|]. intros (before & after & Heq & _).
    by destruct before. }
  rewrite dict_of_pairs_snoc. destruct (decide (k' = k)) as [->|Hne].
  - rewrite lookup_insert_eq. split.
    + intros [= ->]. exists rows, []. split; [done|]. apply not_elem_of_nil.
    + intros (before & after & Heq & Hlast).
      destruct after as [|r after _] using rev_ind.
      * apply app_inj_tail in Heq as [_ Heq]. by simplify_eq.
      * rewrite app_comm_cons, app_assoc in Heq.
        apply app_inj_tail in Heq as [_ <-].
        destruct Hlast. rewrite fmap_app. apply elem_of_app. right.
        by left.
  - rewrite lookup_insert_ne by done. rewrite IH. split.
    + intros (before & after & -> & Hlast).
      exists before, (after ++ [(k', v')]). split.
      * by rewrite <- app_assoc.
      * rewrite fmap_app. intros [?|Hin]%elem_of_app; [done|].
        apply list_elem_of_singleton in Hin. done.
    + intros (before & after & Heq & Hlast).
      destruct after as [|r after _] using rev_ind.
      * apply app_inj_tail in Heq as [_ Heq]. by simplify_eq.
      * rewrite app_comm_cons, app_assoc in Heq.
        apply app_inj_tail in Heq as [-> <-].
        exists before, after. split; [done|].
        intros Hin. apply Hlast. rewrite fmap_app. apply elem_of_app.
        by left.
Qed.

Lemma dict_of_pairs_is_Some {A} (rows : list (string * A)) k :
  is_Some (dict_of_pairs rows !! k) ↔ k ∈ rows.*1.
Proof.
  induction rows as [|[k' v'] rows IH] using rev_ind.
  { split; [by intros [? ?]|by intros ?%elem_of_nil]. }
  rewrite dict_of_pairs_snoc, fmap_app, elem_of_app. simpl.
  rewrite list_elem_of_singleton.
  destruct (decide (k' = k)) as [->|Hne].
  - rewrite lookup_insert_eq. split; [by right|by eexists].
  - rewrite lookup_insert_ne by done. rewrite IH.
    split; [by left|intros [?|?]; [done|congruence]].
Qed.

Lemma sorted_set_elem_of names x : x ∈ sorted_set names ↔ x ∈ names.
Proof.
  unfold sorted_set. rewrite merge_sort_Permutation, elem_of_elements.
  apply elem_of_list_to_set.
Qed.

Lemma sorted_set_NoDup names : NoDup (sorted_set names).
Proof.
  unfold sorted_set. rewrite merge_sort_Permutation. apply NoDup_elements.
Qed.

Lemma sorted_set_sorted names : StronglySorted String.le (sorted_set names).
Proof. apply (StronglySorted_merge_sort _); apply _. Qed.

Lemma size_list_to_set_le (l : list string) :
  base.size (list_to_set l : gset string) ≤ length l
  ∧ (base.size (list_to_set l : gset string) = length l → NoDup l).
Proof.
  induction l as [|x l [IH1 IH2]]; [split; [done|constructor]|].
  cbn [list_to_set foldr length].
  destruct (decide (x ∈ l)) as [Hin|Hin].
  - assert ({[x]} ∪ list_to_set l = (list_to_set l : gset string)) as ->.
    { apply subseteq_union_1_L, singleton_subseteq_l, elem_of_list_to_set.
      done. }
    split; lia.
  - rewrite size_union, size_singleton.
    2:{ apply disjoint_singleton_l. by rewrite elem_of_list_to_set. }
    split; [lia|]. intros Heq. constructor; [done|]. apply IH2. lia.
Qed.

Lemma derive_labelset_codes train_csv :
  ∃ codes,
    Forall2 (λ latin code, dict_of_pairs train_csv !! latin = Some code)
            (sorted_set train_csv.*1) codes
    ∧ derive_labelset train_csv
      = if decide (NoDup codes) then Returns codes
        else Throws (RuntimeError "Inconsistent latin names in train.csv!").
Proof.
  unfold derive_labelset.
  assert (∃ codes,
    mapM (λ latin, of_option KeyError (dict_of_pairs train_csv !! latin))
         (sorted_set train_csv.*1) = Ok codes) as [codes Hcodes].
  { assert (Forall (λ latin, latin ∈ train_csv.*1) (sorted_set train_csv.*1))
      as Hall.
    { apply Forall_forall. intros x. by rewrite sorted_set_elem_of. }
    induction Hall as [|latin l Hin _ [codes IH]]; [by eexists|].
    apply dict_of_pairs_is_Some in Hin as [code Hcode].
    exists (code :: codes). simpl. rewrite Hcode. simpl. by rewrite IH. }
  exists codes. rewrite Hcodes. simpl. split.
  - apply mapM_result_inv in Hcodes.
    eapply Forall2_impl; [exact Hcodes|]. intros latin code. simpl.
    by destruct (dict_of_pairs train_csv !! latin); intros [= ->].
  - destruct (size_list_to_set_le codes) as [_ Hsize].
    destruct (decide (NoDup codes)) as [Hnd|Hnd].
    + rewrite decide_False; [done|]. intros Hne. apply Hne.
      by apply size_list_to_set.
    + rewrite decide_True; [done|]. intros Heq. by apply Hnd, Hsize.
Qed.

(** X15: [derive_labelset] can only fail with its own [RuntimeError].  What
    it returns has no code twice and holds, for the distinct latin names
    of the table in ascending order, the code of the last row of that
    name: a name given several codes is resolved silently by the last
    row.  It fails exactly when two different latin names end up with the
    same code. *)
Theorem X15_derive_labelset train_csv :
  (∀ e, derive_labelset train_csv = Throws e →
        e = RuntimeError "Inconsistent latin names in train.csv!")
  ∧ (∀ codes, derive_labelset train_csv = Returns codes →
       NoDup codes
       ∧ ∃ latins,
           StronglySorted String.le latins ∧ NoDup latins
           ∧ (∀ latin, latin ∈ latins ↔ latin ∈ train_csv.*1)
           ∧ Forall2 (last_row train_csv) latins codes)
  ∧ ((∃ codes, derive_labelset train_csv = Returns codes)
     ↔ ∀ latin1 latin2 code,
         last_row train_csv latin1 code → last_row train_csv latin2 code →
         latin1 = latin2).
Proof.
  destruct (derive_labelset_codes train_csv) as (codes & Hcodes & ->).
  assert (Forall2 (last_row train_csv) (sorted_set train_csv.*1) codes)
    as Hlast.
  { eapply Forall2_impl; [exact Hcodes|]. intros latin code.
    by rewrite dict_of_pairs_lookup. }
  split; [|split].
  - intros e. case_decide; congruence.
  - intros codes'. case_decide as Hnd; [|done]. intros [= <-].
    split; [done|]. exists (sorted_set train_csv.*1).
    split; [apply sorted_set_sorted|]. split; [apply sorted_set_NoDup|].
    split; [apply sorted_set_elem_of|done].
  - split.
    + intros [codes' Hret]. case_decide as Hnd; [|done].
      intros latin1 latin2 code H1 H2.
      assert (∀ latin, last_row train_csv latin code →
                ∃ i, sorted_set train_csv.*1 !! i = Some latin
                     ∧ codes !! i = Some code) as Hpos.
      { intros latin Hl. pose proof Hl as (before & after & Heq & _).
        assert (latin ∈ sorted_set train_csv.*1) as Hin.
        { apply sorted_set_elem_of. rewrite Heq, fmap_app.
          apply elem_of_app. right. by left. }
        apply list_elem_of_lookup in Hin as [i Hi]. exists i.
        split; [done|].
        destruct (Forall2_lookup_l _ _ _ _ _ Hcodes Hi) as (c & Hc & Hd).
        apply dict_of_pairs_lookup in Hl. congruence. }
      destruct (Hpos _ H1) as (i & Hi & Hci).
      destruct (Hpos _ H2) as (j & Hj & Hcj).
      assert (i = j) as -> by by eapply NoDup_lookup.
      congruence.
    + intros Hinj. rewrite decide_True; [by eexists|].
      apply NoDup_alt. intros i j code Hi Hj.
      destruct (Forall2_lookup_r _ _ _ _ _ Hlast Hi) as (l1 & Hl1 & H1).
      destruct (Forall2_lookup_r _ _ _ _ _ Hlast Hj) as (l2 & Hl2 & H2).
      assert (l1 = l2) as -> by by eapply Hinj.
      eapply NoDup_lookup; [apply sorted_set_NoDup|done..].
Qed.

Lemma X15_witness :
  derive_labelset [("Turdus merula", "eurbla"); ("Parus major", "gretit1");
                   ("Turdus merula", "combla")]
  = Returns ["gretit1"; "combla"]
  ∧ NoDup ["gretit1"; "combla"].
Proof.
  assert (derive_labelset [("Turdus merula", "eurbla");
                           ("Parus major", "gretit1");
                           ("Turdus merula", "combla")]
          = Returns ["gretit1"; "combla"]) as Hret by (vm_compute; reflexivity).
  split; [done|].
  destruct (X15_derive_labelset [("Turdus merula", "eurbla");
                                 ("Parus major", "gretit1");
                                 ("Turdus merula", "combla")])
    as (_ & H & _).
  by destruct (H _ Hret) as [Hnd _].
Defined.

(** ** The label tables of [create] *)

Lemma mapM_result_is_Ok {A B} (f : A → result B) (l : list A) :
  Forall (λ x, ∃ y, f x = Ok y) l → ∃ k, mapM f l = Ok k.
Proof.
  induction 1 as [|x l [y Hy] _ [k IH]]; [by eexists|].
  exists (y :: k). simpl. rewrite Hy. simpl. by rewrite IH.
Qed.

Lemma derive_labelset_NoDup train_csv codes :
  derive_labelset train_csv = Returns codes → NoDup codes.
Proof.
  destruct (derive_labelset_codes train_csv) as (codes' & _ & ->).
  case_decide; [|done]. by intros [= <-].
Qed.

Lemma ebird_to_idx_lookup codes code idx :
  NoDup codes →
  ebird_to_idx codes !! code = Some idx ↔ codes !! idx = Some code.
Proof.
  intros Hnd. unfold ebird_to_idx. rewrite dict_of_pairs_lookup.
  assert (∀ c i, (c, i) ∈ imap (λ idx ebird, (ebird, idx)) codes
                 ↔ codes !! i = Some c) as Hin.
  { intros c i. rewrite elem_of_lookup_imap. split.
    - by intros (j & y & [= -> ->] & Hj).
    - intros Hi. by exists i, c. }
  split.
  - intros (before & after & Heq & _). apply Hin. rewrite Heq.
    apply elem_of_app. right. by left.
  - intros Hi.
    assert (is_Some (dict_of_pairs (imap (λ idx ebird, (ebird, idx)) codes)
                     !! code)) as [j Hj].
    { apply dict_of_pairs_is_Some. apply list_elem_of_fmap.
      exists (code, idx). split; [done|]. by apply Hin. }
    apply dict_of_pairs_lookup in Hj as Hlast.
    assert (codes !! j = Some code) as Hj'.
    { destruct Hlast as (before & after & Heq & _). apply Hin. rewrite Heq.
      apply elem_of_app. right. by left. }
    by rewrite (NoDup_lookup _ _ _ _ Hnd Hi Hj').
Qed.

(** X16: when [derive_labelset] returns, [ebird_to_idx] numbers the codes
    by their position, one to one.  [latin_to_idx], built from a table
    that may hold more rows than the one the label set came from, raises
    [KeyError] exactly when a latin name of that table ends up with a code
    outside the label set.  Otherwise the foreground label of every row is
    the position of the code of the last row of that latin name, below
    [num_classes]. *)
Theorem X16_class_indices official combined codes :
  derive_labelset official = Returns codes →
  (∀ code idx,
     ebird_to_idx codes !! code = Some idx ↔ codes !! idx = Some code)
  ∧ (latin_to_idx (ebird_to_idx codes) (dict_of_pairs combined)
     = Err KeyError
     ↔ ∃ latin code, last_row combined latin code ∧ code ∉ codes)
  ∧ (∀ l2i,
       latin_to_idx (ebird_to_idx codes) (dict_of_pairs combined) = Ok l2i →
       map_Forall (λ _ idx, idx < length codes) l2i
       ∧ ∀ latin, latin ∈ combined.*1 →
           ∃ fg code,
             label_fg l2i latin = Ok fg
             ∧ last_row combined latin code
             ∧ codes !! fg = Some code).
Proof.
  intros Hnd%derive_labelset_NoDup.
  pose proof (λ code idx, ebird_to_idx_lookup codes code idx Hnd) as Hidx.
  assert (∀ code, is_Some (ebird_to_idx codes !! code) ↔ code ∈ codes)
    as Hsome.
  { intros code. rewrite list_elem_of_lookup. unfold is_Some.
    by setoid_rewrite Hidx. }
  split; [done|]. unfold latin_to_idx. split.
  - case_decide as Hall.
    + split; [done|]. intros (latin & code & Hlast & Hno).
      apply dict_of_pairs_lookup in Hlast. destruct Hno.
      apply Hsome. by apply (Hall latin).
    + split; [|done]. intros _.
      apply map_not_Forall in Hall as (latin & code & Hl & Hno); [|apply _].
      exists latin, code. rewrite <- dict_of_pairs_lookup, <- Hsome. done.
  - intros l2i. case_decide as Hall; [|done]. intros [= <-]. split.
    + intros latin idx. rewrite lookup_omap.
      destruct (dict_of_pairs combined !! latin) as [code|]; [|done].
      simpl. rewrite Hidx. apply lookup_lt_Some.
    + intros latin [code Hcode]%dict_of_pairs_is_Some.
      destruct (Hall latin code Hcode) as [fg Hfg].
      exists fg, code. unfold label_fg. rewrite lookup_omap, Hcode. simpl.
      rewrite Hfg. split; [done|]. split.
      * by apply dict_of_pairs_lookup.
      * by apply Hidx.
Qed.

Lemma X16_witness :
  ebird_to_idx ["gretit1"; "combla"] !! "combla" = Some 1
  ∧ latin_to_idx (ebird_to_idx ["gretit1"; "combla"])
                 (dict_of_pairs [("Merula merula", "combla");
                                 ("Corvus corax", "comrav")])
    = Err KeyError.
Proof.
  destruct (X16_class_indices
              [("Turdus merula", "eurbla"); ("Parus major", "gretit1");
               ("Turdus merula", "combla")]
              [("Merula merula", "combla"); ("Corvus corax", "comrav")]
              ["gretit1"; "combla"])
    as (Hidx & Herr & _); [vm_compute; reflexivity|].
  split.
  - by apply Hidx.
  - apply Herr. exists "Corvus corax", "comrav". split.
    + exists [("Merula merula", "combla")], []. split; [done|].
      apply not_elem_of_nil.
    + intros Hin. repeat (apply elem_of_cons in Hin as [Hin|Hin]; [done|]).
      by apply elem_of_nil in Hin.
Defined.

Lemma make_multilabel_target_nat num_classes (classes : list nat) :
  Forall (λ i, i < num_classes) classes →
  make_multilabel_target num_classes (Z.of_nat <$> classes)
  = Ok (Array uint8 [num_classes]
              (foldl (λ target i, <[i := 1%Qc]> target)
                     (replicate num_classes 0%Qc) classes)).
Proof.
  intros Hall. unfold make_multilabel_target.
  assert (mapM (py_index num_classes) (Z.of_nat <$> classes) = Ok classes)
    as ->; [|done].
  induction Hall as [|i l Hi _ IH]; [done|].
  cbn [fmap list_fmap mapM]. rewrite IH.
  unfold py_index. rewrite decide_True by lia. simpl. by rewrite Nat2Z.id.
Qed.

(** X17: the background target of a row never raises.  It marks exactly
    the classes of those secondary labels that are known latin names and
    do not name the row's foreground class; secondary labels that are
    unknown are skipped, and the foreground class is never marked. *)
Theorem X17_label_bg num_classes l2i labels fg :
  map_Forall (λ _ idx, idx < num_classes) l2i →
  ∃ a,
    label_bg num_classes l2i labels fg = Ok a
    ∧ arr_dtype a = uint8 ∧ arr_shape a = [num_classes]
    ∧ ∀ i, i < num_classes →
        arr_data a !! i
        = Some (if decide (i ≠ fg
                           ∧ Exists (λ latin, l2i !! latin = Some i) labels)
                then 1%Qc else 0%Qc).
Proof.
  intros Hlt. unfold label_bg.
  destruct (mapM_result_is_Ok
              (λ latin, of_option KeyError (l2i !! latin))
              (filter (λ latin, default fg (l2i !! latin) ≠ fg) labels))
    as [classes Hclasses].
  { apply Forall_forall. intros latin [Hne _]%list_elem_of_filter.
    destruct (l2i !! latin) as [idx|]; [by eexists|done]. }
  rewrite Hclasses. simpl. apply mapM_result_inv in Hclasses.
  assert (Forall (λ i, i < num_classes) classes) as Hall.
  { apply Forall_forall. intros i [j Hj]%list_elem_of_lookup.
    destruct (Forall2_lookup_r _ _ _ _ _ Hclasses Hj) as (latin & _ & Hl).
    destruct (l2i !! latin) as [idx|] eqn:Hidx; [|done].
    injection Hl as ->. by apply (Hlt latin). }
  rewrite make_multilabel_target_nat by done.
  eexists. split; [done|]. split; [done|]. split; [done|].
  intros i Hi. simpl.
  rewrite foldl_set_one_lookup by by rewrite length_replicate.
  rewrite lookup_replicate_2 by done.
  assert (i ∈ classes
          ↔ i ≠ fg ∧ Exists (λ latin, l2i !! latin = Some i) labels) as Hiff.
  { rewrite Exists_exists. split.
    - intros [j Hj]%list_elem_of_lookup.
      destruct (Forall2_lookup_r _ _ _ _ _ Hclasses Hj) as (latin & Hjl & Hl).
      apply list_elem_of_lookup_2, list_elem_of_filter in Hjl as [Hne Hin].
      destruct (l2i !! latin) as [idx|] eqn:Hidx; [|done].
      injection Hl as ->. simpl in Hne. split; [done|]. by exists latin.
    - intros (Hne & latin & Hin & Hl).
      assert (latin ∈ filter (λ latin, default fg (l2i !! latin) ≠ fg) labels)
        as [j Hj]%list_elem_of_lookup.
      { apply list_elem_of_filter. by rewrite Hl. }
      destruct (Forall2_lookup_l _ _ _ _ _ Hclasses Hj) as (k & Hk & Hlk).
      rewrite Hl in Hlk. injection Hlk as <-.
      by eapply list_elem_of_lookup_2. }
  destruct (decide (i ∈ classes)) as [Hin|Hin].
  - rewrite decide_True; [done|]. by apply Hiff.
  - rewrite decide_False; [done|]. by rewrite <- Hiff.
Qed.

Lemma X17_witness :
  ∃ a,
    label_bg 3 {[ "Parus major" := 0; "Turdus merula" := 1;
                  "Corvus corax" := 2 ]}
             ["Turdus merula"; "Pica pica"; "Corvus corax"] 1
    = Ok a
    ∧ arr_data a = [0; 0; 1]%Qc.
Proof.
  destruct (X17_label_bg 3 {[ "Parus major" := 0; "Turdus merula" := 1;
                              "Corvus corax" := 2 ]}
              ["Turdus merula"; "Pica pica"; "Corvus corax"] 1)
    as (a & Ha & _).
  - by_compute.
  - exists a. split; [done|].
    assert (Ok a = Ok (Array uint8 [3] [0; 0; 1]%Qc)) as Heq.
    { rewrite <- Ha. by_compute. }
    by injection Heq as ->.
Defined.

(** ** [BirdcallDataset] *)

Lemma foldl_insert_dom {A B} (f : B → string) (g : B → A) (l : list B)
    (m : gmap string A) :
  dom (foldl (λ m x, <[f x := g x]> m) m l) = dom m ∪ list_to_set (f <$> l).
Proof.
  revert m. induction l as [|x l IH]; intros m; simpl.
  { set_solver. }
  rewrite IH, dom_insert_L. set_solver.
Qed.

Lemma add_annotations_ok columns keys idx item :
  Forall (λ key, is_Some (item !! key)
                 ∨ is_Some (columns !! key ≫= λ column, column !! idx))
         keys →
  ∃ item',
    add_annotations keys (Some columns) idx item = Ok item'
    ∧ dom item' = dom item ∪ list_to_set keys
    ∧ (∀ key, is_Some (item !! key) → item' !! key = item !! key)
    ∧ (∀ key column, key ∈ keys → item !! key = None →
         columns !! key = Some column → item' !! key = column !! idx).
Proof.
  revert item. induction keys as [|key keys IH]; intros item Hall.
  { exists item. split; [done|]. split; [set_solver|]. split; [done|].
    by intros ?? ?%elem_of_nil. }
  apply Forall_cons in Hall as [Hkey Hall]. cbn [add_annotations].
  destruct (decide (is_Some (item !! key))) as [Hin|Hnot].
  - destruct (IH item Hall) as (item' & -> & Hdom & Hold & Hnew).
    exists item'. split; [done|]. split; [|split; [done|]].
    + rewrite Hdom. apply elem_of_dom in Hin. set_solver.
    + intros key' column [->|Hk]%elem_of_cons Hnone Hcol.
      * rewrite Hnone in Hin. by destruct Hin.
      * by apply Hnew.
  - destruct Hkey as [?|[v Hv]]; [done|]. simpl.
    destruct (columns !! key) as [column|] eqn:Hcol; [|done].
    simpl in Hv. simpl. rewrite Hv. simpl.
    apply eq_None_not_Some in Hnot.
    destruct (IH (<[key := v]> item)) as (item' & -> & Hdom & Hold & Hnew).
    { eapply Forall_impl; [exact Hall|]. intros key' [Hs|Hs]; [|by right].
      left. destruct (decide (key = key')) as [->|Hne].
      - rewrite lookup_insert_eq. by eexists.
      - by rewrite lookup_insert_ne. }
    exists item'. split; [done|]. split; [|split].
    + rewrite Hdom, dom_insert_L. set_solver.
    + intros key' Hs. rewrite Hold.
      * rewrite lookup_insert_ne; [done|]. intros ->.
        rewrite Hnot in Hs. by destruct Hs.
      * rewrite lookup_insert_ne; [done|]. intros ->.
        rewrite Hnot in Hs. by destruct Hs.
    + intros key' column' Hk Hnone Hcol'.
      destruct (decide (key = key')) as [<-|Hne].
      * rewrite Hold by (rewrite lookup_insert_eq; by eexists).
        rewrite lookup_insert_eq. congruence.
      * apply elem_of_cons in Hk as [->|Hk]; [done|].
        apply Hnew; [done| |done]. by rewrite lookup_insert_ne.
Qed.

Lemma add_annotations_err columns keys idx item :
  Forall (λ key, is_Some (item !! key) ∨ is_Some (columns !! key)) keys →
  Exists (λ key, item !! key = None
                 ∧ (columns !! key ≫= λ column, column !! idx) = None)
         keys →
  add_annotations keys (Some columns) idx item = Err IndexError.
Proof.
  revert item. induction keys as [|key keys IH]; intros item Hall Hex.
  { by apply Exists_nil in Hex. }
  apply Forall_cons in Hall as [Hkey Hall]. cbn [add_annotations].
  destruct (decide (is_Some (item !! key))) as [Hin|Hnot].
  - apply IH; [done|]. apply Exists_cons in Hex as [[Hnone _]|Hex]; [|done].
    rewrite Hnone in Hin. by destruct Hin.
  - destruct Hkey as [?|[column Hcol]]; [done|]. simpl. rewrite Hcol. simpl.
    destruct (column !! idx) as [v|] eqn:Hv; [|done]. simpl.
    apply IH.
    + eapply Forall_impl; [exact Hall|]. intros key' [Hs|Hs]; [|by right].
      left. destruct (decide (key = key')) as [->|Hne].
      * rewrite lookup_insert_eq. by eexists.
      * by rewrite lookup_insert_ne.
    + apply Exists_cons in Hex as [[_ Hno]|Hex].
      { rewrite Hcol in Hno. simpl in Hno. congruence. }
      apply Exists_exists in Hex as (key' & Hk & Hnone & Hno).
      apply Exists_exists. exists key'. split; [done|]. split; [|done].
      rewrite lookup_insert_ne; [done|]. intros <-.
      rewrite Hcol in Hno. simpl in Hno. congruence.
Qed.

Lemma declared_annotations_keys num_classes columns key :
  key ∈ (declared_annotations num_classes (Some columns)).*1
  ↔ key ∈ ["label_fg"; "label_bg"; "label_all"; "rating"]
    ∧ is_Some (columns !! key).
Proof.
  unfold declared_annotations. rewrite list_elem_of_fmap. split.
  - intros ([k e] & -> & [Hs Hin]%list_elem_of_filter). simpl in *.
    split; [|done].
    unfold annotation_schema in Hin.
    repeat (apply elem_of_cons in Hin as [[= -> _]|Hin];
            [set_solver|]).
    by apply elem_of_nil in Hin.
  - intros [Hin Hs].
    assert (∃ e, (key, e) ∈ annotation_schema num_classes) as [e He].
    { unfold annotation_schema.
      repeat (apply elem_of_cons in Hin as [->|Hin];
              [eexists; repeat first [by constructor 1|constructor 2]|]).
      by apply elem_of_nil in Hin. }
    exists (key, e). split; [done|]. by apply list_elem_of_filter.
Qed.

Lemma BirdcallDataset_getitem_run itemids wavs num_classes annotations idx t :
  let keys := ["input"; "itemid"]
              ++ (declared_annotations num_classes annotations).*1 in
  let columns := default ∅ annotations in
  BirdcallDataset_getitem itemids wavs keys annotations idx t
  = match itemids !! idx, wavs !! idx with
    | Some itemid, Some wav =>
        if decide (Forall (λ key, is_Some (columns !! key
                                           ≫= λ column, column !! idx))
                          (declared_annotations num_classes annotations).*1)
        then
          match add_annotations keys annotations idx
                  (<["input" := VArr wav]> {[ "itemid" := VStr itemid ]})
          with
          | Ok item => Done item t
          | Err e => Raised e
          end
        else Raised IndexError
    | _, _ => Raised IndexError
    end.
Proof.
  intros keys columns. unfold BirdcallDataset_getitem.
  destruct (itemids !! idx) as [itemid|]; [|done].
  destruct (wavs !! idx) as [wav|]; [|done].
  unfold mbind, py_bind, lift. simpl of_option. cbv iota beta.
  case_decide as Hall; [by destruct (add_annotations _ _ _ _)|].
  destruct annotations as [columns'|].
  2:{ destruct Hall. constructor. }
  subst keys columns. simpl default in *.
  cbn [app add_annotations].
  rewrite decide_True by (rewrite lookup_insert_eq; by eexists).
  rewrite decide_True.
  2:{ rewrite lookup_insert_ne by done. rewrite lookup_singleton_eq.
      by eexists. }
  rewrite add_annotations_err; [done| |].
  - apply Forall_forall. intros key [_ Hs]%declared_annotations_keys.
    by right.
  - apply not_Forall_Exists in Hall; [|apply _].
    apply Exists_exists in Hall as (key & Hk & Hno).
    apply Exists_exists. exists key. split; [done|].
    apply declared_annotations_keys in Hk as [Hk _]. split.
    + rewrite lookup_insert_ne, lookup_singleton_ne; [done|..];
        intros <-; set_solver.
    + by apply eq_None_not_Some.
Qed.

Lemma BirdcallDataset_getitem_cases
    itemids wavs num_classes annotations idx t :
  let declared := (declared_annotations num_classes annotations).*1 in
  let getitem :=
    BirdcallDataset_getitem itemids wavs (["input"; "itemid"] ++ declared)
                            annotations in
  getitem idx t = Raised IndexError
  ∨ ∃ item itemid wav,
      getitem idx t = Done item t
      ∧ itemids !! idx = Some itemid ∧ wavs !! idx = Some wav
      ∧ dom item = {[ "input"; "itemid" ]} ∪ list_to_set declared
      ∧ item !! "itemid" = Some (VStr itemid)
      ∧ item !! "input" = Some (VArr wav)
      ∧ ∀ columns key column,
          annotations = Some columns →
          key ∈ ["label_fg"; "label_bg"; "label_all"; "rating"] →
          columns !! key = Some column →
          item !! key = column !! idx ∧ idx < length column.
Proof.
  intros declared getitem. subst getitem declared.
  rewrite BirdcallDataset_getitem_run.
  destruct (itemids !! idx) as [itemid|] eqn:Hid; [|by left].
  destruct (wavs !! idx) as [wav|] eqn:Hwav; [|by left].
  case_decide as Hall; [|by left]. right.
  set (item0 := <["input" := VArr wav]> {[ "itemid" := VStr itemid ]}
                : gmap string value).
  assert (item0 !! "input" = Some (VArr wav)) as Hinput
    by apply lookup_insert_eq.
  assert (item0 !! "itemid" = Some (VStr itemid)) as Hitemid.
  { unfold item0. rewrite lookup_insert_ne by done.
    apply lookup_singleton_eq. }
  assert (dom item0 = ({[ "input"; "itemid" ]} : gset string)) as Hdom0.
  { unfold item0. rewrite dom_insert_L, dom_singleton_L. done. }
  destruct annotations as [columns|].
  - destruct (add_annotations_ok columns
                (["input"; "itemid"]
                 ++ (declared_annotations num_classes (Some columns)).*1)
                idx item0) as (item & Heq & Hdom & Hold & Hnew).
    { cbn [app]. constructor; [left; by eexists|].
      constructor; [left; by eexists|].
      eapply Forall_impl; [exact Hall|]. intros key Hs. by right. }
    rewrite Heq. exists item, itemid, wav.
    split; [done|]. split; [done|]. split; [done|]. split.
    { rewrite Hdom, Hdom0, list_to_set_app_L. set_solver. }
    split; [rewrite Hold; [done|by eexists]|].
    split; [rewrite Hold; [done|by eexists]|].
    intros columns' key column [= <-] Hkey Hcol.
    assert (key ∈ (declared_annotations num_classes (Some columns)).*1)
      as Hdecl.
    { apply declared_annotations_keys. split; [done|by eexists]. }
    assert (item0 !! key = None) as Hnone.
    { unfold item0. rewrite lookup_insert_ne, lookup_singleton_ne; [done|..];
        intros <-; set_solver. }
    split.
    + apply Hnew; [|done..]. apply elem_of_app. by right.
    + rewrite Forall_forall in Hall. specialize (Hall key Hdecl).
      simpl in Hall. rewrite Hcol in Hall. simpl in Hall.
      by apply lookup_lt_is_Some.
  - cbn [declared_annotations fmap list_fmap app add_annotations].
    rewrite !decide_True by (by eexists).
    exists item0, itemid, wav.
    split; [done|]. split; [done|]. split; [done|]. split.
    { rewrite Hdom0. set_solver. }
    done.
Qed.

(** X18: [BirdcallDataset] cannot be built without audio:
    [common_shape] raises [StopIteration].  Otherwise its length is the
    number of item ids, the schema declares the same keys for shapes and
    dtypes, and an access makes no random draw and either raises
    [IndexError] or returns an item with exactly the declared keys:
    [itemid], the audio, and row [idx] of every annotation column the
    constructor found.  It raises [IndexError] in particular when [idx] is
    counted by [len] but lies beyond the audio list or beyond one of those
    columns. *)
Theorem X18_birdcall_dataset itemids wavs labelset annotations :
  (wavs = [] →
   BirdcallDataset itemids wavs labelset annotations = Throws StopIteration)
  ∧ ∀ d,
      BirdcallDataset itemids wavs labelset annotations = Returns d →
      num_items d = length itemids
      ∧ num_classes d = length labelset
      ∧ (∃ sh,
           shapes d = Ok sh ∧ dom sh = dom (dtypes d)
           ∧ ∀ idx t item t',
               getitem d idx t = Done item t' →
               t' = t ∧ dom item = dom sh
               ∧ (∃ itemid, itemids !! idx = Some itemid
                            ∧ item !! "itemid" = Some (VStr itemid))
               ∧ (∃ wav, wavs !! idx = Some wav
                         ∧ item !! "input" = Some (VArr wav))
               ∧ ∀ columns key column,
                   annotations = Some columns →
                   key ∈ ["label_fg"; "label_bg"; "label_all"; "rating"] →
                   columns !! key = Some column →
                   item !! key = column !! idx)
      ∧ (∀ idx t,
           getitem d idx t = Raised IndexError
           ∨ ∃ item, getitem d idx t = Done item t)
      ∧ (∀ idx t,
           length itemids ≤ idx ∨ length wavs ≤ idx
           ∨ (∃ columns key column,
                annotations = Some columns
                ∧ key ∈ ["label_fg"; "label_bg"; "label_all"; "rating"]
                ∧ columns !! key = Some column ∧ length column ≤ idx) →
           getitem d idx t = Raised IndexError).
Proof.
  split; [by intros ->|].
  intros d. unfold BirdcallDataset.
  destruct (common_shape wavs) as [shape|e]; [|done]. simpl.
  destruct (wavs !! 0) as [first|]; [|done]. simpl.
  intros [= <-].
  pose proof (BirdcallDataset_getitem_cases itemids wavs (length labelset)
                annotations) as Hcases.
  cbv zeta in Hcases.
  split; [done|]. split; [done|]. split; [|split].
  - eexists. split; [done|]. split.
    { cbn [dtypes leaf_dtypes leaf_shapes]. rewrite !foldl_insert_dom.
      rewrite !dom_insert_L, !dom_singleton_L. done. }
    intros idx t item t' Hget.
    destruct (Hcases idx t)
      as [Herr|(item' & itemid & wav & Hd & Hid & Hwav & Hdom & Hi & Hw & Hc)].
    { pose proof (eq_trans (eq_sym Herr) Hget) as Hbad. done. }
    pose proof (eq_trans (eq_sym Hd) Hget) as Heq. injection Heq as <- <-.
    split; [done|]. split.
    { cbn [leaf_shapes].
      rewrite Hdom, foldl_insert_dom, dom_insert_L, dom_singleton_L.
      set_solver. }
    split; [by eexists|]. split; [by eexists|].
    intros columns key column Ha Hk Hcol.
    by destruct (Hc columns key column Ha Hk Hcol).
  - intros idx t.
    destruct (Hcases idx t) as [Herr|(item & _ & _ & Hd & _)].
    + left. exact Herr.
    + right. exists item. exact Hd.
  - intros idx t Hout.
    destruct (Hcases idx t)
      as [Herr|(item' & itemid & wav & Hd & Hid & Hwav & _ & _ & _ & Hc)];
      [exact Herr|].
    exfalso. destruct Hout as [Hlen|[Hlen|Hcol]].
    + apply lookup_ge_None_2 in Hlen. congruence.
    + apply lookup_ge_None_2 in Hlen. congruence.
    + destruct Hcol as (columns & key & column & Ha & Hk & Hcol & Hlen).
      destruct (Hc columns key column Ha Hk Hcol) as [_ Hlt]. lia.
Qed.

Lemma X18_witness :
  BirdcallDataset ["XC1"; "XC2"] [] ["gretit1"] None = Throws StopIteration
  ∧ ∃ d,
      BirdcallDataset ["XC1"; "XC2"] [arr1 int16 [1; 2]%Z] ["gretit1"] None
      = Returns d
      ∧ num_items d = 2 ∧ getitem d 1 [] = Raised IndexError.
Proof.
  split.
  - destruct (X18_birdcall_dataset ["XC1"; "XC2"] [] ["gretit1"] None)
      as [H _].
    by apply H.
  - destruct (X18_birdcall_dataset ["XC1"; "XC2"] [arr1 int16 [1; 2]%Z]
                ["gretit1"] None) as [_ H].
    eexists. split; [reflexivity|].
    edestruct H as (Hlen & _ & _ & _ & Herr); [reflexivity|].
    split; [exact Hlen|]. apply Herr. right. left. simpl. lia.
Defined.

(** ** The pipeline [create] assembles *)

Lemma draw_free_lift {A} (r : result A) : draw_free (lift r).
Proof. by exists r. Qed.

Lemma draw_free_ret {A} (a : A) : draw_free (mret a : py A).
Proof. by exists (Ok a). Qed.

Lemma draw_free_bind {A B} (m : py A) (f : A → py B) :
  draw_free m → (∀ a, draw_free (f a)) → draw_free (m ≫= f).
Proof.
  intros [[a|e] Hm] Hf.
  - destruct (Hf a) as [r Hr]. exists r. intros t.
    unfold mbind, py_bind. rewrite Hm. simpl. apply Hr.
  - exists (Err e). intros t. unfold mbind, py_bind. by rewrite Hm.
Qed.

Lemma draw_free_crop_value v length : draw_free (crop_value v length true).
Proof.
  destruct v as [a|s]; simpl.
  - apply draw_free_bind; [|intros; apply draw_free_ret].
    unfold crop. apply draw_free_bind; [apply draw_free_lift|].
    intros l. case_decide; apply draw_free_ret.
  - case_decide; apply draw_free_ret.
Qed.

Lemma draw_free_FixedSizeExcerpts u length key idx :
  draw_free (getitem u idx) →
  draw_free (getitem (FixedSizeExcerpts u length true key) idx).
Proof.
  intros Hu. cbn [getitem].
  apply draw_free_bind; [done|]. intros item.
  apply draw_free_bind; [apply draw_free_lift|]. intros data.
  apply draw_free_bind; [apply draw_free_lift|]. intros n.
  apply draw_free_bind; [|intros; apply draw_free_ret].
  repeat case_decide;
    [apply draw_free_lift|apply draw_free_crop_value|apply draw_free_ret].
Qed.

Lemma draw_free_Floatify u transpose key idx :
  draw_free (getitem u idx) →
  draw_free (getitem (Floatify u transpose key) idx).
Proof.
  intros Hu. cbn [getitem].
  apply draw_free_bind; [done|]. intros item.
  apply draw_free_bind; [apply draw_free_lift|]. intros data.
  apply draw_free_bind; [apply draw_free_lift|]. intros a.
  apply draw_free_ret.
Qed.

Lemma draw_free_DownmixChannels u key axis method idx :
  method ≠ "random_uniform" →
  draw_free (getitem u idx) →
  draw_free (getitem (DownmixChannels u key axis method) idx).
Proof.
  intros Hmethod Hu. cbn [getitem].
  apply draw_free_bind; [done|]. intros item.
  apply draw_free_bind; [apply draw_free_lift|]. intros wav.
  apply draw_free_bind; [apply draw_free_lift|]. intros a.
  apply draw_free_bind; [apply draw_free_lift|]. intros k.
  apply draw_free_bind; [|intros; apply draw_free_ret].
  repeat case_decide; try done; apply draw_free_ret.
Qed.

Lemma construct_inv d d' :
  construct d = Returns d' → d' = d ∧ ∃ sh, shapes d = Ok sh.
Proof.
  unfold construct. destruct (shapes d) as [sh|e]; [|done].
  intros [= <-]. eauto.
Qed.

Ltac not_train H :=
  rewrite ?(bool_decide_eq_true_2 _ H);
  repeat match goal with
  | |- context [decide (?d = "train" ∧ ?P)] =>
      destruct (decide (d = "train" ∧ P)) as [[? _]|_]; [done|]
  | |- context [decide (?d = "train")] =>
      destruct (decide (d = "train")) as [?|_]; [done|]
  end;
  cbn [mbind try_bind].

Lemma create_pipeline_evaluation
    cfg designation sample_rate dataset noise synthetic :
  designation ≠ "train" →
  create_pipeline cfg designation sample_rate dataset noise synthetic
  = (d1 ← (if decide (data_len_min cfg < data_len_max cfg)%Qc then
             Throws (NotImplementedError
                       "data.len_min < data.len_max not allowed yet")
           else if decide (0 < data_len_max cfg)%Qc then
             construct (FixedSizeExcerpts dataset
                          (excerpt_length cfg sample_rate) true "input")
           else Returns dataset);
     d2 ← construct (Floatify d1 true "input");
     if decide (data_downmix cfg ≠ "none") then
       construct (DownmixChannels d2 "input" 0 "average")
     else Returns d2).
Proof.
  intros Hne. unfold create_pipeline. not_train Hne.
  destruct (if decide (data_len_min cfg < data_len_max cfg)%Qc
            then _ else _) as [d1|e]; [|done].
  cbn [mbind try_bind].
  destruct (construct (Floatify d1 true "input")) as [d2|e]; [|done].
  not_train Hne.
  destruct (decide (data_downmix cfg ≠ "none")) as [Hd|Hd].
  - destruct (construct _) as [d3|e]; [|done]. by not_train Hne.
  - by not_train Hne.
Qed.

(** X19: for a designation other than ['train'] the pipeline is built
    without the noise datasets, whatever the configuration of the
    augmentations, so a failure to build them cannot matter.  It is the
    leaf dataset wrapped in the deterministic excerpt stage if
    [data.len_max] is positive, then in the transposing float conversion
    and, unless [data.downmix] is ['none'], in the downmix of method
    ['average'] whatever method is configured; no other stage is in it.
    It has the length of the leaf dataset, declares float32 audio, and an
    access makes no random draw when the leaf makes none. *)
Theorem X19_evaluation_pipeline
    cfg designation sample_rate dataset noise synthetic d :
  designation ≠ "train" →
  create_pipeline cfg designation sample_rate dataset noise synthetic
  = Returns d →
  let excerpts :=
    if decide (0 < data_len_max cfg)%Qc
    then FixedSizeExcerpts dataset (excerpt_length cfg sample_rate) true
                           "input"
    else dataset in
  let floats := Floatify excerpts true "input" in
  ¬ (data_len_min cfg < data_len_max cfg)%Qc
  ∧ d = (if decide (data_downmix cfg ≠ "none")
         then DownmixChannels floats "input" 0 "average"
         else floats)
  ∧ (∀ noise' synthetic',
       create_pipeline cfg designation sample_rate dataset noise' synthetic'
       = Returns d)
  ∧ num_items d = num_items dataset
  ∧ dtypes d !! "input" = Some (np_dtype float32)
  ∧ (∀ idx, draw_free (getitem dataset idx) → draw_free (getitem d idx)).
Proof.
  intros Hne Hret excerpts floats.
  assert (¬ (data_len_min cfg < data_len_max cfg)%Qc
          ∧ d = (if decide (data_downmix cfg ≠ "none")
                 then DownmixChannels floats "input" 0 "average"
                 else floats)) as [Hlen Hd].
  { revert Hret. rewrite create_pipeline_evaluation by done.
    destruct (decide (data_len_min cfg < data_len_max cfg)%Qc);
      [by simpl|].
    intros Hret. split; [done|]. revert Hret.
    assert (∀ d1,
      (if decide (0 < data_len_max cfg)%Qc
       then construct (FixedSizeExcerpts dataset
                         (excerpt_length cfg sample_rate) true "input")
       else Returns dataset) = Returns d1 → d1 = excerpts) as Hex.
    { intros d1. unfold excerpts.
      destruct (decide (0 < data_len_max cfg)%Qc).
      - by intros [-> _]%construct_inv.
      - by intros [= ->]. }
    destruct (if decide (0 < data_len_max cfg)%Qc
              then construct (FixedSizeExcerpts dataset
                                (excerpt_length cfg sample_rate) true
                                "input")
              else Returns dataset) as [d1|e]; [|done].
    rewrite (Hex d1 eq_refl). cbn [mbind try_bind]. fold floats.
    destruct (construct floats) as [d2|e] eqn:Hd2; [|done].
    apply construct_inv in Hd2 as [-> _]. cbn [mbind try_bind].
    destruct (decide (data_downmix cfg ≠ "none")).
    - destruct (construct (DownmixChannels _ _ _ _)) as [d3|e] eqn:Hd3;
        [|by intros].
      apply construct_inv in Hd3 as [-> _]. by intros [= <-].
    - by intros [= <-]. }
  split; [done|]. split; [done|]. split.
  { intros noise' synthetic'. rewrite <- Hret.
    by rewrite !create_pipeline_evaluation. }
  assert (num_items excerpts = num_items dataset
          ∧ ∀ idx, draw_free (getitem dataset idx)
                   → draw_free (getitem excerpts idx)) as [Hn1 Hf1].
  { unfold excerpts. destruct (decide (0 < data_len_max cfg)%Qc); [|done].
    split; [done|]. intros idx. apply draw_free_FixedSizeExcerpts. }
  rewrite Hd. destruct (decide (data_downmix cfg ≠ "none")).
  - split; [done|]. split.
    + cbn [dtypes]. apply lookup_insert_eq.
    + intros idx Hfree. apply draw_free_DownmixChannels; [done|].
      apply draw_free_Floatify. by apply Hf1.
  - split; [done|]. split.
    + cbn [dtypes]. apply lookup_insert_eq.
    + intros idx Hfree. apply draw_free_Floatify. by apply Hf1.
Qed.

Lemma X19_witness :
  create_pipeline evaluation_config "valid" 2 (audio_dataset [[1; 2; 3]%Z])
                  (Throws StopIteration) (Throws StopIteration)
  = Returns (DownmixChannels
               (Floatify
                  (FixedSizeExcerpts (audio_dataset [[1; 2; 3]%Z])
                                     2 true "input")
                  true "input")
               "input" 0 "average")
  ∧ draw_free (getitem (DownmixChannels
                          (Floatify
                             (FixedSizeExcerpts (audio_dataset [[1; 2; 3]%Z])
                                                2 true "input")
                             true "input")
                          "input" 0 "average") 0).
Proof.
  assert ("valid" ≠ "train") as Hne by by_compute.
  assert (create_pipeline evaluation_config "valid" 2
            (audio_dataset [[1; 2; 3]%Z])
            (Throws StopIteration) (Throws StopIteration)
          = Returns (DownmixChannels
                       (Floatify
                          (FixedSizeExcerpts (audio_dataset [[1; 2; 3]%Z])
                                             2 true "input")
                          true "input")
                       "input" 0 "average")) as Hret
    by (vm_compute; reflexivity).
  destruct (X19_evaluation_pipeline _ _ _ _ _ _ _ Hne Hret)
    as (_ & _ & _ & _ & _ & Hfree).
  split; [exact Hret|]. apply Hfree. apply draw_free_lift.
Defined.

Lemma construct_raised d d' u idx t e :
  construct d = Returns d' → upstream d = Some u →
  getitem u idx t = Raised e → getitem d' idx t = Raised e.
Proof.
  intros [-> _]%construct_inv Hu Hr. by eapply getitem_upstream_raised.
Qed.

Lemma split_comma_empty : list_to_set (split_comma "") = ({[ "" ]} : gset string).
Proof. simpl. set_solver. Qed.

(** X20: [create] passes [noise_only_zero_labels.split(',')] as the label
    keys of the noise stage, and the split of the empty string is the list
    of one empty string.  With that setting empty, every training access
    on which the noise-only branch fires raises [KeyError], whatever
    stages follow, since no item has a field of the empty name. *)
Theorem X20_empty_zero_labels cfg sample_rate dataset nd synthetic d :
  data_mix_background_noise_probability cfg ≠ 0%Qc
  ∨ data_mix_background_noise_noise_only_probability cfg ≠ 0%Qc →
  data_mix_background_noise_noise_only_zero_labels cfg = "" →
  create_pipeline cfg "train" sample_rate dataset (Returns nd) synthetic
  = Returns d →
  let length := excerpt_length cfg sample_rate in
  let base :=
    Floatify (if decide (0 < data_len_max cfg)%Qc
              then FixedSizeExcerpts dataset length false "input"
              else dataset) true "input" in
  let noisedataset :=
    Floatify (FixedSizeExcerpts nd length false "input") true "input" in
  ∀ idx t item t1 t2 wav t3,
    getitem base idx t = Done item t1 →
    item !! "" = None →
    noise_only_fires (data_mix_background_noise_noise_only_probability cfg) t1
    = Done true t2 →
    get_noise (getitem noisedataset) (num_items noisedataset) "input"
              (data_mix_background_noise_min_amp cfg)
              (data_mix_background_noise_max_amp cfg) t2
    = Done wav t3 →
    getitem d idx t = Raised KeyError.
Proof.
  intros Hmix Hlabels Hret length base noisedataset idx t item t1 t2 wav t3
    Hitem Hnone Hfires Hnoise.
  revert Hret. unfold create_pipeline.
  rewrite Hlabels, split_comma_empty.
  rewrite bool_decide_eq_false_2 by (intros Hne; by apply Hne).
  fold length.
  destruct (decide (data_len_min cfg < data_len_max cfg)%Qc); [by simpl|].
  assert (∀ d1,
    (if decide (0 < data_len_max cfg)%Qc
     then construct (FixedSizeExcerpts dataset length false "input")
     else Returns dataset) = Returns d1 →
    Floatify d1 true "input" = base) as Hbase.
  { intros d1. unfold base. destruct (decide (0 < data_len_max cfg)%Qc).
    - by intros [-> _]%construct_inv.
    - by intros [= ->]. }
  destruct (if decide (0 < data_len_max cfg)%Qc
            then construct (FixedSizeExcerpts dataset length false "input")
            else Returns dataset) as [d1|e] eqn:Hd1; [|done].
  specialize (Hbase d1 eq_refl). cbn [mbind try_bind].
  destruct (construct (Floatify d1 true "input")) as [d2|e] eqn:Hd2;
    [|by intros].
  apply construct_inv in Hd2 as [-> _]. rewrite Hbase. cbn [mbind try_bind].
  destruct (decide ("train" = "train" ∧ (_ ∨ _))) as [_|Hno];
    [|destruct Hno; by split].
  cbn [mbind try_bind].
  destruct (construct (FixedSizeExcerpts nd length false "input"))
    as [n1|e] eqn:Hn1; [|by intros].
  apply construct_inv in Hn1 as [-> _]. cbn [mbind try_bind].
  destruct (construct (Floatify _ true "input")) as [n2|e] eqn:Hn2;
    [|by intros].
  apply construct_inv in Hn2 as [-> _]. cbn [mbind try_bind].
  fold noisedataset.
  destruct (construct (MixBackgroundNoise base noisedataset _ _ _ _ _ _ _ _))
    as [mix|e] eqn:Hmixed; [|by intros].
  apply construct_inv in Hmixed as [-> _]. cbn [mbind try_bind].
  set (mix := MixBackgroundNoise base noisedataset _ _ _ _ _ _ _ _).
  assert (getitem mix idx t = Raised KeyError) as Hraised.
  { unfold mix. rewrite (MixBackgroundNoise_getitem _ _ _ _ _ _ _ _ _ _ _ _ _ _
                           Hitem).
    rewrite (run_bind _ _ _ _ _ Hfires). cbv iota.
    rewrite (run_bind _ _ _ _ _ Hnoise).
    rewrite elements_singleton. unfold lift. cbn [update_fields].
    unfold get_field. rewrite lookup_insert_ne by done. by rewrite Hnone. }
  clearbody mix.
  assert ((∃ d3, getitem d3 idx t = Raised KeyError
    ∧ (if decide (data_downmix cfg ≠ "none")
       then construct (DownmixChannels mix "input" 0
                         (if decide ("train" = "train") then data_downmix cfg
                          else "average"))
       else Returns mix) = Returns d3)
      ∨ ∃ e, (if decide (data_downmix cfg ≠ "none")
              then construct (DownmixChannels mix "input" 0
                         (if decide ("train" = "train") then data_downmix cfg
                          else "average"))
              else Returns mix) = Throws e) as Hstage.
  { destruct (decide (data_downmix cfg ≠ "none")).
    - destruct (construct (DownmixChannels _ _ _ _)) as [d3|e] eqn:Hd3.
      + left. exists d3. split; [|done].
        by eapply construct_raised.
      + right. by exists e.
    - left. by exists mix. }
  destruct Hstage as [(d3 & Hd3 & ->)|[e ->]]; [|by intros].
  cbn [mbind try_bind]. clear Hraised. clearbody base noisedataset.
  destruct (decide ("train" = "train"
                    ∧ data_mix_synthetic_noise_probability cfg ≠ 0%Qc)).
  - destruct synthetic as [ns|e]; [|by intros]. cbn [mbind try_bind].
    destruct (construct (FixedSizeExcerpts ns length false "input"))
      as [s1|e] eqn:Hs1; [|by intros].
    cbn [mbind try_bind].
    destruct (construct (Floatify s1 true "input")) as [s2|e] eqn:Hs2;
      [|by intros].
    cbn [mbind try_bind].
    destruct (construct (MixBackgroundNoise d3 s2 _ _ _ _ _ _ _ _))
      as [d4|e] eqn:Hd4; [|by intros].
    cbn [mbind try_bind].
    assert (getitem d4 idx t = Raised KeyError) as Hr4
      by by eapply construct_raised.
    destruct (decide ("train" = "train" ∧ data_mixup_apply_to cfg ≠ "")).
    + intros Hd. by eapply construct_raised.
    + by intros [= <-].
  - cbn [mbind try_bind].
    destruct (decide ("train" = "train" ∧ data_mixup_apply_to cfg ≠ "")).
    + intros Hd. by eapply construct_raised.
    + by intros [= <-].
Qed.


Lemma X20_witness :
  ∃ d,
    create_pipeline noise_only_config "train" 2 (audio_dataset [[1; 2; 3]%Z])
                    (Returns (audio_dataset [[5; 6; 7]%Z]))
                    (Throws StopIteration)
    = Returns d
    ∧ getitem d 0 [randint_draw 0; rand_draw half; randint_draw 0;
                   randint_draw 1]
      = Raised KeyError.
Proof.
  eexists. split; [vm_compute; reflexivity|].
  eapply (X20_empty_zero_labels noise_only_config 2
            (audio_dataset [[1; 2; 3]%Z]) (audio_dataset [[5; 6; 7]%Z])
            (Throws StopIteration)).
  - right. by_compute_neq.
  - reflexivity.
  - vm_compute; reflexivity.
  - vm_compute; reflexivity.
  - vm_compute; reflexivity.
  - vm_compute; reflexivity.
  - vm_compute; reflexivity.
Defined.

(** ** [create_noise_dataset] *)

Lemma read_noise_csv_within df sample_rate L beginnings endings segments :
  call_intervals df = Ok (beginnings, endings) →
  Forall (λ x, 0 ≤ x ≤ L)%Z (to_samples sample_rate beginnings) →
  Forall (λ x, 0 ≤ x ≤ L)%Z (to_samples sample_rate endings) →
  (0 ≤ L)%Z →
  read_noise_csv df sample_rate L = Ok segments →
  Forall (λ seg, 0 ≤ seg.1 ∧ 0 ≤ seg.2 ∧ seg.1 + seg.2 ≤ L)%Z segments.
Proof.
  intros Hdf Hb He HL. unfold read_noise_csv. rewrite Hdf. simpl.
  intros [= <-]. rewrite inactive_segments_sweep.
  apply sweep_within; [| |done].
  - eapply StronglySorted_weaken; [apply tuple_le_offset_le|].
    apply sorted_StronglySorted.
  - apply Forall_forall. intros ev Hev.
    rewrite sorted_Permutation in Hev. unfold change_events in Hev.
    apply elem_of_app in Hev as [Hev|Hev];
      apply list_elem_of_fmap in Hev as (x & -> & Hx); simpl.
    + rewrite Forall_forall in Hb. by apply Hb.
    + rewrite Forall_forall in He. by apply He.
Qed.

Lemma noise_segments_elem_of (wavs : list ndarray)
    (segments_per_wav : list (list (Z * Z))) min_length wav start len :
  (wav, start, len)
  ∈ ('(wav, segments) ← zip wavs segments_per_wav;
     '(start, length) ← segments;
     if decide (min_length ≤ qz length)%Qc then [(wav, start, length)]
     else [])
  → ∃ i segments,
      wavs !! i = Some wav ∧ segments_per_wav !! i = Some segments
      ∧ (start, len) ∈ segments ∧ (min_length ≤ qz len)%Qc.
Proof.
  rewrite list_elem_of_bind.
  intros ([wav' segments] & Hin & Hzip).
  apply elem_of_zip_lookup in Hzip as (i & Hw & Hs).
  apply list_elem_of_bind in Hin as ([start' len'] & Hin & Hseg).
  case_decide; [|by apply elem_of_nil in Hin].
  apply list_elem_of_singleton in Hin. simplify_eq.
  by exists i, segments.
Qed.

Lemma Qc_trunc_le q z :
  (0 ≤ z)%Z → (q ≤ qz z)%Qc → (Qc_trunc q ≤ z)%Z.
Proof.
  intros Hz Hq. unfold Qc_trunc.
  assert (Qnum q ≤ z * Zpos (Qden q))%Z as Hnum.
  { unfold Qcle, qz, Qc_of_Z in Hq. simpl in Hq.
    unfold Qle, inject_Z in Hq. simpl in Hq. lia. }
  destruct (decide (0 ≤ Qnum q)%Z) as [Hpos|Hneg].
  - rewrite <- (Z.quot_mul z (Zpos (Qden q))) by lia.
    apply Z.quot_le_mono; lia.
  - assert (Qnum q `quot` Zpos (Qden q) ≤ 0)%Z; [|lia].
    apply Z.quot_le_upper_bound; lia.
Qed.

Lemma window_window a s len pos L :
  pos + L ≤ len →
  window (window a s len) pos L = window a (s + pos) L.
Proof.
  intros Hle. unfold window. simpl. f_equal.
  unfold row_size. simpl. fold (row_size a).
  replace (len * row_size a) with (pos * row_size a + (len - pos) * row_size a)
    by nia.
  rewrite <- take_drop_commute, take_take, drop_drop.
  rewrite Nat.min_l by nia. f_equal. f_equal. nia.
Qed.


(** X21: the noise excerpts of the training pipeline.  When the calls of
    every table lie within their recording, every item of
    [FixedSizeExcerpts(create_noise_dataset(cfg),
    int(sample_rate * len_min), deterministic=False)] is a run of
    consecutive samples of one noise file that lies inside one segment the
    detector reported for that file (the whole file where it has no
    table): segments shorter than [sample_rate * len_min] were dropped, so
    an excerpt is never looped and never reaches into a call. *)
Theorem X21_noise_excerpts audios tables sample_rate len_min nd :
  (∀ i df wav n,
     tables !! i = Some (Some df) → audios !! i = Some wav →
     np_len wav = Ok n →
     ∃ beginnings endings,
       call_intervals df = Ok (beginnings, endings)
       ∧ Forall (λ x, 0 ≤ x ≤ Z.of_nat n)%Z
                (to_samples (qz (Z.of_nat sample_rate)) beginnings)
       ∧ Forall (λ x, 0 ≤ x ≤ Z.of_nat n)%Z
                (to_samples (qz (Z.of_nat sample_rate)) endings)) →
  create_noise_dataset audios tables sample_rate len_min = Returns nd →
  let L := Z.to_nat (Qc_trunc (qz (Z.of_nat sample_rate) * len_min)) in
  ∀ idx t item t',
    getitem (FixedSizeExcerpts nd L false "input") idx t = Done item t' →
    ∃ i wav n rest start length pos,
      audios !! i = Some wav ∧ arr_shape wav = n :: rest
      ∧ match tables !! i with
        | Some (Some df) =>
            ∃ segments,
              read_noise_csv df (qz (Z.of_nat sample_rate)) (Z.of_nat n)
              = Ok segments
              ∧ (start, length) ∈ segments
        | Some None => (start, length) = (0%Z, Z.of_nat n)
        | None => False
        end
      ∧ (0 ≤ start)%Z ∧ (start + length ≤ Z.of_nat n)%Z
      ∧ (qz (Z.of_nat sample_rate) * len_min ≤ qz length)%Qc
      ∧ pos + L ≤ Z.to_nat length
      ∧ item = {[ "input" := VArr (window wav (Z.to_nat start + pos) L) ]}.
Proof.
  intros Hcalls Hret L idx t item t' Hget.
  unfold create_noise_dataset in Hret.
  destruct (mapM _ (zip tables audios)) as [segs|e] eqn:Hmap; [|done].
  apply mapM_result_inv in Hmap. cbn [of_result mbind try_bind] in Hret.
  unfold NoiseDataset in Hret.
  destruct (common_shape audios) as [shape|e]; [|done].
  cbn [mbind try_bind] in Hret.
  destruct (audios !! 0) as [first|]; [|done].
  cbn [of_option of_result mbind try_bind noise_segments] in Hret.
  injection Hret as <-.
  match type of Hget with
  | getitem (FixedSizeExcerpts ?d _ _ _) _ _ = _ => set (leaf := d) in *
  end.
  pose proof Hget as Hup. cbn [getitem] in Hup.
  apply run_bind_inv in Hup as (item0 & t1 & Hup & _).
  pose proof Hup as Hseg. unfold leaf in Hseg.
  cbn [getitem leaf_getitem] in Hseg. unfold NoiseDataset_getitem in Hseg.
  apply run_bind_inv in Hseg as ([[wav start] len] & t2 & Hseg & Hmk).
  apply run_lift_inv in Hseg as [Hseg ->].
  apply mret_inv in Hmk as [<- <-].
  match type of Hseg with
  | of_option _ (?kept !! idx) = _ =>
      destruct (kept !! idx) as [seg|] eqn:Hidx; [|done]
  end.
  injection Hseg as ->.
  apply list_elem_of_lookup_2, noise_segments_elem_of in Hidx
    as (i & segments & Hw & Hs & Hin & Hmin).
  destruct (Forall2_lookup_r _ _ _ _ _ Hmap Hs) as ([table wav'] & Hz & Hf).
  apply lookup_zip_with_Some in Hz as (table' & wav'' & Heq & Ht & Hw').
  injection Heq as <- <-. rewrite Hw in Hw'. injection Hw' as <-.
  destruct (arr_shape wav) as [|n rest] eqn:Hshape.
  { unfold np_len in Hf. by rewrite Hshape in Hf. }
  pose proof (np_len_shape _ _ _ Hshape) as Hlen.
  rewrite Hlen in Hf. cbn [mbind result_bind] in Hf.
  assert ((0 ≤ start)%Z ∧ (0 ≤ len)%Z ∧ (start + len ≤ Z.of_nat n)%Z
          ∧ match tables !! i with
            | Some (Some df) =>
                ∃ segments,
                  read_noise_csv df (qz (Z.of_nat sample_rate)) (Z.of_nat n)
                  = Ok segments
                  ∧ (start, len) ∈ segments
            | Some None => (start, len) = (0%Z, Z.of_nat n)
            | None => False
            end) as (Hstart & Hlen0 & Hend & Hfree).
  { rewrite Ht. destruct table as [df|].
    - destruct (Hcalls i df wav n Ht Hw Hlen) as (bs & es & Hdf & Hb & He).
      pose proof (read_noise_csv_within _ _ _ _ _ _ Hdf Hb He
                    ltac:(lia) Hf) as Hall.
      rewrite Forall_forall in Hall. specialize (Hall _ Hin).
      simpl in Hall. split; [lia|]. split; [lia|]. split; [lia|].
      by exists segments.
    - injection Hf as <-. apply list_elem_of_singleton in Hin.
      injection Hin as -> ->. split; [lia|]. split; [lia|]. split; [lia|].
      done. }
  assert (L ≤ Z.to_nat len) as HL.
  { pose proof (Qc_trunc_le _ _ Hlen0 Hmin). unfold L. lia. }
  rewrite (py_slice_in_bounds _ _ _ _ _ Hshape Hstart Hlen0 Hend) in Hup.
  set (w := window wav (Z.to_nat start) (Z.to_nat len)) in *.
  assert (arr_shape w = Z.to_nat len :: rest) as Hw_shape.
  { unfold w, window. simpl. by rewrite Hshape. }
  rewrite (FixedSizeExcerpts_getitem _ _ _ _ _ _ _ _ (VArr w) (Z.to_nat len)
             Hup) in Hget.
  2:{ apply lookup_singleton_eq. }
  2:{ simpl. by apply np_len_shape with rest. }
  rewrite decide_False in Hget by lia.
  exists i, wav, n, rest, start, len.
  destruct (decide (L < Z.to_nat len)) as [Hlt|Hge].
  - apply run_bind_inv in Hget as (data' & t3 & Hcrop & Hret).
    apply mret_inv in Hret as [<- <-]. cbn [crop_value] in Hcrop.
    apply run_bind_inv in Hcrop as (a' & t4 & Hcrop & Hret).
    apply mret_inv in Hret as [<- <-].
    apply (crop_random_inv _ _ _ _ _ _ _ Hw_shape Hlt) in Hcrop
      as (pos & Hpos & _ & ->).
    exists pos. split; [done|]. split; [done|]. split; [done|].
    split; [done|]. split; [done|]. split; [done|]. split; [lia|].
    rewrite insert_singleton_eq. unfold w. rewrite window_window by lia.
    done.
  - apply run_bind_inv in Hget as (data' & t3 & Hsame & Hret).
    apply mret_inv in Hret as [<- <-]. apply mret_inv in Hsame as [<- _].
    exists 0. split; [done|]. split; [done|]. split; [done|].
    split; [done|]. split; [done|]. split; [done|]. split; [lia|].
    rewrite insert_singleton_eq, Nat.add_0_r. unfold w.
    by replace L with (Z.to_nat len) by lia.
Qed.

Lemma X21_witness :
  ∃ nd item wav start pos,
    create_noise_dataset [arr1 int16 [1; 2; 3; 4; 5; 6]%Z]
                         [Some (interval_table 1 [2]%Z [4]%Z)] 1 (qz 2)
    = Returns nd
    ∧ getitem (FixedSizeExcerpts nd 2 false "input") 1 [] = Done item []
    ∧ [arr1 int16 [1; 2; 3; 4; 5; 6]%Z] !! 0 = Some wav
    ∧ item = {[ "input" := VArr (window wav (Z.to_nat start + pos) 2) ]}.
Proof.
  eexists. eexists.
  assert (create_noise_dataset [arr1 int16 [1; 2; 3; 4; 5; 6]%Z]
            [Some (interval_table 1 [2]%Z [4]%Z)] 1 (qz 2)
          = Returns (Leaf (Leaf_ {[ "input" := [Some 6] ]}
                            {[ "input" := np_dtype int16 ]} 0 2
                            (NoiseDataset_getitem
                               [(arr1 int16 [1; 2; 3; 4; 5; 6]%Z, 0%Z, 2%Z);
                                (arr1 int16 [1; 2; 3; 4; 5; 6]%Z, 4%Z, 2%Z)])
                            {[ "segments" := PyObject "list" ]}))) as Hret
    by (vm_compute; reflexivity).
  assert (∀ i df wav n,
    [Some (interval_table 1 [2]%Z [4]%Z)] !! i = Some (Some df) →
    [arr1 int16 [1; 2; 3; 4; 5; 6]%Z] !! i = Some wav →
    np_len wav = Ok n →
    ∃ beginnings endings,
      call_intervals df = Ok (beginnings, endings)
      ∧ Forall (λ x, 0 ≤ x ≤ Z.of_nat n)%Z
               (to_samples (qz (Z.of_nat 1)) beginnings)
      ∧ Forall (λ x, 0 ≤ x ≤ Z.of_nat n)%Z
               (to_samples (qz (Z.of_nat 1)) endings)) as Hcalls.
  { intros i df wav n Ht Hw Hn. destruct i as [|i]; [|done].
    injection Ht as <-. injection Hw as <-. injection Hn as <-.
    eexists _, _.
    split; [apply (call_intervals_interval_table 1 [2]%Z [4]%Z)|].
    split; repeat constructor; by_compute. }
  edestruct (X21_noise_excerpts _ _ _ _ _ Hcalls Hret 1 [])
    as (i & wav & n & rest & start & len & pos & Hw & _ & _ & _ & _ & _ & _
        & Heq).
  - vm_compute. reflexivity.
  - exists wav, start, pos. split; [exact Hret|].
    destruct i as [|i]; [|done]. split; [|done].
    vm_compute. reflexivity.
Defined.

(** ** More on [Mixup] *)

Lemma blend_inv w1 w2 item1 item2 ks (item item' : gmap string value) k :
  blend w1 w2 item1 item2 ks item = Ok item' → k ∈ ks →
  ∃ x1 x2,
    item1 !! k = Some (VArr x1) ∧ item2 !! k = Some (VArr x2)
    ∧ arr_shape x1 = arr_shape x2
    ∧ item' !! k = Some (VArr (blend_arrays w1 w2 x1 x2)).
Proof.
  revert item. induction ks as [|k' ks IH]; intros item Hrun Hk.
  { by apply elem_of_nil in Hk. }
  cbn [blend] in Hrun. unfold get_field in Hrun.
  destruct (item1 !! k') as [[x1|s1]|] eqn:H1; [|done..].
  destruct (item2 !! k') as [[x2|s2]|] eqn:H2; [|done..].
  unfold scale_value, add_value, as_array, np_add, np_scale in Hrun.
  cbn [of_option mbind result_bind arr_shape arr_dtype arr_data] in Hrun.
  destruct (decide (arr_shape x1 = arr_shape x2)) as [Hs|]; [|done].
  cbn [fmap result_fmap mbind result_bind] in Hrun.
  destruct (decide (k ∈ ks)) as [Hin|Hnotin]; [by eapply IH|].
  apply elem_of_cons in Hk as [->|Hk]; [|done].
  exists x1, x2. split; [done|]. split; [done|]. split; [done|].
  rewrite (blend_other _ _ _ _ _ _ _ _ Hrun Hnotin), lookup_insert_eq.
  unfold blend_arrays. do 3 f_equal.
  by rewrite zip_with_fmap_l, zip_with_fmap_r.
Qed.

Lemma convex_bounds w a b lo hi :
  (0 ≤ w)%Qc → (w ≤ 1)%Qc →
  (lo ≤ a)%Qc → (a ≤ hi)%Qc → (lo ≤ b)%Qc → (b ≤ hi)%Qc →
  (lo ≤ w * a + (1 - w) * b)%Qc ∧ (w * a + (1 - w) * b ≤ hi)%Qc.
Proof.
  intros H0 H1 Hla Hah Hlb Hbh.
  assert (0 ≤ 1 - w)%Qc as H1'.
  { apply Qcle_minus_iff in H1. exact H1. }
  assert (lo = w * lo + (1 - w) * lo)%Qc as Hlo by ring.
  assert (hi = w * hi + (1 - w) * hi)%Qc as Hhi by ring.
  split.
  - rewrite Hlo at 1.
    apply Qcplus_le_compat; by apply Qcmult_le_mono_nonneg_l.
  - rewrite Hhi at 1.
    apply Qcplus_le_compat; by apply Qcmult_le_mono_nonneg_l.
Qed.

(** X22: where a mixed field holds arrays of one shape in both items and
    is not binarized, the field [Mixup] returns has that shape, and in
    exact arithmetic every entry of it lies between the entries of the two
    items at that position; entries that lie in one range in both items,
    such as labels between 0 and 1, stay in that range. *)
Theorem X22_mixup_within_items
    u keys bkeys alpha idx t item1 j t1 item2 w1 t3 item' t' k x1 x2 :
  getitem u idx t = Done item1 (randint_draw j :: t1) →
  j < num_items u →
  getitem u j t1 = Done item2 (beta_draw w1 :: t3) →
  (0 < alpha)%Qc → (0 ≤ w1)%Qc → (w1 ≤ 1)%Qc →
  getitem (Mixup u keys bkeys alpha) idx t = Done item' t' →
  k ∈ keys → k ∉ bkeys →
  item1 !! k = Some (VArr x1) → item2 !! k = Some (VArr x2) →
  arr_shape x1 = arr_shape x2 →
  ∃ y, item' !! k = Some (VArr y)
       ∧ arr_shape y = arr_shape x1
       ∧ length (arr_data y)
         = length (arr_data x1) `min` length (arr_data x2)
       ∧ ∀ i a b lo hi,
           arr_data x1 !! i = Some a → arr_data x2 !! i = Some b →
           (lo ≤ a)%Qc → (a ≤ hi)%Qc → (lo ≤ b)%Qc → (b ≤ hi)%Qc →
           ∃ c, arr_data y !! i = Some c
                ∧ c = (w1 * a + (1 - w1) * b)%Qc
                ∧ (lo ≤ c)%Qc ∧ (c ≤ hi)%Qc.
Proof.
  intros Hu1 Hj Hu2 Ha H0 H1 Hget Hk Hnb Hx1 Hx2 Hshape.
  rewrite (Mixup_getitem _ _ _ _ _ _ _ _ _ _ _ _ Hu1 Hj Hu2 Ha H0 H1) in Hget.
  apply run_bind_inv in Hget as (item & t4 & Hblend & Hbin).
  apply run_lift_inv in Hblend as [Hblend ->].
  apply run_lift_inv in Hbin as [Hbin ->].
  destruct (blend_inv _ _ _ _ _ _ _ k Hblend)
    as (x1' & x2' & Hx1' & Hx2' & _ & Hy).
  { by apply elem_of_elements. }
  rewrite Hx1 in Hx1'. rewrite Hx2 in Hx2'.
  injection Hx1' as <-. injection Hx2' as <-.
  eexists. split.
  { rewrite (update_fields_other _ _ _ _ _ Hbin); [exact Hy|].
    by rewrite elem_of_elements. }
  split; [done|]. split.
  { unfold blend_arrays. cbn [arr_data]. apply length_zip_with. }
  intros i a b lo hi Hai Hbi Hla Hah Hlb Hbh.
  exists (w1 * a + (1 - w1) * b)%Qc. split; [|split; [done|]].
  - unfold blend_arrays. cbn [arr_data].
    rewrite lookup_zip_with, Hai. simpl. by rewrite Hbi.
  - by apply convex_bounds.
Qed.

Lemma X22_witness :
  ∃ c,
    getitem (Mixup label_dataset {[ "label_bg" ]} ∅ half) 0
            [randint_draw 1; beta_draw quarter]
    = Done (<["label_bg" := VArr (Array float64 [2]
                                    [Q2Qc (1 # 4); Q2Qc (3 # 4)])]>
              (label_item "b" [0; 4]%Z [0; 1]%Z)) []
    ∧ [Q2Qc (1 # 4); Q2Qc (3 # 4)] !! 0 = Some c
    ∧ (0 ≤ c)%Qc ∧ (c ≤ 1)%Qc.
Proof.
  assert (getitem (Mixup label_dataset {[ "label_bg" ]} ∅ half) 0
                  [randint_draw 1; beta_draw quarter]
          = Done (<["label_bg" := VArr (Array float64 [2]
                                          [Q2Qc (1 # 4); Q2Qc (3 # 4)])]>
                    (label_item "b" [0; 4]%Z [0; 1]%Z)) []) as Hget
    by by_compute.
  destruct (X22_mixup_within_items label_dataset {[ "label_bg" ]} ∅ half 0
              [randint_draw 1; beta_draw quarter]
              (label_item "a" [4; 8]%Z [1; 0]%Z) 1 [beta_draw quarter]
              (label_item "b" [0; 4]%Z [0; 1]%Z) quarter []
              _ [] "label_bg" (arr1 uint8 [1; 0]%Z) (arr1 uint8 [0; 1]%Z)
              ltac:(reflexivity) ltac:(simpl; lia) ltac:(reflexivity)
              ltac:(by_compute) ltac:(by_compute) ltac:(by_compute)
              Hget)
    as (y & Hy & _ & _ & Hrange).
  - by apply elem_of_singleton.
  - by apply not_elem_of_empty.
  - by_compute.
  - by_compute.
  - reflexivity.
  - assert (Some (VArr y)
            = Some (VArr (Array float64 [2] [Q2Qc (1 # 4); Q2Qc (3 # 4)])))
      as Heq by (rewrite <- Hy; by_compute).
    injection Heq as ->.
    destruct (Hrange 0 1%Qc 0%Qc 0%Qc 1%Qc) as (c & Hc & _ & Hlo & Hhi);
      [by_compute..|].
    exists c. split; [exact Hget|].
    split; [exact Hc|]. split; [exact Hlo|exact Hhi].
Defined.

(** ** The column [label_all] of [create] *)

Lemma label_bg_run num_classes l2i labels fg :
  map_Forall (λ _ idx, idx < num_classes) l2i →
  ∃ classes,
    label_bg num_classes l2i labels fg
    = Ok (Array uint8 [num_classes]
                (foldl (λ target i, <[i := 1%Qc]> target)
                       (replicate num_classes 0%Qc) classes))
    ∧ ∀ i, i ∈ classes
           ↔ i ≠ fg ∧ Exists (λ latin, l2i !! latin = Some i) labels.
Proof.
  intros Hlt. unfold label_bg.
  destruct (mapM_result_is_Ok
              (λ latin, of_option KeyError (l2i !! latin))
              (filter (λ latin, default fg (l2i !! latin) ≠ fg) labels))
    as [classes Hclasses].
  { apply Forall_forall. intros latin [Hne _]%list_elem_of_filter.
    destruct (l2i !! latin) as [idx|]; [by eexists|done]. }
  rewrite Hclasses. simpl. apply mapM_result_inv in Hclasses.
  exists classes. split.
  - apply make_multilabel_target_nat.
    apply Forall_forall. intros i [j Hj]%list_elem_of_lookup.
    destruct (Forall2_lookup_r _ _ _ _ _ Hclasses Hj) as (latin & _ & Hl).
    destruct (l2i !! latin) as [idx|] eqn:Hidx; [|done].
    injection Hl as ->. by apply (Hlt latin).
  - intros i. rewrite Exists_exists. split.
    + intros [j Hj]%list_elem_of_lookup.
      destruct (Forall2_lookup_r _ _ _ _ _ Hclasses Hj) as (latin & Hjl & Hl).
      apply list_elem_of_lookup_2, list_elem_of_filter in Hjl as [Hne Hin].
      destruct (l2i !! latin) as [idx|] eqn:Hidx; [|done].
      injection Hl as ->. simpl in Hne. split; [done|]. by exists latin.
    + intros (Hne & latin & Hin & Hl).
      assert (latin ∈ filter (λ latin, default fg (l2i !! latin) ≠ fg) labels)
        as [j Hj]%list_elem_of_lookup.
      { apply list_elem_of_filter. by rewrite Hl. }
      destruct (Forall2_lookup_l _ _ _ _ _ Hclasses Hj) as (k & Hk & Hlk).
      rewrite Hl in Hlk. injection Hlk as <-.
      by eapply list_elem_of_lookup_2.
Qed.

(** X23: a row of [label_all] holds [weight_fg] at the foreground class,
    [weight_bg] at every other class that a known secondary label names,
    and 0 elsewhere.  As the background target never marks the foreground
    class, no entry is the sum of both weights.  The column cannot be
    built for a table without rows: [np.stack] raises [ValueError]. *)
Theorem X23_label_all weight_fg weight_bg num_classes l2i labels fg :
  map_Forall (λ _ idx, idx < num_classes) l2i →
  fg < num_classes →
  label_all weight_fg weight_bg num_classes [] [] = Err ValueError
  ∧ ∃ bg a,
      label_bg num_classes l2i labels fg = Ok bg
      ∧ label_all weight_fg weight_bg num_classes [fg] [bg] = Ok [a]
      ∧ arr_shape a = [num_classes]
      ∧ ∀ i, i < num_classes →
          arr_data a !! i
          = Some (if decide (i = fg) then weight_fg
                  else if decide (Exists (λ latin, l2i !! latin = Some i)
                                         labels)
                       then weight_bg else 0%Qc).
Proof.
  intros Hlt Hfg. split; [done|].
  destruct (label_bg_run num_classes l2i labels fg Hlt)
    as (classes & Hbg & Hclasses).
  eexists _, _. split; [exact Hbg|].
  unfold label_all, eye_row. cbn [zip zip_with mapM].
  rewrite decide_True by done.
  cbn [mbind result_bind mret result_ret fmap result_fmap].
  unfold np_add, np_scale. cbn [arr_shape arr_dtype arr_data].
  rewrite decide_False by done. cbn [mapM].
  rewrite decide_True by done.
  cbn [mbind result_bind mret result_ret fmap result_fmap].
  split; [reflexivity|]. split; [done|].
  intros i Hi. cbn [arr_data].
  rewrite lookup_zip_with, !list_lookup_fmap, lookup_seq_lt by done.
  rewrite foldl_set_one_lookup by by rewrite length_replicate.
  rewrite lookup_replicate_2 by done. cbn.
  destruct (decide (i = fg)) as [->|Hne].
  - rewrite decide_False by (rewrite Hclasses; by intros [? _]).
    cbn. f_equal. ring.
  - destruct (decide (Exists (λ latin, l2i !! latin = Some i) labels))
      as [Hex|Hex].
    + rewrite decide_True by (by apply Hclasses). cbn. f_equal. ring.
    + rewrite decide_False by (rewrite Hclasses; by intros [_ ?]).
      cbn. f_equal. ring.
Qed.

Lemma X23_witness :
  ∃ bg a,
    label_bg 3 {[ "Parus major" := 0; "Turdus merula" := 1;
                  "Corvus corax" := 2 ]}
             ["Turdus merula"; "Pica pica"; "Corvus corax"] 1
    = Ok bg
    ∧ label_all 1%Qc half 3 [1] [bg] = Ok [a]
    ∧ arr_data a !! 2 = Some half.
Proof.
  destruct (X23_label_all 1%Qc half 3
              {[ "Parus major" := 0; "Turdus merula" := 1;
                 "Corvus corax" := 2 ]}
              ["Turdus merula"; "Pica pica"; "Corvus corax"] 1)
    as (_ & bg & a & Hbg & Hall & _ & Hdata).
  - by_compute.
  - lia.
  - exists bg, a. split; [exact Hbg|]. split; [exact Hall|].
    rewrite (Hdata 2) by lia. f_equal.
Defined.
